(** * Quantum Fortuna: the prediction engine's samplers and metrics

    A shallow embedding of [src/data/quantumPredictionEngine.ts] (the
    [QuantumPredictionEngine] class), of the mock responses of
    [src/services/apiService.ts] and of the generator of the
    [QuantumNumberGenerator] component, together with the properties the
    specification states about the unique bounded sampler and the derived
    metrics, and with further properties of the code around them.

    Conventions of the embedding.
    - A JavaScript [number] holding a count, a bound or a drawn lottery
      number is a [Z]; every other [number] (weights, scores, results of
      [Math.random()]) is an exact rational [Q].  Rounding of IEEE doubles
      is not modelled.
    - A call completes normally, throws, or is still running when the
      iteration budget ([fuel]) of a [while] loop is used up.
    - [Math.random()] and [performance.now()] read the next element of an
      infinite stream held by the world; the streams are never changed,
      only the read positions advance.
    - [Math.sin], [Math.cos] and [Math.PI] are parameters of the
      development: nothing proved here depends on their values.
    - Strings are sequences of ASCII characters; an object used as a table
      is looked up by its own keys.
    - Line numbers refer to the first of the two versions of the class that
      [quantumPredictionEngine.ts] holds, the one with per-lottery
      configurations, unless the second version is named.
      [loadHistoricalData] and the [fetch] branches of the API service
      are not embedded. *)

From Stdlib Require Import QArith Qround Qminmax Lqa.
From stdpp Require Import base tactics option list list_numbers sorting
  gmap strings pretty.

Local Open Scope Z_scope.

(** * The embedding *)

(** ** Completions and the world *)

Inductive Completion (A : Type) : Type :=
  | Normal (value : A)
  | Throw (name : string)
  | Pending.
Arguments Normal {A} value.
Arguments Throw {A} name.
Arguments Pending {A}.

(** Array objects live in a heap: two references to the same array see each
    other's writes. *)
Definition loc := positive.

Record QuantumKernelParams := {
  entanglementDepth : Z;
  quantumCircuitLayers : Z;
  featureMap : string;
  kernelType : string;
  optimizationLevel : Z
}.

Record QuantumPredictionConfig := {
  kernelParams : QuantumKernelParams;
  ensembleSize : Z;
  confidenceThreshold : Q;
  historicalDataWeight : Q;
  quantumNoiseModel : string;
  adaptiveLearningRate : Q;
  featureEngineeringDepth : Z
}.

Definition defaultQuantumConfig : QuantumPredictionConfig := {|
  kernelParams := {|
    entanglementDepth := 3;
    quantumCircuitLayers := 2;
    featureMap := "PauliFeatureMap";
    kernelType := "hybrid";
    optimizationLevel := 2
  |};
  ensembleSize := 5;
  confidenceThreshold := 85 # 100;
  historicalDataWeight := 7 # 10;
  quantumNoiseModel := "depolarizing";
  adaptiveLearningRate := 1 # 100;
  featureEngineeringDepth := 3
|}.

(** The object returned by [getLotteryConfiguration]; the two optional
    fields are absent ([None]) for lotteries without special numbers. *)
Record LotteryConfiguration := {
  numberCount : Z;
  numberRange : Z;
  specialNumbers : bool;
  specialNumberCount : option Z;
  specialNumberRange : option Z;
  drawFrequency : string;
  historicalDataDepth : Z
}.

Record HistoricalDraw := {
  draw_numbers : list Z;
  drawNumber : Z
}.

(** The fields of a [QuantumPredictionEngine] instance.  [supportedLotteries]
    is a reference to an array object in the heap. *)
Record QuantumPredictionEngine := {
  config : QuantumPredictionConfig;
  historicalData : gmap string (list HistoricalDraw);
  featureMatrix : list (list Q);
  supportedLotteries : loc;
  lotteryConfigurations : gmap string LotteryConfiguration
}.

Record World := {
  this : QuantumPredictionEngine;
  heap : gmap loc (list string);
  randomStream : nat → Q;
  randomCalls : nat;
  clockStream : nat → Q;
  clockCalls : nat
}.

Definition M (A : Type) : Type := World → Completion (A * World).

Definition ret {A} (a : A) : M A := λ w, Normal (a, w).

Definition bind {A B} (m : M A) (k : A → M B) : M B := λ w,
  match m w with
  | Normal (a, w') => k a w'
  | Throw e => Throw e
  | Pending => Pending
  end.

Notation "x <- m ;; k" := (bind m (λ x, k))
  (at level 100, m at next level, right associativity,
   format "'[v' x  <-  m  ;;  '/' k ']'").

Definition gets {A} (f : World → A) : M A := λ w, Normal (f w, w).

(** [Math.random()] *)
Definition Math_random : M Q := λ w,
  Normal (randomStream w (randomCalls w),
          {| this := this w; heap := heap w;
             randomStream := randomStream w; randomCalls := S (randomCalls w);
             clockStream := clockStream w; clockCalls := clockCalls w |}).

(** [performance.now()] *)
Definition performance_now : M Q := λ w,
  Normal (clockStream w (clockCalls w),
          {| this := this w; heap := heap w;
             randomStream := randomStream w; randomCalls := randomCalls w;
             clockStream := clockStream w; clockCalls := S (clockCalls w) |}).

(** [while (cond) { body }] over the variables [s] the loop updates; the
    loop is still running ([Pending]) when [fuel] iterations did not make
    the condition false. *)
Fixpoint while {S : Type} (fuel : nat) (cond : S → bool) (body : S → M S)
    (s : S) : M S :=
  if cond s then
    match fuel with
    | O => λ _, Pending
    | S fuel' => s' <- body s ;; while fuel' cond body s'
    end
  else ret s.

(** [for (let i = start; cond(i); i++) { body }], the condition being
    re-evaluated (with its reads of the engine) before every iteration. *)
Fixpoint for_loop {S : Type} (fuel : nat) (i : Z) (cond : Z → M bool)
    (body : Z → S → M S) (s : S) : M S :=
  c <- cond i ;;
  if c : bool then
    match fuel with
    | O => λ _, Pending
    | S fuel' => s' <- body i s ;; for_loop fuel' (i + 1) cond body s'
    end
  else ret s.

(** [array.map(f)] where [f] has effects: elements are visited in order. *)
Fixpoint mapM {A B : Type} (f : A → M B) (l : list A) : M (list B) :=
  match l with
  | [] => ret []
  | x :: l' => y <- f x ;; ys <- mapM f l' ;; ret (y :: ys)
  end.

(** ** JavaScript values the code relies on *)

(** Truthiness of the values the engine tests. *)
Definition truthy_string (s : string) : bool := negb (String.eqb s "").
Definition truthy_flag (b : option bool) : bool := default false b.
Definition truthy_number (n : option Z) : bool :=
  match n with Some n => negb (n =? 0) | None => false end.

(** [numbers.sort((a, b) => a - b)] *)
Definition sort_ascending (numbers : list Z) : list Z := merge_sort Z.le numbers.

(** [array[Math.floor(x)]]: [None] is [undefined]. *)
Definition Array_at {A} (array : list A) (index : Z) : option A :=
  if index <? 0 then None else array !! Z.to_nat index.

(** [numbers.includes(num)] *)
Definition includes (numbers : list Z) (num : Z) : bool :=
  bool_decide (num ∈ numbers).

(** A [Set<number>] keeps its elements in insertion order. *)
Definition Set_add (num : Z) (numbers : list Z) : list Z :=
  if bool_decide (num ∈ numbers) then numbers else numbers ++ [num].
Definition Set_size (numbers : list Z) : Z := Z.of_nat (length numbers).
Definition Array_from (numbers : list Z) : list Z := numbers.

(** An object literal with string keys, in insertion order, which is the
    order [Object.entries] enumerates. *)
Definition Object_entries {V} (o : list (string * V)) : list (string * V) := o.

Definition set_property {V} (o : list (string * V)) (kv : string * V) :
    list (string * V) :=
  if bool_decide (kv.1 ∈ o.*1)
  then (λ e : string * V, if String.eqb e.1 kv.1 then (e.1, kv.2) else e) <$> o
  else o ++ [kv].

Definition Object_fromEntries {V} (entries : list (string * V)) :
    list (string * V) :=
  foldl set_property [] entries.

Definition Object_get {V} (o : list (string * V)) (key : string) : option V :=
  (λ ie, ie.2.2) <$> list_find (λ e, e.1 = key) o.

Definition ascii_toUpperCase (c : Ascii.ascii) : Ascii.ascii :=
  let n := Ascii.nat_of_ascii c in
  if ((97 <=? n) && (n <=? 122))%nat then Ascii.ascii_of_nat (n - 32) else c.

Fixpoint toUpperCase (s : string) : string :=
  match s with
  | EmptyString => EmptyString
  | String c s' => String (ascii_toUpperCase c) (toUpperCase s')
  end.

(** A number interpolated in a template literal. *)
Definition Number_toString (n : Z) : string := pretty n.

(** ** Array objects *)

(** [[...array]] and array literals allocate a new array object. *)
Definition Array_new (elements : list string) : M loc := λ w,
  let a := fresh (dom (heap w)) in
  Normal (a, {| this := this w; heap := <[a := elements]> (heap w);
                randomStream := randomStream w; randomCalls := randomCalls w;
                clockStream := clockStream w; clockCalls := clockCalls w |}).

(** Reading the elements of the array a reference points to. *)
Definition Array_elements (a : loc) : M (list string) := λ w,
  match heap w !! a with
  | Some elements => Normal (elements, w)
  | None => Throw "TypeError"
  end.

(** Any in-place update of an array ([push], [pop], [splice], an indexed
    assignment, [length = 0]): the elements become [f elements]. *)
Definition Array_mutate (a : loc) (f : list string → list string) : M unit := λ w,
  match heap w !! a with
  | Some elements =>
      Normal ((), {| this := this w; heap := <[a := f elements]> (heap w);
                     randomStream := randomStream w; randomCalls := randomCalls w;
                     clockStream := clockStream w; clockCalls := clockCalls w |})
  | None => Throw "TypeError"
  end.

(** Assignment to the fields of [this]. *)
Definition set_this (e : QuantumPredictionEngine) : M unit := λ w,
  Normal ((), {| this := e; heap := heap w;
                 randomStream := randomStream w; randomCalls := randomCalls w;
                 clockStream := clockStream w; clockCalls := clockCalls w |}).

(** ** Results *)

Record PredictionSet := {
  id : string;
  name : option string;
  numbers : list Z;
  bonus : list Z;
  confidence : Q;
  strategy : option string;
  rationale : option string;
  expectedValue : Q
}.

Record QuantumMetrics := {
  entanglementScore : Q;
  quantumAdvantage : Q;
  circuitDepth : Z;
  featureImportance : list (string * Q);
  uncertaintyEstimate : Q
}.

Record ExecutionStats := {
  circuitExecutionTime : Q;
  classicalPostProcessingTime : Q;
  totalExecutionTime : Q;
  convergenceIterations : Z
}.

Record QuantumPredictionResult := {
  primaryPrediction : PredictionSet;
  alternativeSets : list PredictionSet;
  lotteryType : string;
  quantumMetrics : QuantumMetrics;
  executionStats : ExecutionStats
}.

(** ** [getLotteryConfiguration] (quantumPredictionEngine.ts, 263-320) *)

Definition getLotteryConfiguration (lotteryType : string) : LotteryConfiguration :=
  if String.eqb lotteryType "emirates_mega7" then
    {| numberCount := 7; numberRange := 49; specialNumbers := false;
       specialNumberCount := None; specialNumberRange := None;
       drawFrequency := "weekly"; historicalDataDepth := 100 |}
  else if String.eqb lotteryType "emirates_easy6" then
    {| numberCount := 6; numberRange := 42; specialNumbers := false;
       specialNumberCount := None; specialNumberRange := None;
       drawFrequency := "weekly"; historicalDataDepth := 100 |}
  else if String.eqb lotteryType "us_powerball" then
    {| numberCount := 5; numberRange := 69; specialNumbers := true;
       specialNumberCount := Some 1; specialNumberRange := Some 26;
       drawFrequency := "twice-weekly"; historicalDataDepth := 200 |}
  else if String.eqb lotteryType "euro_millions" then
    {| numberCount := 5; numberRange := 50; specialNumbers := true;
       specialNumberCount := Some 2; specialNumberRange := Some 12;
       drawFrequency := "twice-weekly"; historicalDataDepth := 150 |}
  else if String.eqb lotteryType "india_lotto" then
    {| numberCount := 6; numberRange := 49; specialNumbers := false;
       specialNumberCount := None; specialNumberRange := None;
       drawFrequency := "weekly"; historicalDataDepth := 80 |}
  else
    {| numberCount := 6; numberRange := 49; specialNumbers := false;
       specialNumberCount := None; specialNumberRange := None;
       drawFrequency := "weekly"; historicalDataDepth := 100 |}.

(** ** Construction and configuration of the engine *)

(** [Partial<QuantumPredictionConfig>]: the fields the caller supplies. *)
Record PartialConfig := {
  p_kernelParams : option QuantumKernelParams;
  p_ensembleSize : option Z;
  p_confidenceThreshold : option Q;
  p_historicalDataWeight : option Q;
  p_quantumNoiseModel : option string;
  p_adaptiveLearningRate : option Q;
  p_featureEngineeringDepth : option Z
}.

Definition no_config : PartialConfig := {|
  p_kernelParams := None; p_ensembleSize := None;
  p_confidenceThreshold := None; p_historicalDataWeight := None;
  p_quantumNoiseModel := None; p_adaptiveLearningRate := None;
  p_featureEngineeringDepth := None
|}.

(** [{ ...base, ...params }] *)
Definition spread (base : QuantumPredictionConfig) (params : PartialConfig) :
    QuantumPredictionConfig := {|
  kernelParams := default (kernelParams base) (p_kernelParams params);
  ensembleSize := default (ensembleSize base) (p_ensembleSize params);
  confidenceThreshold :=
    default (confidenceThreshold base) (p_confidenceThreshold params);
  historicalDataWeight :=
    default (historicalDataWeight base) (p_historicalDataWeight params);
  quantumNoiseModel := default (quantumNoiseModel base) (p_quantumNoiseModel params);
  adaptiveLearningRate :=
    default (adaptiveLearningRate base) (p_adaptiveLearningRate params);
  featureEngineeringDepth :=
    default (featureEngineeringDepth base) (p_featureEngineeringDepth params)
|}.

Definition initializeLotteryConfigurations : M unit :=
  a <- gets (λ w, supportedLotteries (this w)) ;;
  lotteries <- Array_elements a ;;
  e <- gets this ;;
  set_this {|
    config := config e;
    historicalData := historicalData e;
    featureMatrix := featureMatrix e;
    supportedLotteries := supportedLotteries e;
    lotteryConfigurations :=
      foldl (λ configurations lotteryType,
               <[lotteryType := getLotteryConfiguration lotteryType]> configurations)
            (lotteryConfigurations e) lotteries
  |}.

(** Field initialisers, then the body of the constructor. *)
Definition constructor (config : PartialConfig) : M unit :=
  a <- Array_new ["emirates_mega7"; "emirates_easy6"; "us_powerball";
                  "euro_millions"; "india_lotto"] ;;
  _ <- set_this {|
    config := spread defaultQuantumConfig config;
    historicalData := ∅;
    featureMatrix := [];
    supportedLotteries := a;
    lotteryConfigurations := ∅
  |} ;;
  initializeLotteryConfigurations.

Definition setParameters (params : PartialConfig) : M unit :=
  e <- gets this ;;
  set_this {|
    config := spread (config e) params;
    historicalData := historicalData e;
    featureMatrix := featureMatrix e;
    supportedLotteries := supportedLotteries e;
    lotteryConfigurations := lotteryConfigurations e
  |}.

(** ** [getSupportedLotteries] (quantumPredictionEngine.ts, 186-188) *)

Definition getSupportedLotteries : M loc :=
  a <- gets (λ w, supportedLotteries (this w)) ;;
  elements <- Array_elements a ;;
  Array_new elements.

(** ** [generateFeatureImportance] (quantumPredictionEngine.ts, 327-346) *)

Definition baseImportance : list (string * Q) :=
  [ ("frequency", 35 # 100);
    ("recency", 25 # 100);
    ("entropy", 20 # 100);
    ("cooccurrence", 15 # 100);
    ("seasonality", 5 # 100) ].

Definition generateFeatureImportance (lotteryType : string) : M (list (string * Q)) :=
  let variation := (1 # 10)%Q in
  entries <- mapM
    (λ '(key, value),
       r <- Math_random ;;
       ret (key,
            Qmin (95 # 100)
              (Qmax (5 # 100) (value + (r * variation * 2 - variation)))%Q))
    (Object_entries baseImportance) ;;
  ret (Object_fromEntries entries).

(** ** [getRandomStrategy] (quantumPredictionEngine.ts, 566-578) *)

Definition getRandomStrategy : M (option string) :=
  let strategies :=
    [ "Non-Linear Dynamics"; "Temporal Pattern Mining"; "Multi-Modal Fusion";
      "Quantum Probability Field"; "Strategic Value Play"; "Hybrid Ensemble";
      "Chaos Theory Emergence"; "Historical Resonance" ] in
  r <- Math_random ;;
  ret (Array_at strategies (Qfloor (r * inject_Z (Z.of_nat (length strategies))))).

(** ** [generateRationale] (quantumPredictionEngine.ts, 493-560) *)

Definition rationales : list (string * list string) :=
  [ ("Quantum Neural Convergence",
     [ "Quantum circuit analysis reveals strong probability amplitudes";
       "Neural network fusion with quantum kernels optimizes selection";
       "Entanglement patterns suggest high coherence in number selection" ]);
    ("Non-Linear Dynamics",
     [ "Chaos theory analysis of historical patterns reveals attractor states";
       "Fractal dimension analysis suggests emergent number patterns";
       "Lyapunov exponent optimization for maximum divergence from common selections" ]);
    ("Temporal Pattern Mining",
     [ "Time-series analysis reveals cyclical patterns in historical draws";
       "Seasonal decomposition highlights recurring number combinations";
       "Autocorrelation analysis suggests strong temporal dependencies" ]);
    ("Multi-Modal Fusion",
     [ "Ensemble of quantum and classical models with weighted voting";
       "Bayesian model averaging with quantum prior distributions";
       "Hybrid quantum-classical architecture with reinforcement learning" ]);
    ("Quantum Probability Field",
     [ "Quantum field theory applied to probability distributions";
       "Path integral formulation optimizes across multiple universes";
       "Quantum annealing process converges on optimal number selection" ]) ].

Definition lotteryRationales : list (string * list string) :=
  [ ("emirates_mega7",
     [ "Emirates Mega7 historical pattern analysis shows favorable probability distribution";
       "Quantum analysis of Emirates Mega7 draws indicates these numbers are underrepresented" ]);
    ("emirates_easy6",
     [ "Emirates Easy6 draw patterns suggest these numbers are due for appearance";
       "Statistical anomalies in Emirates Easy6 history support this prediction" ]);
    ("us_powerball",
     [ "US Powerball frequency analysis shows these numbers have favorable probability";
       "Quantum entanglement patterns specific to Powerball draws favor these selections" ]);
    ("euro_millions",
     [ "EuroMillions historical data shows a trend favoring these numbers";
       "Quantum circuit optimization for EuroMillions parameters suggests this combination" ]);
    ("india_lotto",
     [ "India Lotto draw analysis indicates these numbers have higher probability";
       "Statistical patterns in India Lotto history support this prediction" ]) ].

(** The tables are object literals evaluated at every call, so the [push]
    below changes an array no other call sees. *)
Definition generateRationale (strategy : option string) (numbers : list Z)
    (lotteryType : option string) : M (option string) :=
  let strategyRationales :=
    default
      [ "Advanced algorithmic analysis of historical patterns";
        "Statistical optimization with machine learning enhancement";
        "Probabilistic modeling with entropy maximization" ]
      (Object_get rationales (default "undefined" strategy)) in
  let strategyRationales :=
    match lotteryType with
    | Some t =>
        if truthy_string t then
          match Object_get lotteryRationales t with
          | Some specific => strategyRationales ++ specific
          | None => strategyRationales
          end
        else strategyRationales
    | None => strategyRationales
    end in
  r <- Math_random ;;
  ret (Array_at strategyRationales
         (Qfloor (r * inject_Z (Z.of_nat (length strategyRationales))))).

(** The part of the [Math] object the engine calls besides [random]. *)
Class MathLibrary := {
  Math_sin : Q → Q;
  Math_cos : Q → Q;
  Math_PI : Q
}.

Section Engine.

Context {math : MathLibrary}.

(** ** [generateQuantumRandomNumbers] (quantumPredictionEngine.ts, 399-442) *)

Record SamplerVars := {
  result : list Z;
  used : gmap Z bool
}.

Definition generateQuantumRandomNumbers (fuel : nat) (count min max : Z)
    (lotteryType : option string) : M (list Z) :=
  lotteryConfig <-
    match lotteryType with
    | Some t =>
        if truthy_string t
        then gets (λ w, lotteryConfigurations (this w) !! t)
        else ret None
    | None => ret None
    end ;;
  quantumCircuitDepth <-
    gets (λ w, quantumCircuitLayers (kernelParams (config (this w)))
               * entanglementDepth (kernelParams (config (this w)))) ;;
  let possibleNumbers := max - min + 1 in
  let actualCount := Z.min count possibleNumbers in
  vars <- while fuel
    (λ vars, Z.of_nat (length (result vars)) <? actualCount)
    (λ vars,
       r1 <- Math_random ;;
       r2 <- Math_random ;;
       r3 <- Math_random ;;
       let quantumFactor :=
         (Math_sin (r1 * r2 * Math_PI) * Math_cos (r3 * Math_PI) + (1 # 2))%Q in
       let quantumFactor :=
         match lotteryConfig with
         | Some _ =>
             Nat.iter (Z.to_nat (Z.min 3 quantumCircuitDepth))
               (λ quantumFactor,
                  ((quantumFactor + Math_sin (quantumFactor * Math_PI)) / 2)%Q)
               quantumFactor
         | None => quantumFactor
         end in
       let num :=
         Qfloor (inject_Z min + quantumFactor * inject_Z (max - min + 1))%Q in
       if (min <=? num) && (num <=? max) && negb (truthy_flag (used vars !! num))
       then ret {| result := result vars ++ [num];
                   used := <[num := true]> (used vars) |}
       else ret vars)
    {| result := []; used := ∅ |} ;;
  ret (result vars).

(** ** [generatePredictionSet] (quantumPredictionEngine.ts, 356-389) *)

Definition generatePredictionSet (fuel : nat) (id : string)
    (strategy : option string) (lotteryType : string)
    (lotteryConfig : LotteryConfiguration) : M PredictionSet :=
  let numberCount := numberCount lotteryConfig in
  let numberRange := numberRange lotteryConfig in
  let specialNumbers := specialNumbers lotteryConfig in
  let specialNumberCount := default 0 (specialNumberCount lotteryConfig) in
  let specialNumberRange := default 0 (specialNumberRange lotteryConfig) in
  numbers <- generateQuantumRandomNumbers fuel numberCount 1 numberRange None ;;
  bonus <-
    (if specialNumbers && (0 <? specialNumberCount)
     then generateQuantumRandomNumbers fuel specialNumberCount 1 specialNumberRange None
     else ret []) ;;
  rationale <- generateRationale strategy numbers (Some lotteryType) ;;
  r <- Math_random ;;
  let confidence := (90 + r * 9)%Q in
  r <- Math_random ;;
  let expectedValue := (7 + r * 2)%Q in
  ret {| id := id;
         name := strategy;
         numbers := sort_ascending numbers;
         bonus := sort_ascending bonus;
         confidence := confidence;
         strategy := strategy;
         rationale := rationale;
         expectedValue := expectedValue |}.

(** ** [generatePrediction] (quantumPredictionEngine.ts, 196-256) *)

Definition generatePrediction (fuel : nat) (lotteryType targetDate : string) :
    M QuantumPredictionResult :=
  startTime <- performance_now ;;
  t <- performance_now ;;
  r <- Math_random ;;
  let circuitTime := (t + r * 500)%Q in
  let lotteryConfig := getLotteryConfiguration lotteryType in
  primaryPrediction <- generatePredictionSet fuel
    ("QF-" +:+ toUpperCase lotteryType +:+ "-" +:+ targetDate +:+ "-001")
    (Some "Quantum Neural Convergence") lotteryType lotteryConfig ;;
  alternativeSets <- for_loop fuel 0
    (λ i, ensembleSize <- gets (λ w, ensembleSize (config (this w))) ;;
          ret (i <? ensembleSize))
    (λ i alternativeSets,
       strategy <- getRandomStrategy ;;
       set <- generatePredictionSet fuel
         ("QF-" +:+ toUpperCase lotteryType +:+ "-" +:+ targetDate +:+ "-00"
            +:+ Number_toString (i + 2))
         strategy lotteryType lotteryConfig ;;
       ret (alternativeSets ++ [set]))
    [] ;;
  endTime <- performance_now ;;
  let totalTime := (endTime - startTime)%Q in
  let postProcessingTime := (endTime - circuitTime)%Q in
  featureImportance <- generateFeatureImportance lotteryType ;;
  r1 <- Math_random ;;
  r2 <- Math_random ;;
  circuitDepth <-
    gets (λ w, quantumCircuitLayers (kernelParams (config (this w)))
               * entanglementDepth (kernelParams (config (this w)))) ;;
  r3 <- Math_random ;;
  r4 <- Math_random ;;
  ret {| primaryPrediction := primaryPrediction;
         alternativeSets := alternativeSets;
         lotteryType := lotteryType;
         quantumMetrics := {|
           entanglementScore := ((85 # 100) + r1 * (1 # 10))%Q;
           quantumAdvantage := ((15 # 10) + r2 * (5 # 10))%Q;
           circuitDepth := circuitDepth;
           featureImportance := featureImportance;
           uncertaintyEstimate := ((15 # 100) + r3 * (1 # 10))%Q |};
         executionStats := {|
           circuitExecutionTime := (circuitTime - startTime)%Q;
           classicalPostProcessingTime := postProcessingTime;
           totalExecutionTime := totalTime;
           convergenceIterations := Qfloor (10 + r4 * 20)%Q |} |}.

End Engine.

(** ** [generateUniqueRandomNumbers] (quantumPredictionEngine.ts, 478-484) *)

Definition generateUniqueRandomNumbers (fuel : nat) (min max count : Z) :
    M (list Z) :=
  numbers <- while fuel
    (λ numbers, Set_size numbers <? count)
    (λ numbers,
       r <- Math_random ;;
       ret (Set_add (Qfloor (r * inject_Z (max - min + 1)) + min) numbers))
    [] ;;
  ret (sort_ascending (Array_from numbers)).

(** ** [generateNumbers] (apiService.ts, 134-143) *)

Definition generateNumbers (fuel : nat) (count max : Z) : M (list Z) :=
  numbers <- while fuel
    (λ numbers, Z.of_nat (length numbers) <? count)
    (λ numbers,
       r <- Math_random ;;
       let num := Qfloor (r * inject_Z max) + 1 in
       if negb (includes numbers num)
       then ret (numbers ++ [num])
       else ret numbers)
    [] ;;
  ret (sort_ascending numbers).

(** ** [generateQuantumNumbers] of the [QuantumNumberGenerator] component *)

Record LotteryFormat := {
  format_id : string;
  format_name : string;
  mainNumbers : Z;
  mainRange : Z;
  bonusNumbers : option Z;
  bonusRange : option Z
}.

(** The body of the timer callback: the main and the bonus numbers handed
    to [setGeneratedNumbers] and [onNumbersGenerated]. *)
Definition generateQuantumNumbers (fuel : nat) (format : LotteryFormat) :
    M (list Z * option (list Z)) :=
  main <- while fuel
    (λ main, Z.of_nat (length main) <? mainNumbers format)
    (λ main,
       r <- Math_random ;;
       let num := Qfloor (r * inject_Z (mainRange format)) + 1 in
       if negb (includes main num) then ret (main ++ [num]) else ret main)
    [] ;;
  let main := sort_ascending main in
  bonus <-
    (if truthy_number (bonusNumbers format) && truthy_number (bonusRange format)
     then
       bonus <- while fuel
         (λ bonus, Z.of_nat (length bonus) <? default 0 (bonusNumbers format))
         (λ bonus,
            r <- Math_random ;;
            let num := Qfloor (r * inject_Z (default 0 (bonusRange format))) + 1 in
            if negb (includes bonus num) then ret (bonus ++ [num]) else ret bonus)
         [] ;;
       ret (Some (sort_ascending bonus))
     else ret None) ;;
  ret (main, bonus).

(** * Vocabulary of the statements *)

(** The value of a completed call, without the world it leaves. *)
Definition run {A} (m : M A) (w : World) : Completion A :=
  match m w with
  | Normal (a, _) => Normal a
  | Throw e => Throw e
  | Pending => Pending
  end.

(** The world after [j] further calls of [Math.random()]. *)
Definition advance (j : nat) (w : World) : World :=
  {| this := this w; heap := heap w;
     randomStream := randomStream w; randomCalls := (randomCalls w + j)%nat;
     clockStream := clockStream w; clockCalls := clockCalls w |}.

(** A rejection loop keeps a candidate when it passes the test [P] and was
    not kept before. *)
Definition accept (P : Z → bool) (acc : list Z) (c : Z) : list Z :=
  if P c && negb (bool_decide (c ∈ acc)) then acc ++ [c] else acc.

(** The candidates of the first [j] iterations of a loop that starts in
    world [w] and calls [Math.random()] [k] times per iteration. *)
Definition candidates (cand : World → Z) (k : nat) (w : World) (j : nat) : list Z :=
  (λ i, cand (advance (k * i) w)) <$> seq 0 j.

(** The numbers kept during the first [j] iterations, in the order in which
    they were kept. *)
Definition accepted (P : Z → bool) (cand : World → Z) (k : nat) (w : World)
    (j : nat) : list Z :=
  foldl (accept P) [] (candidates cand k w j).

Definition in_range (min max : Z) (num : Z) : bool :=
  (min <=? num) && (num <=? max).

(** A call only reads the engine, the heap and the two streams; it may
    advance the positions at which the streams are read. *)
Definition only_reads (w w' : World) : Prop :=
  this w' = this w ∧ heap w' = heap w ∧
  randomStream w' = randomStream w ∧ clockStream w' = clockStream w ∧
  (randomCalls w ≤ randomCalls w')%nat ∧ (clockCalls w ≤ clockCalls w')%nat.

Definition frame {A} (m : M A) : Prop :=
  ∀ w a w', m w = Normal (a, w') → only_reads w w'.

(** Two worlds hold the same inputs of a call of the engine: the same
    configuration and lottery tables, the same entropy source and clock,
    read so far to the same positions.  The heap, the historical data and
    the feature matrix may differ. *)
Definition same_inputs (w1 w2 : World) : Prop :=
  config (this w1) = config (this w2) ∧
  lotteryConfigurations (this w1) = lotteryConfigurations (this w2) ∧
  randomStream w1 = randomStream w2 ∧ randomCalls w1 = randomCalls w2 ∧
  clockStream w1 = clockStream w2 ∧ clockCalls w1 = clockCalls w2.

(** Two completions agree: the same outcome, and worlds that still hold the
    same inputs. *)
Definition agree {A} (c1 c2 : Completion (A * World)) : Prop :=
  match c1, c2 with
  | Normal (a1, w1), Normal (a2, w2) => a1 = a2 ∧ same_inputs w1 w2
  | Throw e1, Throw e2 => e1 = e2
  | Pending, Pending => True
  | _, _ => False
  end.

(** The outcome of a computation is a function of its inputs alone. *)
Definition input_determined {A} (m : M A) : Prop :=
  ∀ w1 w2, same_inputs w1 w2 → agree (m w1) (m w2).

(** The weight line 343 computes from a base weight and a draw. *)
Definition perturbed (value r : Q) : Q :=
  Qmin (95 # 100) (Qmax (5 # 100) (value + (r * (1 # 10) * 2 - (1 # 10))))%Q.

(** The feature importance as a function of the draws it is computed from. *)
Definition featureImportanceOf (draw : nat → Q) : list (string * Q) :=
  imap (λ i kv, (kv.1, perturbed kv.2 (draw i))) baseImportance.

(** The draws [generatePrediction] computes the feature importance from:
    when the call returns in world [w'], the five draws before the last
    four. *)
Definition metricDraws (w' : World) (i : nat) : Q :=
  randomStream w' (randomCalls w' - 9 + i)%nat.

(** [Math.random()] answers a number of [[0, 1)]. *)
Definition unit_stream (w : World) : Prop :=
  ∀ i, (0 <= randomStream w i)%Q ∧ (randomStream w i < 1)%Q.

(** The candidate the loops of [generateUniqueRandomNumbers],
    [generateNumbers] and [generateQuantumNumbers] compute from one draw. *)
Definition uniformCandidate (min max : Z) (w : World) : Z :=
  Qfloor (randomStream w (randomCalls w) * inject_Z (max - min + 1)) + min.

(** The distinct candidates of the first [j] iterations of these loops. *)
Definition keptUniform (min max : Z) (w : World) (j : nat) : list Z :=
  accepted (λ _, true) (uniformCandidate min max) 1 w j.

(** What the specification asks of a sample of [count] numbers of
    [[min, max]]. *)
Definition valid_sample (count min max : Z) (sample : list Z) : Prop :=
  Z.of_nat (length sample) = count ∧
  NoDup sample ∧
  Forall (λ x, min ≤ x ≤ max) sample ∧
  Sorted Z.le sample.

Section SamplerVocabulary.

Context {math : MathLibrary}.

(** What the map [used] records: exactly the numbers pushed on [result]. *)
Definition used_tracks_result (vars : SamplerVars) : Prop :=
  ∀ x, truthy_flag (used vars !! x) = bool_decide (x ∈ result vars).

(** The number one iteration of the loop of [generateQuantumRandomNumbers]
    computes from its three draws (lines 417-432). *)
Definition quantumNumber (lotteryConfig : option LotteryConfiguration)
    (quantumCircuitDepth min max : Z) (r1 r2 r3 : Q) : Z :=
  let quantumFactor :=
    (Math_sin (r1 * r2 * Math_PI) * Math_cos (r3 * Math_PI) + (1 # 2))%Q in
  let quantumFactor :=
    match lotteryConfig with
    | Some _ =>
        Nat.iter (Z.to_nat (Z.min 3 quantumCircuitDepth))
          (λ quantumFactor,
             ((quantumFactor + Math_sin (quantumFactor * Math_PI)) / 2)%Q)
          quantumFactor
    | None => quantumFactor
    end in
  Qfloor (inject_Z min + quantumFactor * inject_Z (max - min + 1))%Q.

(** The configuration and circuit depth the sampler reads from the engine. *)
Definition samplerConfig (lotteryType : option string) (w : World) :
    option LotteryConfiguration :=
  match lotteryType with
  | Some t => if truthy_string t then lotteryConfigurations (this w) !! t else None
  | None => None
  end.

Definition samplerDepth (w : World) : Z :=
  quantumCircuitLayers (kernelParams (config (this w)))
  * entanglementDepth (kernelParams (config (this w))).

Definition quantumCandidate (lotteryConfig : option LotteryConfiguration)
    (quantumCircuitDepth min max : Z) (w : World) : Z :=
  quantumNumber lotteryConfig quantumCircuitDepth min max
    (randomStream w (randomCalls w))
    (randomStream w (S (randomCalls w)))
    (randomStream w (S (S (randomCalls w)))).

(** The distinct numbers of [[min, max]] among the candidates of the first
    [j] iterations of the sampler started in world [w]. *)
Definition kept (lotteryType : option string) (min max : Z) (w : World)
    (j : nat) : list Z :=
  accepted (in_range min max)
    (quantumCandidate (samplerConfig lotteryType w) (samplerDepth w) min max)
    3 w j.

(** The loop body of [generateQuantumRandomNumbers], once the configuration
    has been read. *)
Definition samplerBody (lotteryConfig : option LotteryConfiguration)
    (quantumCircuitDepth min max : Z) (vars : SamplerVars) : M SamplerVars :=
  r1 <- Math_random ;;
  r2 <- Math_random ;;
  r3 <- Math_random ;;
  let num := quantumNumber lotteryConfig quantumCircuitDepth min max r1 r2 r3 in
  if (min <=? num) && (num <=? max) && negb (truthy_flag (used vars !! num))
  then ret {| result := result vars ++ [num];
              used := <[num := true]> (used vars) |}
  else ret vars.

End SamplerVocabulary.

(** * Concrete inputs

    Polynomial approximations of the trigonometric functions, an entropy
    stream and the world a freshly constructed engine lives in; the
    examples below run the engine on them. *)

Definition taylorMath : MathLibrary := {|
  Math_sin x := Qred (x - x * x * x / 6 + x * x * x * x * x / 120)%Q;
  Math_cos x := Qred (1 - x * x / 2 + x * x * x * x / 24)%Q;
  Math_PI := 22 # 7
|}.

Definition demoStream (n : nat) : Q :=
  ((Z.of_nat n * Z.of_nat n * 37 + Z.of_nat n * 611 + 173) mod 1000) # 1000.

Definition blankWorld (stream : nat → Q) : World := {|
  this := {| config := defaultQuantumConfig; historicalData := ∅;
             featureMatrix := []; supportedLotteries := 1%positive;
             lotteryConfigurations := ∅ |};
  heap := ∅;
  randomStream := stream;
  randomCalls := 0;
  clockStream := λ n, inject_Z (Z.of_nat n);
  clockCalls := 0
|}.

(** The world after [new QuantumPredictionEngine()]. *)
Definition demoWorld : World :=
  match constructor no_config (blankWorld demoStream) with
  | Normal (_, w) => w
  | _ => blankWorld demoStream
  end.

(** A second entropy stream, whose draws from the 153rd on are those of
    [demoStream] from the 144th on, and the world of an engine that reads
    it. *)
Definition demoStream2 (n : nat) : Q :=
  if (n <? 153)%nat then demoStream n else demoStream (n - 9).

Definition demoWorld2 : World :=
  match constructor no_config (blankWorld demoStream2) with
  | Normal (_, w) => w
  | _ => blankWorld demoStream2
  end.

(** What the examples observe of a prediction: the primary numbers and how
    many draws the call had made when it returned. *)
Definition summary (c : Completion (QuantumPredictionResult * World)) :
    option (list Z * nat) :=
  match c with
  | Normal (res, w') => Some (numbers (primaryPrediction res), randomCalls w')
  | _ => None
  end.

(** A generator that always answers one half. *)
Definition stuckWorld : World := blankWorld (λ _, 1 # 2).

(** * Vocabulary of the further statements *)

(** The property names every object inherits from [Object.prototype].  A
    table written as an object literal answers a lookup of one of them
    with an inherited function, not with [undefined]; the tables of the
    engine are modelled by their own keys, so the further statements on
    calls that look up a caller's string are about the other strings. *)
Definition Object_prototype_keys : list string :=
  ["constructor"; "hasOwnProperty"; "isPrototypeOf"; "propertyIsEnumerable";
   "toLocaleString"; "toString"; "valueOf"; "__proto__";
   "__defineGetter__"; "__defineSetter__"; "__lookupGetter__";
   "__lookupSetter__"].

Definition plain_key (key : string) : Prop := key ∉ Object_prototype_keys.

(** The numbers and bonus numbers of a prediction set are what the lottery
    of type [lotteryType] asks for. *)
Definition valid_prediction_set (lotteryType : string) (set : PredictionSet) :
    Prop :=
  let lotteryConfig := getLotteryConfiguration lotteryType in
  valid_sample (numberCount lotteryConfig) 1 (numberRange lotteryConfig)
    (numbers set) ∧
  if specialNumbers lotteryConfig
  then valid_sample (default 0 (specialNumberCount lotteryConfig)) 1
         (default 0 (specialNumberRange lotteryConfig)) (bonus set)
  else bonus set = [].

(** The identifier [generatePrediction] gives its [k]-th prediction set,
    the primary one being the first. *)
Definition predictionId (lotteryType targetDate : string) (k : Z) : string :=
  "QF-" +:+ toUpperCase lotteryType +:+ "-" +:+ targetDate +:+ "-00"
    +:+ Number_toString k.

(** The texts [generateRationale] chooses from (lines 547-556). *)
Definition rationalePool (strategy : option string) (lotteryType : option string) :
    list string :=
  default
    [ "Advanced algorithmic analysis of historical patterns";
      "Statistical optimization with machine learning enhancement";
      "Probabilistic modeling with entropy maximization" ]
    (Object_get rationales (default "undefined" strategy))
  ++ match lotteryType with
     | Some t => if truthy_string t then default [] (Object_get lotteryRationales t)
                 else []
     | None => []
     end.

(** The names [getRandomStrategy] chooses from. *)
Definition strategies : list string :=
  [ "Non-Linear Dynamics"; "Temporal Pattern Mining"; "Multi-Modal Fusion";
    "Quantum Probability Field"; "Strategic Value Play"; "Hybrid Ensemble";
    "Chaos Theory Emergence"; "Historical Resonance" ].

(** A number [Math.random()] has answered or will answer in world [w]. *)
Definition drawn (w : World) (r : Q) : Prop := ∃ p, r = randomStream w p.

(** The two scores of a prediction set are computed from one draw each
    (lines 376-377). *)
Definition scored_set (w : World) (set : PredictionSet) : Prop :=
  ∃ r1 r2, drawn w r1 ∧ drawn w r2 ∧
    confidence set = (90 + r1 * 9)%Q ∧ expectedValue set = (7 + r2 * 2)%Q.

(** A computation does not read the clock. *)
Definition clock_untouched {A} (m : M A) : Prop :=
  ∀ w a w', m w = Normal (a, w') → clockCalls w' = clockCalls w.

(** What every prediction set of a prediction for [lotteryType] made in
    world [w] satisfies. *)
Definition generated_set (lotteryType : string) (w : World) (set : PredictionSet) :
    Prop :=
  valid_prediction_set lotteryType set ∧
  scored_set w set ∧
  name set = strategy set ∧
  (unit_stream w →
   ∃ text, rationale set = Some text ∧
           text ∈ rationalePool (strategy set) (Some lotteryType)).

(** A call has returned. *)
Definition returns {A} (c : Completion (A * World)) : bool :=
  match c with Normal _ => true | _ => false end.

(** [{ ...p, ...q }] for two partial configurations. *)
Definition spread_partial (p q : PartialConfig) : PartialConfig := {|
  p_kernelParams := from_option Some (p_kernelParams p) (p_kernelParams q);
  p_ensembleSize := from_option Some (p_ensembleSize p) (p_ensembleSize q);
  p_confidenceThreshold :=
    from_option Some (p_confidenceThreshold p) (p_confidenceThreshold q);
  p_historicalDataWeight :=
    from_option Some (p_historicalDataWeight p) (p_historicalDataWeight q);
  p_quantumNoiseModel :=
    from_option Some (p_quantumNoiseModel p) (p_quantumNoiseModel q);
  p_adaptiveLearningRate :=
    from_option Some (p_adaptiveLearningRate p) (p_adaptiveLearningRate q);
  p_featureEngineeringDepth :=
    from_option Some (p_featureEngineeringDepth p) (p_featureEngineeringDepth q)
|}.

(** The initial elements of [supportedLotteries] (lines 84-90). *)
Definition initialLotteries : list string :=
  ["emirates_mega7"; "emirates_easy6"; "us_powerball"; "euro_millions";
   "india_lotto"].

(** * The rest of the [QuantumNumberGenerator] component (part_000) *)

(** [lotteryFormats] (lines 96-102) *)
Definition lotteryFormats : list LotteryFormat := [
  {| format_id := "powerball"; format_name := "Powerball";
     mainNumbers := 5; mainRange := 69;
     bonusNumbers := Some 1; bonusRange := Some 26 |};
  {| format_id := "mega_millions"; format_name := "Mega Millions";
     mainNumbers := 5; mainRange := 70;
     bonusNumbers := Some 1; bonusRange := Some 25 |};
  {| format_id := "euromillions"; format_name := "EuroMillions";
     mainNumbers := 5; mainRange := 50;
     bonusNumbers := Some 2; bonusRange := Some 12 |};
  {| format_id := "uk_lotto"; format_name := "UK Lotto";
     mainNumbers := 6; mainRange := 59;
     bonusNumbers := None; bonusRange := None |};
  {| format_id := "emirates_mega7"; format_name := "Emirates Mega 7";
     mainNumbers := 7; mainRange := 49;
     bonusNumbers := None; bonusRange := None |}
].

(** [getCurrentFormat] (lines 104-106), the state variable [selectedFormat]
    being an argument.  [lotteryFormats.find(...)] is an object, truthy, or
    [undefined]; [None] is [undefined]. *)
Definition getCurrentFormat (selectedFormat : string) : option LotteryFormat :=
  match
    find (λ format, String.eqb (format_id format) selectedFormat) lotteryFormats
  with
  | Some format => Some format
  | None => lotteryFormats !! 0%nat
  end.

(** The callback [generateQuantumNumbers] hands to [setTimeout] (lines
    112-144): the format is looked up when the timer fires, and reading a
    field of [undefined] throws. *)
Definition timerCallback (fuel : nat) (selectedFormat : string) :
    M (list Z * option (list Z)) :=
  match getCurrentFormat selectedFormat with
  | Some format => generateQuantumNumbers fuel format
  | None => λ _, Throw "TypeError"
  end.

(** * Vocabulary of the statements on the component *)

(** The numbers handed to [onNumbersGenerated] fit a format: valid main
    numbers, and bonus numbers exactly when the format has some. *)
Definition fits_format (format : LotteryFormat) (main : list Z)
    (bonus : option (list Z)) : Prop :=
  valid_sample (mainNumbers format) 1 (mainRange format) main ∧
  match bonusNumbers format, bonusRange format with
  | Some count, Some range =>
      ∃ numbers, bonus = Some numbers ∧ valid_sample count 1 range numbers
  | _, _ => bonus = None
  end.

(** * The mock responses of [ApiService] (apiService.ts, 132-315)

    [new Date().toISOString()] is the argument [now] of each of the three
    functions; [None] is an absent property.  The public methods return
    these responses at their first statement, [mockMode] being [true] and
    never assigned; their [fetch] branches are not embedded. *)

(** [array.sort(compare)] is stable: an element stays ahead of the later
    elements it does not have to follow.  [before x y] tells that
    [compare(x, y) <= 0]. *)
Fixpoint Array_sort_insert {A} (before : A → A → bool) (x : A) (l : list A) :
    list A :=
  match l with
  | [] => [x]
  | y :: l' =>
      if before x y then x :: y :: l' else y :: Array_sort_insert before x l'
  end.

Definition Array_sort {A} (before : A → A → bool) (l : list A) : list A :=
  foldr (Array_sort_insert before) [] l.

(** [Array.from({ length: n }, f)] where [f] has effects. *)
Definition Array_from_length {A} (n : Z) (f : Z → M A) : M (list A) :=
  mapM f (seqZ 0 n).

Module ApiService.

Record QuantumKernelParams := {
  entanglementDepth : Z;
  shotCount : Z;
  noiseModel : option string;
  optimizationLevel : Z;
  featureMap : string
}.

Record RiskProfile := {
  overallRisk : option string;
  popularityFactor : Q;
  entropyScore : Q
}.

Record PredictionResult := {
  lotteryType : string;
  numbers : list Z;
  alternativeNumbers : list Z;
  generatedAt : string;
  modelVersion : string;
  benchmarkScore : Q;
  riskProfile : RiskProfile;
  rationale : option string;
  kernelParams : QuantumKernelParams
}.

Record ApiResponse (T : Type) := {
  success : bool;
  data : T;
  error : option string
}.
Arguments success {T} _.
Arguments data {T} _.
Arguments error {T} _.

(** ** [mockPredictionResponse] (lines 132-199) *)

Definition riskLevels : list string := ["low"; "medium"; "high"; "extreme"].

Definition rationales : list string := [
  "Based on quantum entropy analysis, these numbers show higher probability patterns in the last 50 draws. The quantum kernel detected subtle correlations in the frequency distribution.";
  "The prediction leverages historical draw patterns and quantum-inspired feature mapping. The selected numbers have balanced entropy characteristics.";
  "Using reinforcement learning with quantum feature extraction, these numbers represent an optimal balance between historical frequency and entropy maximization.";
  "The quantum algorithm identified these numbers based on their statistical properties and pattern analysis from the last 100 draws."
].

Definition mockPredictionResponse (fuel : nat) (now : string)
    (lotteryType : string) (params : option QuantumKernelParams) :
    M (ApiResponse PredictionResult) :=
  let '(mainCount, mainMax) :=
    if String.eqb lotteryType "emirates_mega7" then (7, 35)
    else if String.eqb lotteryType "emirates_easy6" then (6, 42)
    else if String.eqb lotteryType "powerball" then (5, 69)
    else (6, 49) in
  numbers <- generateNumbers fuel mainCount mainMax ;;
  alternativeNumbers <- generateNumbers fuel mainCount mainMax ;;
  r <- Math_random ;;
  let riskIndex := Qfloor (r * inject_Z (Z.of_nat (length riskLevels))) in
  r <- Math_random ;;
  let benchmarkScore := ((68 # 100) + r * (2 # 10))%Q in
  r <- Math_random ;;
  let popularityFactor := ((3 # 10) + r * (4 # 10))%Q in
  r <- Math_random ;;
  let entropyScore := ((35 # 10) + r * 2)%Q in
  r <- Math_random ;;
  let rationale :=
    Array_at rationales (Qfloor (r * inject_Z (Z.of_nat (length rationales)))) in
  ret {|
    success := true;
    data := {|
      lotteryType := lotteryType;
      numbers := numbers;
      alternativeNumbers := alternativeNumbers;
      generatedAt := now;
      modelVersion :=
        match params with Some _ => "custom-v1.0" | None => "quantum-v2.1" end;
      benchmarkScore := benchmarkScore;
      riskProfile := {|
        overallRisk := Array_at riskLevels riskIndex;
        popularityFactor := popularityFactor;
        entropyScore := entropyScore
      |};
      rationale := rationale;
      kernelParams :=
        default {| entanglementDepth := 3; shotCount := 1024;
                   noiseModel := None; optimizationLevel := 2;
                   featureMap := "ZZFeatureMap" |} params
    |};
    error := None
  |}.

(** ** [mockBenchmarkResponse] (lines 204-259) *)

Record ModelScore := {
  model_name : string;
  accuracy : Q;
  hitRate : Q;
  processingTime : Q
}.

Record Dataset := {
  dataset_label : string;
  dataset_data : list Q
}.

Record TimeSeriesData := {
  labels : list string;
  datasets : list Dataset
}.

Record BenchmarkData := {
  benchmark_lotteryType : string;
  benchmark_timestamp : string;
  models : list ModelScore;
  timeSeriesData : TimeSeriesData
}.

(** One entry of [models]: three draws, in the order of the properties. *)
Definition modelScore (name : string) (accuracy0 accuracy1 hitRate0 hitRate1
    processingTime0 processingTime1 : Q) : M ModelScore :=
  r <- Math_random ;;
  let accuracy := (accuracy0 + r * accuracy1)%Q in
  r <- Math_random ;;
  let hitRate := (hitRate0 + r * hitRate1)%Q in
  r <- Math_random ;;
  let processingTime := (processingTime0 + r * processingTime1)%Q in
  ret {| model_name := name; accuracy := accuracy; hitRate := hitRate;
         processingTime := processingTime |}.

(** One entry of [datasets]: ten draws. *)
Definition dataset (label : string) (base spread : Q) : M Dataset :=
  data <- Array_from_length 10 (λ _, r <- Math_random ;; ret (base + r * spread)%Q) ;;
  ret {| dataset_label := label; dataset_data := data |}.

Definition mockBenchmarkResponse (now : string) (lotteryType : string) :
    M (ApiResponse BenchmarkData) :=
  m1 <- modelScore "Quantum-Inspired" (21 # 100) (5 # 100) (18 # 100) (4 # 100) 120 30 ;;
  m2 <- modelScore "Classical LSTM" (17 # 100) (4 # 100) (15 # 100) (3 # 100) 85 20 ;;
  m3 <- modelScore "Random Forest" (16 # 100) (3 # 100) (14 # 100) (3 # 100) 65 15 ;;
  m4 <- modelScore "Random Selection" (14 # 100) (2 # 100) (14 # 100) (2 # 100) 5 2 ;;
  labels <- Array_from_length 10 (λ i, ret ("Week " +:+ Number_toString (i + 1))) ;;
  d1 <- dataset "Quantum-Inspired" (15 # 100) (10 # 100) ;;
  d2 <- dataset "Classical LSTM" (12 # 100) (8 # 100) ;;
  d3 <- dataset "Random Forest" (11 # 100) (7 # 100) ;;
  d4 <- dataset "Random Selection" (10 # 100) (5 # 100) ;;
  ret {|
    success := true;
    data := {|
      benchmark_lotteryType := lotteryType;
      benchmark_timestamp := now;
      models := [m1; m2; m3; m4];
      timeSeriesData := {| labels := labels; datasets := [d1; d2; d3; d4] |}
    |};
    error := None
  |}.

(** ** [mockExplainabilityResponse] (lines 264-315) *)

Record FeatureImportance := {
  feature : string;
  importance : Q;
  confidence : Q
}.

Record ShapValue := {
  shap_feature : string;
  shapValue : Q
}.

Record ShapValues := {
  baseValue : Q;
  values : list ShapValue
}.

Record InteractionEffect := {
  feature1 : string;
  feature2 : string;
  strength : Q
}.

Record ExplainabilityData := {
  explainability_lotteryType : string;
  explainability_timestamp : string;
  featureImportance : list FeatureImportance;
  shapValues : ShapValues;
  interactionEffects : list InteractionEffect
}.

Definition features : list string := [
  "Historical Frequency"; "Last Draw Gap"; "Positional Patterns";
  "Entropy Score"; "Co-occurrence Rate"; "Seasonal Patterns";
  "Number Balance"; "Quantum Interference"; "Statistical Moments";
  "Digit Distribution"
].

(** [(a, b) => b.importance - a.importance] is at most zero. *)
Definition byImportance (a b : FeatureImportance) : bool :=
  Qle_bool (importance b) (importance a).

Definition mockExplainabilityResponse (now : string) (lotteryType : string) :
    M (ApiResponse ExplainabilityData) :=
  importances <- mapM (λ feature,
      r <- Math_random ;;
      let importance := ((2 # 10) + r * (8 # 10))%Q in
      r <- Math_random ;;
      let confidence := ((5 # 10) + r * (5 # 10))%Q in
      ret {| feature := feature; importance := importance;
             confidence := confidence |}) features ;;
  let featureImportance := Array_sort byImportance importances in
  values <- mapM (λ feature,
      r <- Math_random ;;
      ret {| shap_feature := feature;
             shapValue := (-(5 # 100) + r * (1 # 10))%Q |}) features ;;
  r <- Math_random ;;
  let strength1 := ((6 # 10) + r * (4 # 10))%Q in
  r <- Math_random ;;
  let strength2 := ((5 # 10) + r * (4 # 10))%Q in
  r <- Math_random ;;
  let strength3 := ((4 # 10) + r * (4 # 10))%Q in
  ret {|
    success := true;
    data := {|
      explainability_lotteryType := lotteryType;
      explainability_timestamp := now;
      featureImportance := featureImportance;
      shapValues := {| baseValue := 14 # 100; values := values |};
      interactionEffects := [
        {| feature1 := "Historical Frequency"; feature2 := "Entropy Score";
           strength := strength1 |};
        {| feature1 := "Quantum Interference"; feature2 := "Co-occurrence Rate";
           strength := strength2 |};
        {| feature1 := "Last Draw Gap"; feature2 := "Positional Patterns";
           strength := strength3 |}
      ]
    |};
    error := None
  |}.

End ApiService.

(** * Feature engineering (quantumPredictionEngine.ts, 145-180) *)

(** The numbers [engineerFeatures] computes with: a rational, or one of the
    three values that arithmetic on an empty draw yields.  Signed zeros are
    not told apart. *)
Inductive Number :=
  | Finite (x : Q)
  | NaN
  | Infinity
  | NegInfinity.

(** [a + b] *)
Definition Number_add (a b : Number) : Number :=
  match a, b with
  | Finite x, Finite y => Finite (x + y)
  | NaN, _ | _, NaN => NaN
  | Infinity, NegInfinity | NegInfinity, Infinity => NaN
  | Infinity, _ | _, Infinity => Infinity
  | NegInfinity, _ | _, NegInfinity => NegInfinity
  end.

(** [a - b] *)
Definition Number_sub (a b : Number) : Number :=
  match a, b with
  | Finite x, Finite y => Finite (x - y)
  | NaN, _ | _, NaN => NaN
  | Infinity, Infinity | NegInfinity, NegInfinity => NaN
  | Infinity, _ | _, NegInfinity => Infinity
  | NegInfinity, _ | _, Infinity => NegInfinity
  end.

(** [a / b] where [b] is the length of an array: a zero divisor is [+0]. *)
Definition Number_div (a : Number) (length : Z) : Number :=
  match a with
  | Finite x =>
      if length =? 0 then
        match x ?= 0 with
        | Eq => NaN
        | Gt => Infinity
        | Lt => NegInfinity
        end
      else Finite (x / inject_Z length)
  | NaN => NaN
  | Infinity => Infinity
  | NegInfinity => NegInfinity
  end%Q.

(** [Math.pow(a, 2)] *)
Definition Math_pow2 (a : Number) : Number :=
  match a with
  | Finite x => Finite (x * x)
  | NaN => NaN
  | Infinity | NegInfinity => Infinity
  end.

(** [Math.min(...numbers)] and [Math.max(...numbers)] *)
Definition Math_min (numbers : list Z) : Number :=
  match numbers with
  | [] => Infinity
  | x :: numbers' => Finite (inject_Z (foldl Z.min x numbers'))
  end.

Definition Math_max (numbers : list Z) : Number :=
  match numbers with
  | [] => NegInfinity
  | x :: numbers' => Finite (inject_Z (foldl Z.max x numbers'))
  end.

(** [array.slice(start, end)]: a negative index counts from the end, and
    both indices are clamped to the array. *)
Definition Array_slice {A} (start : Z) (end_ : option Z) (array : list A) :
    list A :=
  let len := Z.of_nat (length array) in
  let clamp (i : Z) := if i <? 0 then Z.max (len + i) 0 else Z.min i len in
  let k := clamp start in
  let final := clamp (default len end_) in
  take (Z.to_nat (final - k)) (drop (Z.to_nat k) array).

(** [numbers.reduce((sum, num) => sum + num, 0) / numbers.length] *)
Definition mean_of (numbers : list Z) : Number :=
  Number_div
    (foldl (λ sum num, Number_add sum (Finite (inject_Z num))) (Finite 0) numbers)
    (Z.of_nat (length numbers)).

(** The callback of [data.map] (lines 150-179).  A draw of the embedding
    always has its [numbers] and its [drawNumber], so that [draw.numbers ||
    []] and [draw.drawNumber || 0] are the fields themselves. *)
Definition draw_features (lotteryConfig : option LotteryConfiguration)
    (draw : HistoricalDraw) : list Number :=
  let numbers := draw_numbers draw in
  let count :=
    match lotteryConfig with
    | Some lotteryConfig =>
        if specialNumbers lotteryConfig then
          match specialNumberCount lotteryConfig with
          | Some count => if 0 <? count then Some count else None
          | None => None
          end
        else None
    | None => None
    end in
  let mainNumbers :=
    match count with
    | Some count => Array_slice 0 (Some (Z.of_nat (length numbers) - count)) numbers
    | None => numbers
    end in
  let specialNumbers :=
    match count with
    | Some count => Array_slice (Z.of_nat (length numbers) - count) None numbers
    | None => []
    end in
  let mean := mean_of mainNumbers in
  let variance :=
    Number_div
      (foldl (λ sum num,
                Number_add sum (Math_pow2 (Number_sub (Finite (inject_Z num)) mean)))
             (Finite 0) mainNumbers)
      (Z.of_nat (length mainNumbers)) in
  let min := Math_min mainNumbers in
  let max := Math_max mainNumbers in
  let range := Number_sub max min in
  let baseFeatures :=
    [mean; variance; min; max; range; Finite (inject_Z (drawNumber draw))] in
  if (0 <? length specialNumbers)%nat
  then baseFeatures ++ [mean_of specialNumbers]
  else baseFeatures.

Definition engineerFeatures (data : list HistoricalDraw)
    (lotteryType : option string) : M (list (list Number)) :=
  lotteryConfig <- gets (λ w,
    match lotteryType with
    | Some lotteryType =>
        if truthy_string lotteryType
        then lotteryConfigurations (this w) !! lotteryType
        else None
    | None => None
    end) ;;
  ret (draw_features lotteryConfig <$> data).

(** * Vocabulary of the statements on the features *)

(** The six features of a draw whose numbers are all main numbers. *)
Definition basic_features (draw : HistoricalDraw) (row : list Number) : Prop :=
  match draw_numbers draw with
  | [] =>
      row = [NaN; NaN; Infinity; NegInfinity; NegInfinity;
             Finite (inject_Z (drawNumber draw))]
  | _ =>
      ∃ (mean variance : Q) (lo hi : Z),
        row = [Finite mean; Finite variance; Finite (inject_Z lo);
               Finite (inject_Z hi); Finite (inject_Z hi - inject_Z lo);
               Finite (inject_Z (drawNumber draw))] ∧
        lo ∈ draw_numbers draw ∧ hi ∈ draw_numbers draw ∧
        Forall (λ x, lo ≤ x ≤ hi) (draw_numbers draw) ∧
        (inject_Z lo <= mean)%Q ∧ (mean <= inject_Z hi)%Q ∧ (0 <= variance)%Q
  end.

(** Where [engineerFeatures] splits [length] numbers into main and
    special numbers when the lottery has [count] special numbers: the two
    slices count a negative index from the end. *)
Definition splitIndex (length count : Z) : nat :=
  Z.to_nat (if count <=? length then length - count
            else Z.max (2 * length - count) 0).

(** * The full lottery prediction (quantumPredictionEngine.ts, 586-649) *)

(** [text.padStart(width, "0")] *)
Definition padZeros (width : nat) (text : string) : string :=
  String.concat "" (replicate (width - String.length text) "0") +:+ text.

(** [x.toFixed(digits)] for a number below [10^21] in magnitude: the
    nearest multiple of [10^-digits], the larger one of two that are
    equally near, printed with [digits] decimals; the sign of a negative
    number is put in front of the digits of its magnitude.  The nearest
    multiple is that of the exact rational: where the code's double lies
    just beside a decimal tie, the last digit printed may differ by one. *)
Definition toFixed (digits : nat) (x : Q) : string :=
  let scale := 10 ^ Z.of_nat digits in
  let magnitude := if Qle_bool 0 x then x else (- x)%Q in
  let n := Qfloor (magnitude * inject_Z scale + (1 # 2)) in
  let text :=
    Number_toString (n / scale) +:+
    match digits with
    | O => ""
    | _ => "." +:+ padZeros digits (Number_toString (n mod scale))
    end in
  if Qle_bool 0 x then text else "-" +:+ text.

(** ** [getLotteryName] (lines 605-615) *)

Definition names : list (string * string) := [
  ("emirates_mega7", "Emirates Draw MEGA7");
  ("emirates_easy6", "Emirates Draw EASY6");
  ("emirates_fast5", "Emirates Draw FAST5");
  ("powerball_usa", "Powerball USA");
  ("euromillions", "EuroMillions");
  ("omillionaire", "O'Millionaire")
].

Definition getLotteryName (lotteryType : string) : string :=
  match Object_get names lotteryType with
  | Some name => if truthy_string name then name else lotteryType
  | None => lotteryType
  end.

(** ** [generateConsortiumAnalysis] (lines 623-637) *)

Record ConsortiumAnalysis := {
  logicianView : string;
  strategistView : string;
  chaosTheoristView : string;
  archivistView : string;
  nexusVerdict : string
}.

Definition generateConsortiumAnalysis (lotteryType : string)
    (result : QuantumPredictionResult) : M ConsortiumAnalysis :=
  let logicianView :=
    "Statistical analysis shows strong frequency convergence with p-value < 0.001 and quantum coherence of "
    +:+ toFixed 1 (entanglementScore (quantumMetrics result) * 100) +:+ "%" in
  r <- Math_random ;;
  let strategistView :=
    "Selection pattern has " +:+ Number_toString (Qfloor (20 + r * 10))
    +:+ "% lower public selection rate, optimizing prize retention with EV of "
    +:+ toFixed 1 (expectedValue (primaryPrediction result)) in
  r <- Math_random ;;
  let chaosTheoristView :=
    "Quantum-enhanced LSTM model detects emerging attractor pattern with Lyapunov exponent of "
    +:+ toFixed 2 ((5 # 10) + r * (3 # 10)) in
  r1 <- Math_random ;;
  r2 <- Math_random ;;
  let archivistView :=
    "Historical analysis shows " +:+ toFixed 1 (60 + r1 * 30)
    +:+ "% correlation with successful patterns from previous "
    +:+ Number_toString (Qfloor (3 + r2 * 5)) +:+ " years" in
  let nexusVerdict :=
    "Quantum advantage achieved: "
    +:+ toFixed 2 (quantumAdvantage (quantumMetrics result))
    +:+ "x improvement over classical models with "
    +:+ toFixed 1 (confidence (primaryPrediction result)) +:+ "% confidence" in
  ret {| logicianView := logicianView; strategistView := strategistView;
         chaosTheoristView := chaosTheoristView; archivistView := archivistView;
         nexusVerdict := nexusVerdict |}.

(** ** [determineRiskProfile] (lines 644-649) *)

Definition determineRiskProfile (result : QuantumPredictionResult) : string :=
  let confidence := confidence (primaryPrediction result) in
  if Qlt_le_dec 98 confidence then "conservative"
  else if Qlt_le_dec 95 confidence then "balanced"
  else "aggressive".

(** ** [generateLotteryPrediction] (lines 586-598) *)

Record LotteryPrediction := {
  lottery : string;
  targetDate : string;
  prediction_primaryPrediction : PredictionSet;
  prediction_alternativeSets : list PredictionSet;
  consortiumAnalysis : ConsortiumAnalysis;
  riskProfile : string;
  estimatedPopularity : Q
}.

Section LotteryPredictions.

Context {math : MathLibrary}.

Definition generateLotteryPrediction (fuel : nat) (lotteryType targetDate : string) :
    M LotteryPrediction :=
  result <- generatePrediction fuel lotteryType targetDate ;;
  let lottery := getLotteryName lotteryType in
  consortiumAnalysis <- generateConsortiumAnalysis lotteryType result ;;
  let riskProfile := determineRiskProfile result in
  r <- Math_random ;;
  ret {| lottery := lottery;
         targetDate := targetDate;
         prediction_primaryPrediction := primaryPrediction result;
         prediction_alternativeSets := alternativeSets result;
         consortiumAnalysis := consortiumAnalysis;
         riskProfile := riskProfile;
         estimatedPopularity := (10 + r * 15)%Q |}.

End LotteryPredictions.

(** * Vocabulary of the statements on the full prediction *)

(** The risk profile that goes with a confidence. *)
Definition riskOfConfidence (confidence : Q) (profile : string) : Prop :=
  (profile = "conservative" ∧ (98 < confidence)%Q) ∨
  (profile = "balanced" ∧ (95 < confidence)%Q ∧ (confidence <= 98)%Q) ∨
  (profile = "aggressive" ∧ (confidence <= 95)%Q).

(** How a confidence follows the draw [r] it is computed from: below and
    above the two thresholds of the risk profile, with a margin of a
    thousandth above [5/9] and [8/9]. *)
Definition confidenceFollows (r confidence : Q) : Prop :=
  ((r <= 5 # 9)%Q → (confidence <= 95)%Q) ∧
  ((556 # 1000 <= r)%Q → (95 < confidence)%Q) ∧
  ((r <= 8 # 9)%Q → (confidence <= 98)%Q) ∧
  ((889 # 1000 <= r)%Q → (98 < confidence)%Q).

(** * [getLotteryParameters] (quantumPredictionEngine.ts, 452-469) *)

Definition ascii_toLowerCase (c : Ascii.ascii) : Ascii.ascii :=
  let n := Ascii.nat_of_ascii c in
  if ((65 <=? n) && (n <=? 90))%nat then Ascii.ascii_of_nat (n + 32) else c.

Fixpoint toLowerCase (s : string) : string :=
  match s with
  | EmptyString => EmptyString
  | String c s' => String (ascii_toLowerCase c) (toLowerCase s')
  end.

Record LotteryParameters := {
  minNumber : Z;
  maxNumber : Z;
  count : Z
}.

Definition getLotteryParameters (lotteryType : string) : LotteryParameters :=
  let lowered := toLowerCase lotteryType in
  if String.eqb lowered "emirates_mega7" then
    {| minNumber := 1; maxNumber := 50; count := 7 |}
  else if String.eqb lowered "emirates_easy6" then
    {| minNumber := 1; maxNumber := 42; count := 6 |}
  else if String.eqb lowered "emirates_fast5" then
    {| minNumber := 1; maxNumber := 35; count := 5 |}
  else if String.eqb lowered "powerball_usa" then
    {| minNumber := 1; maxNumber := 69; count := 5 |}
  else if String.eqb lowered "euromillions" then
    {| minNumber := 1; maxNumber := 50; count := 5 |}
  else if String.eqb lowered "omillionaire" then
    {| minNumber := 1; maxNumber := 45; count := 6 |}
  else
    {| minNumber := 1; maxNumber := 49; count := 6 |}.

(** * The second version of the class (quantumPredictionEngine.ts, 651-1113)

    After the class embedded above, the file holds a second version of it
    whose prediction sets have no bonus numbers and whose sampler and
    rationales take no lottery type.  Its sampler, its rationales and its
    prediction sets are embedded here; the table [rationales] is the same
    in both versions. *)

Module V2.

Record PredictionSet := {
  id : string;
  name : option string;
  numbers : list Z;
  confidence : Q;
  strategy : option string;
  rationale : option string;
  expectedValue : Q
}.

Section Engine.

Context {math : MathLibrary}.

(** ** [generateQuantumRandomNumbers] (lines 904-933) *)

Definition generateQuantumRandomNumbers (fuel : nat) (count min max : Z) :
    M (list Z) :=
  let possibleNumbers := max - min + 1 in
  let actualCount := Z.min count possibleNumbers in
  vars <- while fuel
    (λ vars, Z.of_nat (length (result vars)) <? actualCount)
    (λ vars,
       r1 <- Math_random ;;
       r2 <- Math_random ;;
       r3 <- Math_random ;;
       let quantumFactor :=
         (Math_sin (r1 * r2 * Math_PI) * Math_cos (r3 * Math_PI) + (1 # 2))%Q in
       let num :=
         Qfloor (inject_Z min + quantumFactor * inject_Z (max - min + 1))%Q in
       if (min <=? num) && (num <=? max) && negb (truthy_flag (used vars !! num))
       then ret {| result := result vars ++ [num];
                   used := <[num := true]> (used vars) |}
       else ret vars)
    {| result := []; used := ∅ |} ;;
  ret (result vars).

(** ** [generateRationale] (lines 986-1024) *)

Definition generateRationale (strategy : option string) (numbers : list Z) :
    M (option string) :=
  let strategyRationales :=
    default
      [ "Advanced algorithmic analysis of historical patterns";
        "Statistical optimization with machine learning enhancement";
        "Probabilistic modeling with entropy maximization" ]
      (Object_get rationales (default "undefined" strategy)) in
  r <- Math_random ;;
  ret (Array_at strategyRationales
         (Qfloor (r * inject_Z (Z.of_nat (length strategyRationales))))).

(** ** [generatePredictionSet] (lines 851-895) *)

Definition generatePredictionSet (fuel : nat) (id : string)
    (strategy : option string) (lotteryType : string) : M PredictionSet :=
  drawn <-
    (if String.eqb lotteryType "emirates_mega7" then
       numbers <- generateQuantumRandomNumbers fuel 7 1 35 ;;
       ret (numbers, [])
     else if String.eqb lotteryType "emirates_fast5" then
       numbers <- generateQuantumRandomNumbers fuel 5 1 36 ;;
       ret (numbers, [])
     else if String.eqb lotteryType "emirates_easy6" then
       numbers <- generateQuantumRandomNumbers fuel 6 1 42 ;;
       ret (numbers, [])
     else if String.eqb lotteryType "euromillions" then
       numbers <- generateQuantumRandomNumbers fuel 5 1 50 ;;
       bonus <- generateQuantumRandomNumbers fuel 2 1 12 ;;
       ret (numbers, bonus)
     else if String.eqb lotteryType "powerball" then
       numbers <- generateQuantumRandomNumbers fuel 5 1 69 ;;
       bonus <- generateQuantumRandomNumbers fuel 1 1 26 ;;
       ret (numbers, bonus)
     else
       numbers <- generateQuantumRandomNumbers fuel 6 1 49 ;;
       ret (numbers, [])) ;;
  let numbers : list Z := drawn.1 in
  let bonus : list Z := drawn.2 in
  rationale <- generateRationale strategy numbers ;;
  r <- Math_random ;;
  let confidence := (90 + r * 9)%Q in
  r <- Math_random ;;
  let expectedValue := (7 + r * 2)%Q in
  ret {| id := id;
         name := strategy;
         numbers := sort_ascending numbers;
         confidence := confidence;
         strategy := strategy;
         rationale := rationale;
         expectedValue := expectedValue |}.

End Engine.

End V2.

(** * Properties *)

(** ** Running computations *)

Lemma bind_Normal {A B} (m : M A) (k : A → M B) w b w' :
  bind m k w = Normal (b, w') ↔
  ∃ a w1, m w = Normal (a, w1) ∧ k a w1 = Normal (b, w').
Proof.
  unfold bind. split.
  - destruct (m w) as [[a w1]| |]; [eauto|done..].
  - intros (a & w1 & -> & Hk). done.
Qed.

(** ** The entropy a loop consumes *)

Lemma advance_0 w : advance 0 w = w.
Proof. destruct w. unfold advance. simpl. f_equal. lia. Qed.

Lemma advance_advance i j w : advance j (advance i w) = advance (i + j) w.
Proof. unfold advance. simpl. f_equal. lia. Qed.

Lemma candidates_S cand k w j :
  candidates cand k w (S j) = cand w :: candidates cand k (advance k w) j.
Proof.
  unfold candidates. simpl. rewrite Nat.mul_0_r, advance_0. f_equal.
  rewrite <- fmap_S_seq, <- list_fmap_compose. apply list_fmap_ext.
  intros _ i _. simpl. rewrite advance_advance. do 2 f_equal. lia.
Qed.

Lemma candidates_prefix cand k w j j' :
  (j ≤ j')%nat → ∃ rest, candidates cand k w j' = candidates cand k w j ++ rest.
Proof.
  intros Hle. unfold candidates.
  replace j' with (j + (j' - j))%nat by lia.
  rewrite seq_app, fmap_app. eauto.
Qed.

Lemma accept_length P acc c :
  (length acc ≤ length (accept P acc c) ≤ S (length acc))%nat.
Proof.
  unfold accept. destruct (_ && _); rewrite ?length_app; simpl; lia.
Qed.

Lemma foldl_accept_length P cs : ∀ acc,
  (length acc ≤ length (foldl (accept P) acc cs))%nat.
Proof.
  induction cs as [|c cs IH]; intros acc; simpl; [lia|].
  etrans; [|apply IH]. apply accept_length.
Qed.

Lemma accept_NoDup P acc c : NoDup acc → NoDup (accept P acc c).
Proof.
  intros Hnd. unfold accept.
  destruct (P c); simpl; [|done]. case_bool_decide; simpl; [done|].
  apply NoDup_app. split_and!; [done| |apply NoDup_singleton].
  intros x Hx ->%list_elem_of_singleton. done.
Qed.

Lemma accept_Forall (Q : Z → Prop) P acc c :
  (P c = true → Q c) → Forall Q acc → Forall Q (accept P acc c).
Proof.
  intros HQ Hacc. unfold accept.
  destruct (P c); simpl; [|done]. case_bool_decide; simpl; [done|].
  apply Forall_app. auto.
Qed.

Lemma foldl_accept_NoDup P cs : ∀ acc,
  NoDup acc → NoDup (foldl (accept P) acc cs).
Proof.
  induction cs as [|c cs IH]; intros acc Hnd; simpl; [done|].
  apply IH, accept_NoDup, Hnd.
Qed.

Lemma foldl_accept_Forall (Q : Z → Prop) P cs : ∀ acc,
  Forall (λ c, P c = true → Q c) cs → Forall Q acc →
  Forall Q (foldl (accept P) acc cs).
Proof.
  induction cs as [|c cs IH]; intros acc Hcs Hacc; simpl; [done|].
  inversion_clear Hcs. apply IH; [done|]. by apply accept_Forall.
Qed.

Lemma accepted_mono P cand k w j j' :
  (j ≤ j')%nat →
  (length (accepted P cand k w j) ≤ length (accepted P cand k w j'))%nat.
Proof.
  intros Hle. unfold accepted.
  destruct (candidates_prefix cand k w j j' Hle) as [rest ->].
  rewrite foldl_app. apply foldl_accept_length.
Qed.

Lemma foldl_accept_absorbed P c cs : ∀ acc,
  c ∈ acc → Forall (λ x, x = c) cs → foldl (accept P) acc cs = acc.
Proof.
  induction cs as [|x cs IH]; intros acc Hin Hcs; simpl; [done|].
  apply Forall_cons in Hcs as [-> Hcs']. unfold accept at 2.
  rewrite (bool_decide_eq_true_2 _ Hin), andb_false_r. by apply IH.
Qed.

(** An entropy source that keeps producing the same candidate never gets
    the loop past one number. *)
Lemma accepted_constant P cand k w c :
  (∀ i, cand (advance i w) = c) →
  ∀ j, (length (accepted P cand k w j) ≤ 1)%nat.
Proof.
  intros Hconst j. unfold accepted.
  assert (Hall : Forall (λ x, x = c) (candidates cand k w j)).
  { unfold candidates. apply Forall_fmap, Forall_forall. intros i _. apply Hconst. }
  induction (candidates cand k w j) as [|x cs IH]; simpl; [lia|].
  apply Forall_cons in Hall as [-> Hcs]. unfold accept at 2.
  destruct (P c); simpl; [|by apply IH].
  rewrite (foldl_accept_absorbed P c); [simpl; lia| |done].
  apply list_elem_of_singleton. done.
Qed.

(** ** A rejection loop in general *)

Section RejectionLoop.

Context {S : Type}.
Variables (items : S → list Z) (Inv : S → Prop) (n : Z) (P : Z → bool).
Variables (cand : World → Z) (k : nat) (body : S → M S).

Hypothesis body_step : ∀ s w,
  Inv s →
  ∃ s', body s w = Normal (s', advance k w) ∧ Inv s' ∧
        items s' = accept P (items s) (cand w).

Let cond (s : S) : bool := Z.of_nat (length (items s)) <? n.

Lemma loop_returns j : ∀ fuel s w,
  Inv s → (j ≤ fuel)%nat →
  n ≤ Z.of_nat (length (foldl (accept P) (items s) (candidates cand k w j))) →
  ∃ s' w', while fuel cond body s w = Normal (s', w').
Proof.
  induction j as [|j IH]; intros fuel s w HI Hle Hlen.
  - simpl in Hlen. destruct fuel; simpl; unfold cond;
      (rewrite (proj2 (Z.ltb_ge _ _)) by lia); unfold ret; eauto.
  - destruct fuel as [|fuel]; [lia|]. simpl.
    destruct (cond s) eqn:Hc; [|unfold ret; eauto].
    destruct (body_step s w HI) as (s1 & Hb & HI1 & Hitems).
    unfold bind. rewrite Hb. apply IH; [done|lia|].
    rewrite candidates_S in Hlen. simpl in Hlen. by rewrite Hitems.
Qed.

Lemma loop_result : ∀ fuel s w s' w',
  Inv s → while fuel cond body s w = Normal (s', w') →
  ∃ j, (j ≤ fuel)%nat ∧ w' = advance (k * j) w ∧ Inv s' ∧
       items s' = foldl (accept P) (items s) (candidates cand k w j) ∧
       n ≤ Z.of_nat (length (items s')) ∧
       (Z.of_nat (length (items s)) ≤ Z.max 0 n →
        Z.of_nat (length (items s')) ≤ Z.max 0 n).
Proof.
  induction fuel as [|fuel IH]; intros s w s' w' HI; simpl;
    destruct (cond s) eqn:Hc; try done.
  - intros [= <- <-]. exists 0%nat. rewrite Nat.mul_0_r, advance_0.
    unfold cond in Hc. apply Z.ltb_ge in Hc. by split_and!.
  - destruct (body_step s w HI) as (s1 & Hb & HI1 & Hitems).
    unfold bind. rewrite Hb. intros Hw.
    destruct (IH _ _ _ _ HI1 Hw) as (j & Hj & -> & HI' & Hit & Hn & Hmax).
    exists (Datatypes.S j). split_and!; [lia| |done| |done|].
    + rewrite advance_advance. f_equal. lia.
    + rewrite candidates_S. simpl. by rewrite <- Hitems.
    + intros _. apply Hmax. rewrite Hitems.
      unfold cond in Hc. apply Z.ltb_lt in Hc.
      pose proof (accept_length P (items s) (cand w)). lia.
  - intros [= <- <-]. exists 0%nat. rewrite Nat.mul_0_r, advance_0.
    unfold cond in Hc. apply Z.ltb_ge in Hc. split_and!; auto with lia.
Qed.

Lemma loop_no_throw : ∀ fuel s w e,
  Inv s → while fuel cond body s w ≠ Throw e.
Proof.
  induction fuel as [|fuel IH]; intros s w e HI; simpl;
    destruct (cond s); try done.
  destruct (body_step s w HI) as (s1 & Hb & HI1 & _).
  unfold bind. rewrite Hb. by apply IH.
Qed.

End RejectionLoop.

(** ** The sampler of the engine *)

Section Sampler.

Context {math : MathLibrary}.

Lemma generateQuantumRandomNumbers_while fuel count min max lotteryType w :
  generateQuantumRandomNumbers fuel count min max lotteryType w =
  match
    while fuel
      (λ vars, Z.of_nat (length (result vars)) <? Z.min count (max - min + 1))
      (samplerBody (samplerConfig lotteryType w) (samplerDepth w) min max)
      {| result := []; used := ∅ |} w
  with
  | Normal (vars, w') => Normal (result vars, w')
  | Throw e => Throw e
  | Pending => Pending
  end.
Proof.
  unfold generateQuantumRandomNumbers, samplerConfig, samplerDepth.
  destruct lotteryType as [t|]; [destruct (truthy_string t)|]; reflexivity.
Qed.

Lemma samplerBody_step lotteryConfig depth min max vars w :
  used_tracks_result vars →
  ∃ vars',
    samplerBody lotteryConfig depth min max vars w = Normal (vars', advance 3 w) ∧
    used_tracks_result vars' ∧
    result vars' =
      accept (in_range min max) (result vars)
        (quantumCandidate lotteryConfig depth min max w).
Proof.
  intros Hused.
  unfold samplerBody, bind, Math_random. simpl.
  fold (quantumCandidate lotteryConfig depth min max w).
  set (num := quantumCandidate lotteryConfig depth min max w).
  replace (Build_World _ _ _ (S (S (S (randomCalls w)))) _ _) with (advance 3 w)
    by (unfold advance; f_equal; lia).
  unfold accept, in_range. rewrite (Hused num).
  destruct ((min <=? num) && (num <=? max) && negb (bool_decide (num ∈ result vars)))
    eqn:Htest; unfold ret.
  - eexists. split_and!; [done| |done].
    intros x. simpl. destruct (decide (x = num)) as [->|Hne].
    + rewrite lookup_insert_eq. simpl. symmetry. apply bool_decide_eq_true.
      apply elem_of_app. right. apply list_elem_of_singleton. done.
    + rewrite lookup_insert_ne by done. rewrite Hused.
      apply bool_decide_ext. rewrite elem_of_app, list_elem_of_singleton.
      tauto.
  - eexists. by split_and!.
Qed.

Lemma used_tracks_result_init :
  used_tracks_result {| result := []; used := ∅ |}.
Proof.
  intros x. simpl. by rewrite lookup_empty.
Qed.

Lemma sampler_returns fuel count min max lotteryType w :
  Z.min count (max - min + 1) ≤ Z.of_nat (length (kept lotteryType min max w fuel)) →
  ∃ numbers w',
    generateQuantumRandomNumbers fuel count min max lotteryType w
    = Normal (numbers, w').
Proof.
  intros Hkept. rewrite generateQuantumRandomNumbers_while.
  edestruct (loop_returns result used_tracks_result
               (Z.min count (max - min + 1)) (in_range min max)
               (quantumCandidate (samplerConfig lotteryType w) (samplerDepth w) min max)
               3 (samplerBody (samplerConfig lotteryType w) (samplerDepth w) min max))
    as (vars' & w' & Hrun);
    [intros; by apply samplerBody_step|apply used_tracks_result_init|
     reflexivity|exact Hkept|].
  rewrite Hrun. eauto.
Qed.

Lemma sampler_result fuel count min max lotteryType w numbers w' :
  generateQuantumRandomNumbers fuel count min max lotteryType w
  = Normal (numbers, w') →
  ∃ j, (j ≤ fuel)%nat ∧ w' = advance (3 * j) w ∧
       numbers = kept lotteryType min max w j ∧
       Z.of_nat (length numbers) = Z.max 0 (Z.min count (max - min + 1)).
Proof.
  rewrite generateQuantumRandomNumbers_while.
  destruct (while _ _ _ _ _) as [[vars w1]| |] eqn:Hrun; [|done..].
  intros [= <- <-].
  apply (loop_result result used_tracks_result
           (Z.min count (max - min + 1)) (in_range min max)
           (quantumCandidate (samplerConfig lotteryType w) (samplerDepth w) min max)
           3) in Hrun as (j & Hj & -> & _ & Hitems & Hge & Hle);
    [|intros; by apply samplerBody_step|apply used_tracks_result_init].
  exists j. split_and!; [done..|]. simpl in Hle. lia.
Qed.

Lemma sampler_no_throw fuel count min max lotteryType w e :
  generateQuantumRandomNumbers fuel count min max lotteryType w ≠ Throw e.
Proof.
  rewrite generateQuantumRandomNumbers_while.
  destruct (while _ _ _ _ _) as [[vars w1]| |] eqn:Hrun; [done| |done].
  apply (loop_no_throw result used_tracks_result
           (Z.min count (max - min + 1)) (in_range min max)
           (quantumCandidate (samplerConfig lotteryType w) (samplerDepth w) min max)
           3) in Hrun; [done|intros; by apply samplerBody_step|
                        apply used_tracks_result_init].
Qed.

Lemma kept_NoDup lotteryType min max w j : NoDup (kept lotteryType min max w j).
Proof. apply foldl_accept_NoDup, NoDup_nil_2. Qed.

Lemma kept_in_range lotteryType min max w j :
  Forall (λ x, min ≤ x ≤ max) (kept lotteryType min max w j).
Proof.
  apply foldl_accept_Forall; [|done].
  apply Forall_forall. intros c _. unfold in_range. lia.
Qed.

Lemma sampler_needs_enough fuel count min max lotteryType w numbers w' :
  generateQuantumRandomNumbers fuel count min max lotteryType w
  = Normal (numbers, w') →
  Z.min count (max - min + 1) ≤ Z.of_nat (length (kept lotteryType min max w fuel)).
Proof.
  intros Hrun. apply sampler_result in Hrun as (j & Hj & _ & -> & Hlen).
  pose proof (accepted_mono (in_range min max)
    (quantumCandidate (samplerConfig lotteryType w) (samplerDepth w) min max)
    3 w j fuel Hj) as Hmono.
  unfold kept in *. lia.
Qed.

Lemma sampler_pending fuel count min max lotteryType w :
  Z.of_nat (length (kept lotteryType min max w fuel)) < Z.min count (max - min + 1) →
  generateQuantumRandomNumbers fuel count min max lotteryType w = Pending.
Proof.
  intros Hfew.
  destruct (generateQuantumRandomNumbers fuel count min max lotteryType w)
    as [[numbers w']|e|] eqn:Hrun; [|by apply sampler_no_throw in Hrun|done].
  apply sampler_needs_enough in Hrun. lia.
Qed.

(** With a generator that always answers [r], every candidate is the same
    number. *)
Lemma kept_constant_stream lotteryType min max r j :
  (length (kept lotteryType min max (blankWorld (λ _, r)) j) ≤ 1)%nat.
Proof.
  unfold kept.
  apply (accepted_constant _ _ _ _
    (quantumNumber
       (samplerConfig lotteryType (blankWorld (λ _, r)))
       (samplerDepth (blankWorld (λ _, r))) min max r r r)).
  intros i. reflexivity.
Qed.

End Sampler.

(** ** Sorting and full ranges *)

Lemma sort_ascending_Permutation numbers : sort_ascending numbers ≡ₚ numbers.
Proof. apply merge_sort_Permutation. Qed.

Lemma sort_ascending_Sorted numbers : Sorted Z.le (sort_ascending numbers).
Proof. apply (Sorted_merge_sort Z.le). Qed.

Lemma sort_ascending_length numbers :
  length (sort_ascending numbers) = length numbers.
Proof. by rewrite sort_ascending_Permutation. Qed.

Lemma sort_ascending_NoDup numbers :
  NoDup numbers → NoDup (sort_ascending numbers).
Proof. by rewrite sort_ascending_Permutation. Qed.

Lemma sort_ascending_Forall (P : Z → Prop) numbers :
  Forall P numbers → Forall P (sort_ascending numbers).
Proof. by rewrite sort_ascending_Permutation. Qed.

Lemma Sorted_seqZ m n : Sorted Z.le (seqZ m n).
Proof.
  destruct (decide (n ≤ 0)) as [Hn|Hn]; [by rewrite seqZ_nil|].
  rewrite <- (Z2Nat.id n) by lia. generalize (Z.to_nat n) as k. clear n Hn.
  intros k. revert m. induction k as [|k IH]; intros m.
  - by rewrite seqZ_nil.
  - rewrite seqZ_cons by lia. constructor.
    + replace (Z.pred (Z.of_nat (S k))) with (Z.of_nat k) by lia. apply IH.
    + replace (Z.pred (Z.of_nat (S k))) with (Z.of_nat k) by lia.
      destruct k as [|k]; [by rewrite seqZ_nil|].
      rewrite seqZ_cons by lia. constructor. lia.
Qed.

(** Distinct numbers of a range that are as many as the range has are the
    whole range. *)
Lemma full_range_Permutation min max (numbers : list Z) :
  NoDup numbers → Forall (λ x, min ≤ x ≤ max) numbers →
  Z.of_nat (length numbers) = Z.max 0 (max - min + 1) →
  numbers ≡ₚ seqZ min (max - min + 1).
Proof.
  intros Hnd Hrange Hlen. apply submseteq_length_Permutation.
  - apply NoDup_submseteq; [done|]. intros x Hx. apply elem_of_seqZ.
    rewrite Forall_forall in Hrange. specialize (Hrange x Hx). lia.
  - rewrite length_seqZ. lia.
Qed.

Lemma full_range_sorted min max (numbers : list Z) :
  NoDup numbers → Forall (λ x, min ≤ x ≤ max) numbers →
  Z.of_nat (length numbers) = Z.max 0 (max - min + 1) →
  sort_ascending numbers = seqZ min (max - min + 1).
Proof.
  intros Hnd Hrange Hlen. apply (Sorted_unique Z.le).
  - apply sort_ascending_Sorted.
  - apply Sorted_seqZ.
  - rewrite sort_ascending_Permutation. by apply full_range_Permutation.
Qed.

(** ** The unique bounded sampler *)

Section SamplerClaims.

Context {math : MathLibrary}.

(** C1, as the engine has it.  For a request [0 < count <= max - min + 1]
    with [min <= max] the sampler never throws, and the numbers it returns,
    sorted as [generatePredictionSet] sorts them, are exactly [count]
    numbers, pairwise distinct, each within [[min, max]], in ascending
    order.  It does not return on every entropy source: it returns within
    the iteration budget exactly when the entropy source has by then
    produced [count] distinct candidates of the range. *)
Theorem sampleUnique_valid (count min max : Z) (lotteryType : option string)
    (fuel : nat) (w : World) :
  0 < count ≤ max - min + 1 → min ≤ max →
  (∀ e, generateQuantumRandomNumbers fuel count min max lotteryType w ≠ Throw e) ∧
  (∀ numbers w',
     generateQuantumRandomNumbers fuel count min max lotteryType w
     = Normal (numbers, w') →
     valid_sample count min max (sort_ascending numbers)) ∧
  ((∃ numbers w',
      generateQuantumRandomNumbers fuel count min max lotteryType w
      = Normal (numbers, w')) ↔
   count ≤ Z.of_nat (length (kept lotteryType min max w fuel))).
Proof.
  intros Hcount Hmm. split_and!.
  - intros e. apply sampler_no_throw.
  - intros numbers w' Hrun.
    apply sampler_result in Hrun as (j & _ & _ & -> & Hlen).
    split_and!.
    + rewrite sort_ascending_length. lia.
    + apply sort_ascending_NoDup, kept_NoDup.
    + apply sort_ascending_Forall, kept_in_range.
    + apply sort_ascending_Sorted.
  - split.
    + intros (numbers & w' & Hrun). apply sampler_needs_enough in Hrun. lia.
    + intros Hkept. apply sampler_returns. lia.
Qed.

(** C2, as the engine has it.  A request for more numbers than the range
    holds is clamped to the size of the range: the call never throws, it
    is the call for [max - min + 1] numbers, and whatever it returns is the
    whole range, each number once. *)
Theorem sampleUnique_clamps (count min max : Z) (lotteryType : option string)
    (fuel : nat) (w : World) :
  count > max - min + 1 → min ≤ max →
  (∀ e, generateQuantumRandomNumbers fuel count min max lotteryType w ≠ Throw e) ∧
  generateQuantumRandomNumbers fuel count min max lotteryType w
  = generateQuantumRandomNumbers fuel (max - min + 1) min max lotteryType w ∧
  (∀ numbers w',
     generateQuantumRandomNumbers fuel count min max lotteryType w
     = Normal (numbers, w') →
     Z.of_nat (length numbers) = max - min + 1 ∧
     sort_ascending numbers = seqZ min (max - min + 1)).
Proof.
  intros Hcount Hmm. split_and!.
  - intros e. apply sampler_no_throw.
  - rewrite !generateQuantumRandomNumbers_while.
    by rewrite Z.min_r, Z.min_id by lia.
  - intros numbers w' Hrun.
    apply sampler_result in Hrun as (j & _ & _ & -> & Hlen).
    rewrite Z.min_r in Hlen by lia. split; [lia|].
    apply full_range_sorted; [apply kept_NoDup|apply kept_in_range|lia].
Qed.

(** C3, as the engine has it.  For [max < min] or [count <= 0] the sampler
    raises nothing: it returns the empty sequence at once, whatever the
    iteration budget, and leaves the entropy source untouched. *)
Theorem sampleUnique_empty (count min max : Z) (lotteryType : option string)
    (fuel : nat) (w : World) :
  max < min ∨ count ≤ 0 →
  generateQuantumRandomNumbers fuel count min max lotteryType w = Normal ([], w).
Proof.
  intros Hbad. rewrite generateQuantumRandomNumbers_while.
  destruct fuel; simpl; (rewrite (proj2 (Z.ltb_ge _ _)) by lia); done.
Qed.

(** C4, as the engine has it.  When [count = max - min + 1] the sampler
    never throws, and the numbers it returns are a permutation of the range
    and, sorted, are the range itself: for [(6, 1, 6)] the sorted result is
    [1, 2, 3, 4, 5, 6].  It does not return on every entropy source: it
    returns within the iteration budget exactly when every number of the
    range has by then been drawn. *)
Theorem sampleUnique_full_range (count min max : Z) (lotteryType : option string)
    (fuel : nat) (w : World) :
  count = max - min + 1 →
  (∀ e, generateQuantumRandomNumbers fuel count min max lotteryType w ≠ Throw e) ∧
  (∀ numbers w',
     generateQuantumRandomNumbers fuel count min max lotteryType w
     = Normal (numbers, w') →
     numbers ≡ₚ seqZ min count ∧ sort_ascending numbers = seqZ min count) ∧
  ((∃ numbers w',
      generateQuantumRandomNumbers fuel count min max lotteryType w
      = Normal (numbers, w')) ↔
   count ≤ Z.of_nat (length (kept lotteryType min max w fuel))) ∧
  (∀ numbers w',
     generateQuantumRandomNumbers fuel 6 1 6 lotteryType w
     = Normal (numbers, w') →
     sort_ascending numbers = [1; 2; 3; 4; 5; 6]).
Proof.
  intros ->. split_and!.
  - intros e. apply sampler_no_throw.
  - intros numbers w' Hrun.
    apply sampler_result in Hrun as (j & _ & _ & -> & Hlen).
    rewrite Z.min_id in Hlen.
    split; [apply full_range_Permutation|apply full_range_sorted];
      auto using kept_NoDup, kept_in_range.
  - split.
    + intros (numbers & w' & Hrun). apply sampler_needs_enough in Hrun. lia.
    + intros Hkept. apply sampler_returns. lia.
  - intros numbers w' Hrun.
    apply sampler_result in Hrun as (j & _ & _ & -> & Hlen).
    change [1; 2; 3; 4; 5; 6] with (seqZ 1 (6 - 1 + 1)).
    apply full_range_sorted; auto using kept_NoDup, kept_in_range.
Qed.

(** C5, as the engine has it.  The loop is plain rejection sampling with no
    deterministic fallback: for a valid request the call returns within the
    iteration budget exactly when the entropy source has by then produced
    [count] distinct candidates of the range, and is still running
    otherwise. *)
Theorem sampleUnique_returns_iff (count min max : Z) (lotteryType : option string)
    (fuel : nat) (w : World) :
  0 < count ≤ max - min + 1 →
  ((∃ numbers w',
      generateQuantumRandomNumbers fuel count min max lotteryType w
      = Normal (numbers, w')) ↔
   count ≤ Z.of_nat (length (kept lotteryType min max w fuel))) ∧
  (Z.of_nat (length (kept lotteryType min max w fuel)) < count →
   generateQuantumRandomNumbers fuel count min max lotteryType w = Pending).
Proof.
  intros Hcount. split.
  - split.
    + intros (numbers & w' & Hrun). apply sampler_needs_enough in Hrun. lia.
    + intros Hkept. apply sampler_returns. lia.
  - intros Hfew. apply sampler_pending. lia.
Qed.

End SamplerClaims.

(** *** The sampler on concrete requests *)

Example sampleUnique_demo :
  run (numbers <- generateQuantumRandomNumbers (math := taylorMath)
                    8 7 1 49 None ;;
       ret (numbers, sort_ascending numbers)) demoWorld
  = Normal ([23; 35; 27; 43; 25; 28; 13], [13; 23; 25; 27; 28; 35; 43]).
Proof. by vm_compute. Qed.

Lemma sampleUnique_valid_witness :
  ∃ numbers w',
    generateQuantumRandomNumbers (math := taylorMath)
      8 7 1 49 None demoWorld = Normal (numbers, w') ∧
    valid_sample 7 1 49 (sort_ascending numbers).
Proof.
  destruct (sampleUnique_valid (math := taylorMath) 7 1 49 None 8 demoWorld)
    as (_ & Hvalid & Hreturns); [lia|lia|].
  destruct (proj2 Hreturns) as (numbers & w' & Hrun); [by vm_compute|].
  exists numbers, w'. split; [exact Hrun|exact (Hvalid numbers w' Hrun)].
Defined.

(** A valid request, for 3 numbers of [[1, 10]], that returns no sequence
    at all, whatever the iteration budget: the generator always answers one
    half, so that every candidate is the same number. *)
Lemma sampleUnique_valid_counterexample :
  0 < 3 ≤ 10 - 1 + 1 ∧ 1 ≤ 10 ∧
  ∀ fuel,
    generateQuantumRandomNumbers (math := taylorMath)
      fuel 3 1 10 None stuckWorld = Pending ∧
    ¬ ∃ numbers w',
        generateQuantumRandomNumbers (math := taylorMath)
          fuel 3 1 10 None stuckWorld = Normal (numbers, w').
Proof.
  split; [lia|]. split; [lia|]. intros fuel.
  assert (Hpending : generateQuantumRandomNumbers (math := taylorMath)
                       fuel 3 1 10 None stuckWorld = Pending).
  { apply sampler_pending.
    pose proof (kept_constant_stream (math := taylorMath)
                  None 1 10 (1 # 2) fuel) as Hone.
    unfold stuckWorld. lia. }
  split; [exact Hpending|].
  intros (numbers & w' & Hrun). rewrite Hpending in Hrun. discriminate Hrun.
Qed.

(** A request for 8 numbers of [[1, 6]] returns six numbers and throws
    nothing. *)
Lemma sampleUnique_clamps_counterexample :
  8 > 6 - 1 + 1 ∧
  run (generateQuantumRandomNumbers (math := taylorMath)
         12 8 1 6 None) demoWorld
  = Normal [3; 5; 4; 6; 2; 1] ∧
  run (generateQuantumRandomNumbers (math := taylorMath)
         12 8 1 6 None) demoWorld
  ≠ Throw "InvalidRangeError".
Proof. split; [lia|]. split; [by vm_compute|]. vm_compute. discriminate. Qed.

Lemma sampleUnique_clamps_witness :
  (∀ e, generateQuantumRandomNumbers (math := taylorMath)
          12 8 1 6 None demoWorld ≠ Throw e) ∧
  generateQuantumRandomNumbers (math := taylorMath)
    12 8 1 6 None demoWorld
  = generateQuantumRandomNumbers (math := taylorMath)
      12 (6 - 1 + 1) 1 6 None demoWorld ∧
  (∀ numbers w',
     generateQuantumRandomNumbers (math := taylorMath)
       12 8 1 6 None demoWorld = Normal (numbers, w') →
     Z.of_nat (length numbers) = 6 - 1 + 1 ∧
     sort_ascending numbers = seqZ 1 (6 - 1 + 1)).
Proof.
  apply (sampleUnique_clamps (math := taylorMath) 8 1 6 None 12 demoWorld);
    lia.
Defined.

(** A request for no number, and a request on the empty range [[6, 1]],
    return the empty sequence and throw nothing. *)
Lemma sampleUnique_empty_counterexample :
  run (generateQuantumRandomNumbers (math := taylorMath)
         0 0 1 6 None) demoWorld = Normal [] ∧
  run (generateQuantumRandomNumbers (math := taylorMath)
         0 3 6 1 None) demoWorld = Normal [] ∧
  run (generateQuantumRandomNumbers (math := taylorMath)
         0 3 6 1 None) demoWorld ≠ Throw "InvalidBoundsError".
Proof. split_and!; [by vm_compute..|]. vm_compute. discriminate. Qed.

Lemma sampleUnique_empty_witness :
  generateQuantumRandomNumbers (math := taylorMath)
    5 3 6 1 None demoWorld = Normal ([], demoWorld).
Proof.
  apply (sampleUnique_empty (math := taylorMath) 3 6 1 None 5 demoWorld).
  left. lia.
Defined.

Lemma sampleUnique_full_range_witness :
  run (generateQuantumRandomNumbers (math := taylorMath)
         12 6 1 6 None) demoWorld = Normal [3; 5; 4; 6; 2; 1] ∧
  ∀ numbers w',
    generateQuantumRandomNumbers (math := taylorMath)
      12 6 1 6 None demoWorld = Normal (numbers, w') →
    sort_ascending numbers = [1; 2; 3; 4; 5; 6].
Proof.
  split; [by vm_compute|].
  apply (sampleUnique_full_range (math := taylorMath)
           6 1 6 None 12 demoWorld).
  reflexivity.
Defined.

(** The request [(6, 1, 6)] does not return [1, 2, 3, 4, 5, 6], nor
    anything else, when the generator always answers one half: every
    candidate is the same number and the range is never filled. *)
Lemma sampleUnique_full_range_counterexample :
  6 = 6 - 1 + 1 ∧
  ∀ fuel,
    generateQuantumRandomNumbers (math := taylorMath)
      fuel 6 1 6 None stuckWorld = Pending ∧
    run (generateQuantumRandomNumbers (math := taylorMath) fuel 6 1 6 None)
      stuckWorld ≠ Normal [1; 2; 3; 4; 5; 6].
Proof.
  split; [lia|]. intros fuel.
  assert (Hpending : generateQuantumRandomNumbers (math := taylorMath)
                       fuel 6 1 6 None stuckWorld = Pending).
  { apply sampler_pending.
    pose proof (kept_constant_stream (math := taylorMath)
                  None 1 6 (1 # 2) fuel) as Hone.
    unfold stuckWorld. lia. }
  split; [exact Hpending|].
  unfold run. rewrite Hpending. discriminate.
Qed.

(** A valid request, for 2 numbers of [[1, 2]], on which the sampler never
    returns, whatever the iteration budget: the generator always answers
    one half, every candidate is the number 2, and no fallback takes over. *)
Lemma sampleUnique_termination_counterexample :
  0 < 2 ≤ 2 - 1 + 1 ∧
  ∀ fuel,
    generateQuantumRandomNumbers (math := taylorMath)
      fuel 2 1 2 None stuckWorld = Pending.
Proof.
  split; [lia|]. intros fuel. apply sampler_pending.
  pose proof (kept_constant_stream (math := taylorMath)
                None 1 2 (1 # 2) fuel) as Hone.
  unfold stuckWorld. lia.
Qed.

Lemma sampleUnique_returns_iff_witness :
  (∃ numbers w',
     generateQuantumRandomNumbers (math := taylorMath)
       8 7 1 49 None demoWorld = Normal (numbers, w')) ↔
  7 ≤ Z.of_nat (length (kept (math := taylorMath) None 1 49 demoWorld 8)).
Proof.
  apply (sampleUnique_returns_iff (math := taylorMath)
           7 1 49 None 8 demoWorld).
  lia.
Defined.

(** ** What a call leaves unchanged *)

Lemma only_reads_refl w : only_reads w w.
Proof. by unfold only_reads. Qed.

Lemma only_reads_trans w1 w2 w3 :
  only_reads w1 w2 → only_reads w2 w3 → only_reads w1 w3.
Proof.
  unfold only_reads. intros (-> & -> & -> & -> & ? & ?) (-> & -> & -> & -> & ? & ?).
  split_and!; [done..|lia|lia].
Qed.

Lemma frame_ret {A} (a : A) : frame (ret a).
Proof. intros w a' w' [= _ <-]. apply only_reads_refl. Qed.

Lemma frame_gets {A} (f : World → A) : frame (gets f).
Proof. intros w a' w' [= _ <-]. apply only_reads_refl. Qed.

Lemma frame_bind {A B} (m : M A) (k : A → M B) :
  frame m → (∀ a, frame (k a)) → frame (bind m k).
Proof.
  intros Hm Hk w b w' (a & w1 & Hrun & Hrest)%bind_Normal.
  eapply only_reads_trans; [by eapply Hm|by eapply Hk].
Qed.

Lemma frame_Math_random : frame Math_random.
Proof.
  intros w r w' [= _ <-]. unfold only_reads. simpl. split_and!; [done..|lia|lia].
Qed.

Lemma frame_performance_now : frame performance_now.
Proof.
  intros w r w' [= _ <-]. unfold only_reads. simpl. split_and!; [done..|lia|lia].
Qed.

Lemma frame_while {S} (cond : S → bool) (body : S → M S) :
  (∀ s, frame (body s)) → ∀ fuel s, frame (while fuel cond body s).
Proof.
  intros Hbody fuel. induction fuel as [|fuel IH]; intros s; simpl;
    destruct (cond s); try apply frame_ret.
  - by intros w a w'.
  - apply frame_bind; auto.
Qed.

Lemma frame_for_loop {S} (cond : Z → M bool) (body : Z → S → M S) :
  (∀ i, frame (cond i)) → (∀ i s, frame (body i s)) →
  ∀ fuel i s, frame (for_loop fuel i cond body s).
Proof.
  intros Hcond Hbody fuel. induction fuel as [|fuel IH]; intros i s; simpl;
    (apply frame_bind; [by apply Hcond|]); intros [|]; try apply frame_ret.
  - by intros w a w'.
  - apply frame_bind; auto.
Qed.

Lemma frame_mapM {A B} (f : A → M B) (l : list A) :
  (∀ x, frame (f x)) → frame (mapM f l).
Proof.
  intros Hf. induction l as [|x l IH]; simpl; [apply frame_ret|].
  apply frame_bind; [done|]. intros y.
  apply frame_bind; [done|]. intros ys. apply frame_ret.
Qed.

Lemma frame_if {A} (b : bool) (m1 m2 : M A) :
  frame m1 → frame m2 → frame (if b then m1 else m2).
Proof. by destruct b. Qed.

Create HintDb frame discriminated.
#[local] Hint Resolve frame_ret frame_gets frame_bind frame_Math_random
  frame_performance_now frame_while frame_for_loop frame_mapM frame_if : frame.
#[local] Hint Extern 1 (frame (match ?x with _ => _ end)) => destruct x : frame.

Lemma frame_getRandomStrategy : frame getRandomStrategy.
Proof. unfold getRandomStrategy. auto with frame. Qed.

Lemma frame_generateRationale strategy numbers lotteryType :
  frame (generateRationale strategy numbers lotteryType).
Proof. unfold generateRationale. auto with frame. Qed.

Lemma frame_generateFeatureImportance lotteryType :
  frame (generateFeatureImportance lotteryType).
Proof. unfold generateFeatureImportance. auto 10 with frame. Qed.

#[local] Hint Resolve frame_getRandomStrategy frame_generateRationale
  frame_generateFeatureImportance : frame.

Section Frame.

Context {math : MathLibrary}.

Lemma frame_generateQuantumRandomNumbers fuel count min max lotteryType :
  frame (generateQuantumRandomNumbers fuel count min max lotteryType).
Proof. unfold generateQuantumRandomNumbers. auto 12 with frame. Qed.

Hint Resolve frame_generateQuantumRandomNumbers : frame.

Lemma frame_generatePredictionSet fuel id strategy lotteryType lotteryConfig :
  frame (generatePredictionSet fuel id strategy lotteryType lotteryConfig).
Proof. unfold generatePredictionSet. auto 12 with frame. Qed.

Hint Resolve frame_generatePredictionSet : frame.

Lemma frame_generatePrediction fuel lotteryType targetDate :
  frame (generatePrediction fuel lotteryType targetDate).
Proof. unfold generatePrediction. auto 20 with frame. Qed.

End Frame.

(** ** What the outcome of a call depends on *)

Lemma determined_ret {A} (a : A) : input_determined (ret a).
Proof. by intros w1 w2 Hsame. Qed.

Lemma determined_gets {A} (f : World → A) :
  (∀ w1 w2, same_inputs w1 w2 → f w1 = f w2) → input_determined (gets f).
Proof. intros Hf w1 w2 Hsame. simpl. split; [by apply Hf|done]. Qed.

Lemma determined_bind {A B} (m : M A) (k : A → M B) :
  input_determined m → (∀ a, input_determined (k a)) →
  input_determined (bind m k).
Proof.
  intros Hm Hk w1 w2 Hsame. unfold bind. specialize (Hm w1 w2 Hsame).
  destruct (m w1) as [[a1 w1']|e1|], (m w2) as [[a2 w2']|e2|]; try done.
  destruct Hm as [-> Hsame']. by apply Hk.
Qed.

Lemma determined_Math_random : input_determined Math_random.
Proof.
  intros w1 w2 (Hc & Hl & Hs & Hp & Hcs & Hcp). unfold Math_random, agree, same_inputs.
  simpl. rewrite Hs, Hp. by split_and!.
Qed.

Lemma determined_performance_now : input_determined performance_now.
Proof.
  intros w1 w2 (Hc & Hl & Hs & Hp & Hcs & Hcp).
  unfold performance_now, agree, same_inputs.
  simpl. rewrite Hcs, Hcp. by split_and!.
Qed.

Lemma determined_while {S} (cond : S → bool) (body : S → M S) :
  (∀ s, input_determined (body s)) →
  ∀ fuel s, input_determined (while fuel cond body s).
Proof.
  intros Hbody fuel. induction fuel as [|fuel IH]; intros s; simpl;
    destruct (cond s); try apply determined_ret.
  - by intros w1 w2 Hsame.
  - apply determined_bind; auto.
Qed.

Lemma determined_for_loop {S} (cond : Z → M bool) (body : Z → S → M S) :
  (∀ i, input_determined (cond i)) → (∀ i s, input_determined (body i s)) →
  ∀ fuel i s, input_determined (for_loop fuel i cond body s).
Proof.
  intros Hcond Hbody fuel. induction fuel as [|fuel IH]; intros i s; simpl;
    (apply determined_bind; [by apply Hcond|]); intros [|];
    try apply determined_ret.
  - by intros w1 w2 Hsame.
  - apply determined_bind; auto.
Qed.

Lemma determined_mapM {A B} (f : A → M B) (l : list A) :
  (∀ x, input_determined (f x)) → input_determined (mapM f l).
Proof.
  intros Hf. induction l as [|x l IH]; simpl; [apply determined_ret|].
  apply determined_bind; [done|]. intros y.
  apply determined_bind; [done|]. intros ys. apply determined_ret.
Qed.

Lemma determined_if {A} (b : bool) (m1 m2 : M A) :
  input_determined m1 → input_determined m2 →
  input_determined (if b then m1 else m2).
Proof. by destruct b. Qed.

Create HintDb determined discriminated.
#[local] Hint Resolve determined_ret determined_bind determined_Math_random
  determined_performance_now determined_while determined_for_loop
  determined_mapM determined_if : determined.
#[local] Hint Extern 1 (input_determined (match ?x with _ => _ end)) =>
  destruct x : determined.
#[local] Hint Extern 1 (input_determined (gets _)) =>
  apply determined_gets; intros ? ? (Hc & Hl & _); simpl;
  rewrite ?Hc, ?Hl; reflexivity : determined.

Lemma determined_generateFeatureImportance lotteryType :
  input_determined (generateFeatureImportance lotteryType).
Proof. unfold generateFeatureImportance. auto 10 with determined. Qed.

Lemma determined_getRandomStrategy : input_determined getRandomStrategy.
Proof. unfold getRandomStrategy. auto with determined. Qed.

Lemma determined_generateRationale strategy numbers lotteryType :
  input_determined (generateRationale strategy numbers lotteryType).
Proof. unfold generateRationale. auto with determined. Qed.

#[local] Hint Resolve determined_generateFeatureImportance
  determined_getRandomStrategy determined_generateRationale : determined.

Section Determined.

Context {math : MathLibrary}.

Lemma determined_generateQuantumRandomNumbers fuel count min max lotteryType :
  input_determined (generateQuantumRandomNumbers fuel count min max lotteryType).
Proof. unfold generateQuantumRandomNumbers. auto 12 with determined. Qed.

Hint Resolve determined_generateQuantumRandomNumbers : determined.

Lemma determined_generatePredictionSet fuel id strategy lotteryType lotteryConfig :
  input_determined
    (generatePredictionSet fuel id strategy lotteryType lotteryConfig).
Proof. unfold generatePredictionSet. auto 12 with determined. Qed.

Hint Resolve determined_generatePredictionSet : determined.

Lemma determined_generatePrediction fuel lotteryType targetDate :
  input_determined (generatePrediction fuel lotteryType targetDate).
Proof. unfold generatePrediction. auto 20 with determined. Qed.

End Determined.

(** ** The derived metrics *)

Lemma mapM_ext {A B} (f g : A → M B) (l : list A) w :
  (∀ x w, f x w = g x w) → mapM f l w = mapM g l w.
Proof.
  intros Hfg. revert w. induction l as [|x l IH]; intros w; simpl; [done|].
  unfold bind. rewrite Hfg. destruct (g x w) as [[y w1]| |]; [|done..].
  by rewrite IH.
Qed.

(** Mapping a function that makes one draw per element hands the [i]-th
    element the [i]-th next draw. *)
Lemma mapM_draw {A B} (f : A → Q → B) (l : list A) : ∀ w,
  mapM (λ a, r <- Math_random ;; ret (f a r)) l w
  = Normal (imap (λ i a, f a (randomStream w (randomCalls w + i)%nat)) l,
            advance (length l) w).
Proof.
  induction l as [|x l IH]; intros w; simpl.
  - unfold ret. by rewrite advance_0.
  - unfold bind at 1. unfold Math_random at 1. unfold bind at 1. unfold ret at 1.
    unfold bind. rewrite IH. unfold ret. simpl. f_equal. f_equal.
    + f_equal; [by rewrite Nat.add_0_r|].
      apply imap_ext. intros i a _. simpl. do 2 f_equal. lia.
    + unfold advance. simpl. f_equal. lia.
Qed.

Lemma foldl_set_property {V} (entries : list (string * V)) : ∀ o,
  NoDup ((o ++ entries).*1) → foldl set_property o entries = o ++ entries.
Proof.
  induction entries as [|kv entries IH]; intros o Hnd; simpl.
  - by rewrite app_nil_r.
  - assert (Hfresh : kv.1 ∉ o.*1).
    { rewrite fmap_app, fmap_cons in Hnd.
      apply NoDup_app in Hnd as (_ & Hdisj & _). intros Hin.
      apply (Hdisj _ Hin). left. }
    unfold set_property at 2. rewrite bool_decide_eq_false_2 by done.
    rewrite IH; [by rewrite <- app_assoc|]. by rewrite <- app_assoc.
Qed.

Lemma Object_fromEntries_NoDup {V} (entries : list (string * V)) :
  NoDup (entries.*1) → Object_fromEntries entries = entries.
Proof. intros Hnd. unfold Object_fromEntries. by rewrite foldl_set_property. Qed.

Lemma featureImportanceOf_keys draw :
  (featureImportanceOf draw).*1 = baseImportance.*1.
Proof. reflexivity. Qed.

Lemma generateFeatureImportance_eq lotteryType w :
  generateFeatureImportance lotteryType w
  = Normal (featureImportanceOf (λ i, randomStream w (randomCalls w + i)%nat),
            advance 5 w).
Proof.
  unfold generateFeatureImportance, bind.
  rewrite (mapM_ext _ (λ kv, r <- Math_random ;; ret (kv.1, perturbed kv.2 r)))
    by (by intros [key value] w0).
  rewrite (mapM_draw (λ kv r, (kv.1, perturbed kv.2 r))).
  unfold ret. apply (f_equal Normal), (f_equal2 pair); [|reflexivity].
  etrans; [apply Object_fromEntries_NoDup|reflexivity].
  change (NoDup (featureImportanceOf
                   (λ i, randomStream w (randomCalls w + i)%nat)).*1).
  rewrite featureImportanceOf_keys. by apply (bool_decide_unpack _); vm_compute.
Qed.

Lemma perturbed_bounds value r :
  (5 # 100 <= perturbed value r)%Q ∧ (perturbed value r <= 95 # 100)%Q.
Proof.
  unfold perturbed. split.
  - apply Q.min_glb; [done|apply Q.le_max_l].
  - apply Q.le_min_l.
Qed.

Lemma featureImportanceOf_bounds draw :
  Forall (λ kv, (5 # 100 <= kv.2)%Q ∧ (kv.2 <= 95 # 100)%Q)
    (featureImportanceOf draw).
Proof.
  apply Forall_forall. intros kv (i & [key value] & -> & _)%elem_of_lookup_imap.
  apply perturbed_bounds.
Qed.

Lemma featureImportanceOf_ext draw1 draw2 :
  (∀ i, (i < 5)%nat → draw1 i = draw2 i) →
  featureImportanceOf draw1 = featureImportanceOf draw2.
Proof.
  intros Hdraw. apply imap_ext. intros i kv Hi%lookup_lt_Some.
  by rewrite Hdraw.
Qed.

(** C6.  The metrics generator returns, whatever the entropy, a mapping
    with exactly one entry per label of the label set (here the five labels
    of [baseImportance], in their order), and every value lies in
    [[0, 1]]. *)
Theorem deriveMetrics_one_entry_per_label (lotteryType : string) (w : World) :
  ∃ metrics w',
    generateFeatureImportance lotteryType w = Normal (metrics, w') ∧
    metrics.*1 = ["frequency"; "recency"; "entropy"; "cooccurrence"; "seasonality"] ∧
    NoDup (metrics.*1) ∧
    (∀ label, label ∈ baseImportance.*1 → is_Some (Object_get metrics label)) ∧
    Forall (λ kv, (0 <= kv.2)%Q ∧ (kv.2 <= 1)%Q) metrics.
Proof.
  eexists _, _. split; [apply generateFeatureImportance_eq|].
  set (draw := λ i, randomStream w (randomCalls w + i)%nat).
  split_and!.
  - reflexivity.
  - rewrite featureImportanceOf_keys. by apply (bool_decide_unpack _); vm_compute.
  - intros label Hlabel. unfold Object_get.
    destruct (list_find (λ e, e.1 = label) (featureImportanceOf draw))
      as [[i kv]|] eqn:Hfind; [by eexists|].
    apply list_find_None in Hfind. exfalso.
    rewrite <- (featureImportanceOf_keys draw) in Hlabel.
    apply list_elem_of_fmap in Hlabel as (kv & -> & Hkv).
    rewrite Forall_forall in Hfind. by apply (Hfind kv).
  - eapply Forall_impl; [apply featureImportanceOf_bounds|].
    intros kv [Hlo Hhi]. split.
    + apply (Qle_trans _ (5 # 100)); [done|exact Hlo].
    + apply (Qle_trans _ (95 # 100)); [exact Hhi|done].
Qed.

(** C10.  Every value of the feature-importance mapping lies in
    [[0.05, 0.95]], because each base weight plus jitter is clamped with
    [Math.min(0.95, Math.max(0.05, ...))]. *)
Theorem featureImportance_clamped (lotteryType : string) (w : World) :
  ∃ metrics w',
    generateFeatureImportance lotteryType w = Normal (metrics, w') ∧
    Forall (λ kv, (5 # 100 <= kv.2)%Q ∧ (kv.2 <= 95 # 100)%Q) metrics.
Proof.
  eexists _, _. split; [apply generateFeatureImportance_eq|].
  apply featureImportanceOf_bounds.
Qed.

(** ** The metrics and the engine state in [generatePrediction] *)

Section Prediction.

Context {math : MathLibrary}.

(** The feature importance of a prediction is computed from the five draws
    that precede the last four, and from nothing else. *)
Lemma generatePrediction_metrics fuel lotteryType targetDate w res w' :
  generatePrediction fuel lotteryType targetDate w = Normal (res, w') →
  featureImportance (quantumMetrics res) = featureImportanceOf (metricDraws w').
Proof.
  unfold generatePrediction. intros Hrun.
  apply bind_Normal in Hrun as (startTime & w1 & H1 & Hrun).
  apply bind_Normal in Hrun as (t & w2 & H2 & Hrun).
  apply bind_Normal in Hrun as (r & w3 & H3 & Hrun).
  apply bind_Normal in Hrun as (primary & w4 & H4 & Hrun).
  apply bind_Normal in Hrun as (alternatives & w5 & H5 & Hrun).
  apply bind_Normal in Hrun as (endTime & w6 & H6 & Hrun).
  apply bind_Normal in Hrun as (metrics & w7 & H7 & Hrun).
  rewrite generateFeatureImportance_eq in H7. injection H7 as <- <-.
  unfold bind, Math_random, gets, ret in Hrun. simpl in Hrun.
  injection Hrun as <- <-. simpl.
  apply featureImportanceOf_ext. intros i Hi. unfold metricDraws. simpl.
  f_equal. lia.
Qed.

(** C7.  The metrics do not depend on the sampled numbers: two predictions,
    whatever lottery, date, engine and sampled numbers they have, carry the
    same feature importance as soon as the five entropy draws the metrics
    are computed from are the same. *)
Theorem metrics_independent_of_sample
    (fuel1 fuel2 : nat) (lotteryType1 lotteryType2 targetDate1 targetDate2 : string)
    (w1 w2 : World) (res1 res2 : QuantumPredictionResult) (w1' w2' : World) :
  generatePrediction fuel1 lotteryType1 targetDate1 w1 = Normal (res1, w1') →
  generatePrediction fuel2 lotteryType2 targetDate2 w2 = Normal (res2, w2') →
  (∀ i, (i < 5)%nat → metricDraws w1' i = metricDraws w2' i) →
  featureImportance (quantumMetrics res1) = featureImportance (quantumMetrics res2).
Proof.
  intros Hrun1 Hrun2 Hdraws.
  rewrite (generatePrediction_metrics _ _ _ _ _ _ Hrun1).
  rewrite (generatePrediction_metrics _ _ _ _ _ _ Hrun2).
  by apply featureImportanceOf_ext.
Qed.

(** C8.  The sampler, the metrics generator and [generatePrediction] have no
    side effect: a call that returns leaves the engine (configuration,
    historical data, feature matrix, lottery tables), every array of the
    heap and the two streams as they were, and only advances the positions
    at which the entropy source and the clock are read.  The outcome of
    [generatePrediction] is a function of its arguments, the configuration,
    the entropy source and the clock: it does not depend on the heap, the
    historical data or the feature matrix, so no state is shared between
    invocations. *)
Theorem generatePrediction_no_side_effect
    (fuel : nat) (lotteryType targetDate : string) (w : World) :
  (∀ res w',
     generatePrediction fuel lotteryType targetDate w = Normal (res, w') →
     only_reads w w' ∧
     config (this w') = config (this w) ∧
     historicalData (this w') = historicalData (this w) ∧
     featureMatrix (this w') = featureMatrix (this w)) ∧
  (∀ count min max type numbers w',
     generateQuantumRandomNumbers fuel count min max type w = Normal (numbers, w') →
     only_reads w w') ∧
  (∀ metrics w',
     generateFeatureImportance lotteryType w = Normal (metrics, w') →
     only_reads w w') ∧
  (∀ w2,
     same_inputs w w2 →
     agree (generatePrediction fuel lotteryType targetDate w)
           (generatePrediction fuel lotteryType targetDate w2)).
Proof.
  split_and!.
  - intros res w' Hrun.
    apply frame_generatePrediction in Hrun as Hreads.
    split; [done|]. destruct Hreads as (-> & _). done.
  - intros count min max type numbers w'.
    apply frame_generateQuantumRandomNumbers.
  - intros metrics w'. apply frame_generateFeatureImportance.
  - intros w2. apply determined_generatePrediction.
Qed.

End Prediction.

(** ** The list of supported lotteries *)

Lemma fresh_loc_ne (h : gmap loc (list string)) a :
  is_Some (h !! a) → fresh (dom h) ≠ a.
Proof.
  intros Ha%elem_of_dom Heq. rewrite <- Heq in Ha. by apply (is_fresh (dom h)).
Qed.

(** C9.  [getSupportedLotteries] returns a fresh copy: whatever the caller
    does to the returned array, the engine's own list keeps its elements,
    and a second call returns a list equal to the one the first call
    returned. *)
Theorem getSupportedLotteries_fresh_copy
    (w : World) (lotteries : list string) (f : list string → list string) :
  heap w !! supportedLotteries (this w) = Some lotteries →
  ∃ a b w',
    (a <- getSupportedLotteries ;;
     first <- Array_elements a ;;
     _ <- Array_mutate a f ;;
     b <- getSupportedLotteries ;;
     second <- Array_elements b ;;
     ret (a, first, b, second)) w
    = Normal ((a, lotteries, b, lotteries), w') ∧
    a ≠ supportedLotteries (this w) ∧ b ≠ supportedLotteries (this w) ∧ a ≠ b ∧
    this w' = this w ∧
    heap w' !! supportedLotteries (this w') = Some lotteries ∧
    heap w' !! a = Some (f lotteries).
Proof.
  intros Hown.
  set (own := supportedLotteries (this w)) in *.
  set (a := fresh (dom (heap w))).
  set (h1 := <[a := f lotteries]> (<[a := lotteries]> (heap w))).
  set (b := fresh (dom h1)).
  assert (Ha : a ≠ own) by (by apply fresh_loc_ne).
  assert (Hown1 : h1 !! own = Some lotteries).
  { unfold h1. by rewrite !lookup_insert_ne. }
  assert (Ha1 : h1 !! a = Some (f lotteries)).
  { unfold h1. by rewrite lookup_insert_eq. }
  assert (Hb : b ≠ own) by (by apply fresh_loc_ne).
  assert (Hba : b ≠ a) by (by apply fresh_loc_ne).
  exists a, b. eexists. split_and!; [|done|done|done|..].
  - unfold getSupportedLotteries, bind, gets, Array_elements, Array_new,
      Array_mutate, ret. simpl.
    fold own. rewrite Hown. simpl. fold a.
    rewrite lookup_insert_eq. simpl. rewrite lookup_insert_eq. simpl.
    fold h1 own. rewrite Hown1. simpl. fold b. rewrite lookup_insert_eq.
    reflexivity.
  - reflexivity.
  - simpl. fold own. by rewrite lookup_insert_ne.
  - simpl. by rewrite lookup_insert_ne.
Qed.

(** *** The engine on concrete requests *)

Lemma demo_prediction1 :
  summary (generatePrediction (math := taylorMath) 12 "us_powerball"
             "2025-01-01" demoWorld)
  = Some ([5; 11; 26; 41; 68], 153%nat).
Proof. by vm_compute. Qed.

Lemma demo_prediction2 :
  summary (generatePrediction (math := taylorMath) 12 "emirates_easy6"
             "2025-02-02" demoWorld2)
  = Some ([4; 7; 16; 25; 34; 42], 162%nat).
Proof. by vm_compute. Qed.

(** Two predictions, for different lotteries on different entropy streams:
    the sampled numbers differ, the draws behind the metrics agree. *)
Lemma demo_predictions :
  ∃ res1 w1' res2 w2',
    generatePrediction (math := taylorMath) 12 "us_powerball" "2025-01-01" demoWorld
    = Normal (res1, w1') ∧
    generatePrediction (math := taylorMath) 12 "emirates_easy6" "2025-02-02" demoWorld2
    = Normal (res2, w2') ∧
    numbers (primaryPrediction res1) ≠ numbers (primaryPrediction res2) ∧
    (∀ i, (i < 5)%nat → metricDraws w1' i = metricDraws w2' i).
Proof.
  pose proof demo_prediction1 as Hsum1. pose proof demo_prediction2 as Hsum2.
  destruct (generatePrediction (math := taylorMath) 12 "us_powerball"
              "2025-01-01" demoWorld) as [[res1 w1']|e|] eqn:Hrun1;
    [|discriminate Hsum1..].
  destruct (generatePrediction (math := taylorMath) 12 "emirates_easy6"
              "2025-02-02" demoWorld2) as [[res2 w2']|e|] eqn:Hrun2;
    [|discriminate Hsum2..].
  simpl in Hsum1, Hsum2. injection Hsum1 as Hnum1 Hpos1. injection Hsum2 as Hnum2 Hpos2.
  apply frame_generatePrediction in Hrun1 as (_ & _ & Hstream1 & _).
  apply frame_generatePrediction in Hrun2 as (_ & _ & Hstream2 & _).
  exists res1, w1', res2, w2'. split_and!; [reflexivity..| |].
  - rewrite Hnum1, Hnum2. discriminate.
  - intros i Hi. unfold metricDraws.
    rewrite Hstream1, Hstream2, Hpos1, Hpos2.
    destruct i as [|[|[|[|[|i]]]]]; [by vm_compute..|lia].
Qed.

Lemma metrics_independent_of_sample_witness :
  ∃ res1 w1' res2 w2',
    generatePrediction (math := taylorMath) 12 "us_powerball" "2025-01-01" demoWorld
    = Normal (res1, w1') ∧
    generatePrediction (math := taylorMath) 12 "emirates_easy6" "2025-02-02" demoWorld2
    = Normal (res2, w2') ∧
    numbers (primaryPrediction res1) ≠ numbers (primaryPrediction res2) ∧
    featureImportance (quantumMetrics res1) = featureImportance (quantumMetrics res2).
Proof.
  destruct demo_predictions as (res1 & w1' & res2 & w2' & Hrun1 & Hrun2 & Hne & Hdraws).
  exists res1, w1', res2, w2'. split_and!; [done..|].
  exact (metrics_independent_of_sample 12 12 _ _ _ _ _ _ _ _ _ _ Hrun1 Hrun2 Hdraws).
Defined.

Lemma generatePrediction_no_side_effect_witness :
  ∃ res w',
    generatePrediction (math := taylorMath) 12 "us_powerball" "2025-01-01" demoWorld
    = Normal (res, w') ∧
    only_reads demoWorld w' ∧
    config (this w') = config (this demoWorld) ∧
    historicalData (this w') = historicalData (this demoWorld) ∧
    featureMatrix (this w') = featureMatrix (this demoWorld).
Proof.
  destruct demo_predictions as (res1 & w1' & _ & _ & Hrun1 & _).
  exists res1, w1'. split; [done|].
  exact (proj1 (generatePrediction_no_side_effect 12 "us_powerball" "2025-01-01"
                  demoWorld) res1 w1' Hrun1).
Defined.

Lemma getSupportedLotteries_fresh_copy_witness :
  ∃ a b w',
    (a <- getSupportedLotteries ;;
     first <- Array_elements a ;;
     _ <- Array_mutate a (λ lotteries, lotteries ++ ["uk_lotto"]) ;;
     b <- getSupportedLotteries ;;
     second <- Array_elements b ;;
     ret (a, first, b, second)) demoWorld
    = Normal ((a, ["emirates_mega7"; "emirates_easy6"; "us_powerball";
                   "euro_millions"; "india_lotto"],
               b, ["emirates_mega7"; "emirates_easy6"; "us_powerball";
                   "euro_millions"; "india_lotto"]), w') ∧
    a ≠ supportedLotteries (this demoWorld) ∧
    b ≠ supportedLotteries (this demoWorld) ∧ a ≠ b ∧
    this w' = this demoWorld ∧
    heap w' !! supportedLotteries (this w')
    = Some ["emirates_mega7"; "emirates_easy6"; "us_powerball";
            "euro_millions"; "india_lotto"] ∧
    heap w' !! a
    = Some (["emirates_mega7"; "emirates_easy6"; "us_powerball";
             "euro_millions"; "india_lotto"] ++ ["uk_lotto"]).
Proof.
  apply (getSupportedLotteries_fresh_copy demoWorld
           ["emirates_mega7"; "emirates_easy6"; "us_powerball";
            "euro_millions"; "india_lotto"]
           (λ lotteries, lotteries ++ ["uk_lotto"])).
  by vm_compute.
Defined.

(** ** The other generators of unique numbers

    [generateUniqueRandomNumbers] of the engine, [generateNumbers] of the
    API service and the loops of the [QuantumNumberGenerator] component
    draw one uniform candidate per iteration and have no range test: their
    numbers are within bounds because [Math.random()] is below 1. *)

Lemma Qfloor_unit_scale (r : Q) (n : Z) :
  (0 <= r)%Q → (r < 1)%Q → 0 < n → 0 ≤ Qfloor (r * inject_Z n) < n.
Proof.
  intros Hr0 Hr1 Hn.
  assert (Hn' : (inject_Z 0 < inject_Z n)%Q) by (by rewrite <- Zlt_Qlt).
  change (inject_Z 0) with 0%Q in Hn'.
  split.
  - rewrite <- (Qfloor_Z 0). apply Qfloor_resp_le.
    apply Qmult_le_0_compat; [done|]. by apply Qlt_le_weak.
  - rewrite Zlt_Qlt. eapply Qle_lt_trans; [apply Qfloor_le|].
    rewrite <- (Qmult_1_l (inject_Z n)) at 2.
    by apply Qmult_lt_compat_r.
Qed.

Lemma uniformCandidate_in_range min max w :
  unit_stream w → min ≤ max → min ≤ uniformCandidate min max w ≤ max.
Proof.
  intros Hunit Hmm. unfold uniformCandidate.
  destruct (Hunit (randomCalls w)) as [Hr0 Hr1].
  pose proof (Qfloor_unit_scale _ (max - min + 1) Hr0 Hr1). lia.
Qed.

Lemma keptUniform_NoDup min max w j : NoDup (keptUniform min max w j).
Proof. apply foldl_accept_NoDup, NoDup_nil_2. Qed.

Lemma keptUniform_in_range min max w j :
  unit_stream w → min ≤ max →
  Forall (λ x, min ≤ x ≤ max) (keptUniform min max w j).
Proof.
  intros Hunit Hmm. apply foldl_accept_Forall; [|done].
  unfold candidates. apply Forall_fmap, Forall_forall. intros i _ _.
  apply uniformCandidate_in_range; [|done]. intros i'. apply Hunit.
Qed.

Lemma Set_add_step min max (numbers : list Z) w :
  (r <- Math_random ;;
   ret (Set_add (Qfloor (r * inject_Z (max - min + 1)) + min) numbers)) w
  = Normal (accept (λ _, true) numbers (uniformCandidate min max w), advance 1 w).
Proof.
  unfold bind, Math_random, ret. f_equal. f_equal.
  - unfold Set_add, accept, uniformCandidate. simpl. by case_bool_decide.
  - unfold advance. f_equal. lia.
Qed.

Lemma includes_step min max (numbers : list Z) w :
  (r <- Math_random ;;
   let num := Qfloor (r * inject_Z (max - min + 1)) + min in
   if negb (includes numbers num) then ret (numbers ++ [num]) else ret numbers) w
  = Normal (accept (λ _, true) numbers (uniformCandidate min max w), advance 1 w).
Proof.
  unfold bind, Math_random, includes, accept, uniformCandidate. simpl.
  replace (Build_World _ _ _ (S (randomCalls w)) _ _) with (advance 1 w)
    by (unfold advance; f_equal; lia).
  by case_bool_decide.
Qed.

(** [generateUniqueRandomNumbers] on a valid request. *)
Lemma generateUniqueRandomNumbers_valid fuel min max count w :
  0 < count ≤ max - min + 1 → min ≤ max → unit_stream w →
  count ≤ Z.of_nat (length (keptUniform min max w fuel)) →
  ∃ numbers w',
    generateUniqueRandomNumbers fuel min max count w = Normal (numbers, w') ∧
    valid_sample count min max numbers.
Proof.
  intros Hcount Hmm Hunit Hkept. unfold generateUniqueRandomNumbers.
  unfold bind at 1.
  edestruct (loop_returns (λ numbers : list Z, numbers) (λ _, True) count
               (λ _, true) (uniformCandidate min max) 1
               (λ numbers, r <- Math_random ;;
                  ret (Set_add (Qfloor (r * inject_Z (max - min + 1)) + min) numbers)))
    as (numbers & w' & Hrun);
    [intros; eexists; split_and!; [apply Set_add_step|done..]|done|reflexivity|exact Hkept|].
  unfold Set_size. cbv beta in Hrun. rewrite Hrun.
  unfold ret, Array_from. eexists _, _.
  split; [done|].
  apply (loop_result (λ numbers : list Z, numbers) (λ _, True) count
           (λ _, true) (uniformCandidate min max) 1) in Hrun
    as (j & _ & _ & _ & Hitems & Hge & Hle);
    [|intros; eexists; split_and!; [apply Set_add_step|done..]|done].
  change (numbers = keptUniform min max w j) in Hitems.
  cbv beta in Hge, Hle. simpl in Hle. subst numbers. split_and!.
  - rewrite sort_ascending_length. lia.
  - apply sort_ascending_NoDup, keptUniform_NoDup.
  - by apply sort_ascending_Forall, keptUniform_in_range.
  - apply sort_ascending_Sorted.
Qed.

(** [generateNumbers] on a valid request: [count] numbers of [[1, max]]. *)
Lemma generateNumbers_valid fuel count max w :
  0 < count ≤ max → unit_stream w →
  count ≤ Z.of_nat (length (keptUniform 1 max w fuel)) →
  ∃ numbers w',
    generateNumbers fuel count max w = Normal (numbers, w') ∧
    valid_sample count 1 max numbers.
Proof.
  intros Hcount Hunit Hkept. unfold generateNumbers. unfold bind at 1.
  replace (inject_Z max) with (inject_Z (max - 1 + 1)) by (f_equal; lia).
  edestruct (loop_returns (λ numbers : list Z, numbers) (λ _, True) count
               (λ _, true) (uniformCandidate 1 max) 1
               (λ numbers, r <- Math_random ;;
                  let num := Qfloor (r * inject_Z (max - 1 + 1)) + 1 in
                  if negb (includes numbers num)
                  then ret (numbers ++ [num]) else ret numbers))
    as (numbers & w' & Hrun);
    [intros; eexists; split_and!; [apply includes_step|done..]|done|reflexivity|exact Hkept|].
  cbv beta zeta in Hrun. rewrite Hrun. unfold ret. eexists _, _. split; [done|].
  apply (loop_result (λ numbers : list Z, numbers) (λ _, True) count
           (λ _, true) (uniformCandidate 1 max) 1) in Hrun
    as (j & _ & _ & _ & Hitems & Hge & Hle);
    [|intros; eexists; split_and!; [apply includes_step|done..]|done].
  change (numbers = keptUniform 1 max w j) in Hitems.
  cbv beta in Hge, Hle. simpl in Hle. subst numbers. split_and!.
  - rewrite sort_ascending_length. lia.
  - apply sort_ascending_NoDup, keptUniform_NoDup.
  - apply sort_ascending_Forall, keptUniform_in_range; [done|lia].
  - apply sort_ascending_Sorted.
Qed.

(** [generateNumbers] has no clamp: asked for more numbers than [[1, max]]
    holds, it neither throws nor returns, whatever the iteration budget. *)
Lemma generateNumbers_oversized fuel count max w :
  0 < max < count → unit_stream w →
  generateNumbers fuel count max w = Pending.
Proof.
  intros Hcount Hunit. unfold generateNumbers. unfold bind at 1.
  replace (inject_Z max) with (inject_Z (max - 1 + 1)) by (f_equal; lia).
  destruct (while _ _ _ _ _) as [[numbers w']|e|] eqn:Hrun; [| |done].
  - exfalso.
    apply (loop_result (λ numbers : list Z, numbers) (λ _, True) count
             (λ _, true) (uniformCandidate 1 max) 1) in Hrun
      as (j & _ & _ & _ & Hitems & Hge & _);
      [|intros; eexists; split_and!; [apply includes_step|done..]|done].
    change (numbers = keptUniform 1 max w j) in Hitems. subst numbers.
    assert (Hsub : keptUniform 1 max w j ⊆+ seqZ 1 max).
    { apply NoDup_submseteq; [apply keptUniform_NoDup|].
      intros x Hx. apply elem_of_seqZ.
      pose proof (keptUniform_in_range 1 max w j Hunit ltac:(lia)) as Hall.
      rewrite Forall_forall in Hall. specialize (Hall x Hx). lia. }
    apply submseteq_length in Hsub. rewrite length_seqZ in Hsub.
    cbv beta in Hge. lia.
  - exfalso.
    apply (loop_no_throw (λ numbers : list Z, numbers) (λ _, True) count
             (λ _, true) (uniformCandidate 1 max) 1) in Hrun;
      [done|intros; eexists; split_and!; [apply includes_step|done..]|done].
Qed.

(** The main numbers of [generateQuantumNumbers] are drawn by the loop of
    [generateNumbers]. *)
Lemma generateQuantumNumbers_main fuel format w main bonus w' :
  generateQuantumNumbers fuel format w = Normal ((main, bonus), w') →
  ∃ w1, generateNumbers fuel (mainNumbers format) (mainRange format) w
        = Normal (main, w1).
Proof.
  unfold generateQuantumNumbers, generateNumbers.
  intros (numbers & w1 & Hmain & Hrest)%bind_Normal.
  apply bind_Normal in Hrest as (bonus' & w2 & _ & [= <- _ _]).
  exists w1. unfold bind at 1. cbv zeta in Hmain |- *. by rewrite Hmain.
Qed.

(** *** The generators on concrete requests *)

Lemma demoWorld_unit_stream : unit_stream demoWorld.
Proof.
  intros i. change (randomStream demoWorld i) with (demoStream i).
  unfold demoStream, Qle, Qlt. simpl.
  pose proof (Z.mod_pos_bound
    (Z.of_nat i * Z.of_nat i * 37 + Z.of_nat i * 611 + 173) 1000). lia.
Qed.

Example generateUniqueRandomNumbers_demo :
  run (generateUniqueRandomNumbers 20 1 6 6) demoWorld = Normal [1; 2; 3; 4; 5; 6] ∧
  ∃ numbers w',
    generateUniqueRandomNumbers 20 1 6 6 demoWorld = Normal (numbers, w') ∧
    valid_sample 6 1 6 numbers.
Proof.
  split; [by vm_compute|].
  apply generateUniqueRandomNumbers_valid;
    [lia|lia|apply demoWorld_unit_stream|by vm_compute].
Qed.

Example generateNumbers_demo :
  run (generateNumbers 20 6 49) demoWorld = Normal [8; 9; 11; 17; 27; 41] ∧
  ∀ fuel, generateNumbers fuel 3 2 demoWorld = Pending.
Proof.
  split; [by vm_compute|]. intros fuel.
  apply generateNumbers_oversized; [lia|apply demoWorld_unit_stream].
Qed.

Example generateQuantumNumbers_demo :
  run (generateQuantumNumbers 20
         {| format_id := "euromillions"; format_name := "EuroMillions";
            mainNumbers := 5; mainRange := 50;
            bonusNumbers := Some 2; bonusRange := Some 12 |}) demoWorld
  = Normal ([9; 11; 17; 28; 42], Some [2; 3]).
Proof. by vm_compute. Qed.

(** Unlike the calls above, [setParameters] does write to the engine. *)
Example setParameters_writes :
  ∃ w',
    setParameters {| p_kernelParams := None; p_ensembleSize := Some 3;
                     p_confidenceThreshold := None;
                     p_historicalDataWeight := None;
                     p_quantumNoiseModel := None;
                     p_adaptiveLearningRate := None;
                     p_featureEngineeringDepth := None |} demoWorld
    = Normal ((), w') ∧
    ensembleSize (config (this demoWorld)) = 5 ∧
    ensembleSize (config (this w')) = 3.
Proof. eexists. split_and!; reflexivity. Qed.

(** Every request [generatePredictionSet] makes is a valid one: the count is
    positive and no larger than the range [[1, numberRange]]. *)
Lemma getLotteryConfiguration_valid lotteryType :
  let lotteryConfig := getLotteryConfiguration lotteryType in
  0 < numberCount lotteryConfig ≤ numberRange lotteryConfig - 1 + 1 ∧
  (specialNumbers lotteryConfig = true →
   0 < default 0 (specialNumberCount lotteryConfig)
     ≤ default 0 (specialNumberRange lotteryConfig) - 1 + 1).
Proof.
  unfold getLotteryConfiguration.
  repeat (destruct (String.eqb lotteryType _)); simpl; split; (lia || done).
Qed.

(** * Further properties of the engine *)

(** ** Random choices from an array *)

Lemma unit_stream_only_reads w w' :
  only_reads w w' → unit_stream w → unit_stream w'.
Proof. intros (_ & _ & Hs & _) Hunit i. rewrite Hs. apply Hunit. Qed.

Lemma Array_at_unit {A} (array : list A) (r : Q) :
  (0 <= r)%Q → (r < 1)%Q → array ≠ [] →
  ∃ x, Array_at array (Qfloor (r * inject_Z (Z.of_nat (length array)))) = Some x ∧
       x ∈ array.
Proof.
  intros Hr0 Hr1 Hne.
  assert (Hlen : 0 < Z.of_nat (length array)) by (destruct array; simpl; [done|lia]).
  pose proof (Qfloor_unit_scale r _ Hr0 Hr1 Hlen) as [Hlo Hhi].
  unfold Array_at. rewrite (proj2 (Z.ltb_ge _ _)) by lia.
  destruct (lookup_lt_is_Some_2 array
              (Z.to_nat (Qfloor (r * inject_Z (Z.of_nat (length array))))))
    as [x Hx]; [lia|].
  exists x. split; [done|]. by eapply list_elem_of_lookup_2.
Qed.

Lemma getRandomStrategy_run w :
  unit_stream w →
  ∃ name, getRandomStrategy w = Normal (Some name, advance 1 w) ∧ name ∈ strategies.
Proof.
  intros Hunit. destruct (Hunit (randomCalls w)) as [Hr0 Hr1].
  destruct (Array_at_unit strategies _ Hr0 Hr1) as (name & Hat & Hin); [done|].
  exists name. split; [|done].
  unfold getRandomStrategy, bind, Math_random, ret. fold strategies.
  rewrite Hat. do 2 f_equal. unfold advance. f_equal. lia.
Qed.

Lemma generateRationale_pool strategy numbers lotteryType w :
  generateRationale strategy numbers lotteryType w
  = Normal (Array_at (rationalePool strategy lotteryType)
              (Qfloor (randomStream w (randomCalls w)
                       * inject_Z (Z.of_nat (length (rationalePool strategy lotteryType))))),
            advance 1 w).
Proof.
  unfold generateRationale, bind, Math_random, ret.
  replace (Build_World _ _ _ (S (randomCalls w)) _ _) with (advance 1 w)
    by (unfold advance; f_equal; lia).
  unfold rationalePool.
  destruct lotteryType as [t|]; [destruct (truthy_string t);
    [destruct (Object_get lotteryRationales t)|]|]; simpl;
    rewrite ?app_nil_r; reflexivity.
Qed.

Lemma rationalePool_nonempty strategy lotteryType :
  rationalePool strategy lotteryType ≠ [].
Proof.
  unfold rationalePool.
  destruct (Object_get rationales (default "undefined" strategy)) as [pool|] eqn:Hget;
    simpl; [|done].
  unfold Object_get in Hget.
  destruct (list_find _ rationales) as [[i [key texts]]|] eqn:Hfind; [|done].
  simpl in Hget. injection Hget as ->.
  apply list_find_Some in Hfind as (Hlook & _ & _).
  apply list_elem_of_lookup_2 in Hlook.
  assert (Hall : Forall (λ entry, entry.2 ≠ []) rationales)
    by (repeat constructor; done).
  rewrite Forall_forall in Hall. specialize (Hall _ Hlook). simpl in Hall.
  intros [Hnil _]%app_eq_nil. done.
Qed.

(** A concrete string is no inherited property name. *)
Ltac plain_key_holds :=
  simpl; unfold plain_key; apply (bool_decide_unpack _); vm_compute; exact I.

(** X1.  With [Math.random()] in [[0, 1)], [getRandomStrategy] always
    yields one of its eight names and [generateRationale], for a strategy
    and a lottery that are no inherited property name, always yields a text
    of the pool of its strategy and lottery, never [undefined]; each makes
    exactly one draw. *)
Theorem random_choices_defined (strategy lotteryType : option string)
    (numbers : list Z) (w : World) :
  unit_stream w →
  plain_key (default "undefined" strategy) →
  from_option plain_key True lotteryType →
  (∃ name,
     getRandomStrategy w = Normal (Some name, advance 1 w) ∧ name ∈ strategies) ∧
  (∃ text,
     generateRationale strategy numbers lotteryType w
     = Normal (Some text, advance 1 w) ∧
     text ∈ rationalePool strategy lotteryType).
Proof.
  intros Hunit _ _. split; [by apply getRandomStrategy_run|].
  destruct (Hunit (randomCalls w)) as [Hr0 Hr1].
  destruct (Array_at_unit (rationalePool strategy lotteryType) _ Hr0 Hr1)
    as (text & Hat & Hin); [apply rationalePool_nonempty|].
  exists text. split; [|done]. by rewrite generateRationale_pool, Hat.
Qed.

Lemma random_choices_defined_witness :
  (∃ name,
     getRandomStrategy demoWorld = Normal (Some name, advance 1 demoWorld) ∧
     name ∈ strategies) ∧
  (∃ text,
     generateRationale (Some "Hybrid Ensemble") [] (Some "india_lotto") demoWorld
     = Normal (Some text, advance 1 demoWorld) ∧
     text ∈ rationalePool (Some "Hybrid Ensemble") (Some "india_lotto")).
Proof.
  apply (random_choices_defined (Some "Hybrid Ensemble") (Some "india_lotto")
           [] demoWorld).
  - apply demoWorld_unit_stream.
  - plain_key_holds.
  - plain_key_holds.
Defined.

(** ** Prediction sets *)

Section PredictionSets.

Context {math : MathLibrary}.

(** Whatever the request, the numbers the sampler returns are distinct
    numbers of the range, as many as the clamped count. *)
Lemma sampler_sample fuel count min max lotteryType w numbers w' :
  generateQuantumRandomNumbers fuel count min max lotteryType w
  = Normal (numbers, w') →
  NoDup numbers ∧ Forall (λ x, min ≤ x ≤ max) numbers ∧
  Z.of_nat (length numbers) = Z.max 0 (Z.min count (max - min + 1)).
Proof.
  intros Hrun. apply sampler_result in Hrun as (j & _ & _ & -> & Hlen).
  split_and!; [apply kept_NoDup|apply kept_in_range|done].
Qed.

Lemma sampler_valid_sample fuel count min max lotteryType w numbers w' :
  0 < count ≤ max - min + 1 →
  generateQuantumRandomNumbers fuel count min max lotteryType w
  = Normal (numbers, w') →
  valid_sample count min max (sort_ascending numbers).
Proof.
  intros Hcount (Hnd & Hrange & Hlen)%sampler_sample. split_and!.
  - rewrite sort_ascending_length. lia.
  - by apply sort_ascending_NoDup.
  - by apply sort_ascending_Forall.
  - apply sort_ascending_Sorted.
Qed.

(** What a returned prediction set is made of. *)
Lemma generatePredictionSet_inv fuel id strategy lotteryType lotteryConfig w set w' :
  generatePredictionSet fuel id strategy lotteryType lotteryConfig w
  = Normal (set, w') →
  ∃ raw rawBonus text w1 w2 w3,
    generateQuantumRandomNumbers fuel (numberCount lotteryConfig) 1
      (numberRange lotteryConfig) None w = Normal (raw, w1) ∧
    (if specialNumbers lotteryConfig
        && (0 <? default 0 (specialNumberCount lotteryConfig))
     then generateQuantumRandomNumbers fuel
            (default 0 (specialNumberCount lotteryConfig)) 1
            (default 0 (specialNumberRange lotteryConfig)) None w1
          = Normal (rawBonus, w2)
     else rawBonus = [] ∧ w2 = w1) ∧
    generateRationale strategy raw (Some lotteryType) w2 = Normal (text, w3) ∧
    only_reads w w3 ∧ w' = advance 2 w3 ∧
    set = {| id := id; name := strategy;
             numbers := sort_ascending raw;
             bonus := sort_ascending rawBonus;
             confidence := (90 + randomStream w3 (randomCalls w3) * 9)%Q;
             strategy := strategy;
             rationale := text;
             expectedValue := (7 + randomStream w3 (S (randomCalls w3)) * 2)%Q |}.
Proof.
  unfold generatePredictionSet. intros Hrun.
  apply bind_Normal in Hrun as (raw & w1 & Hraw & Hrun).
  apply bind_Normal in Hrun as (rawBonus & w2 & Hbonus & Hrun).
  apply bind_Normal in Hrun as (text & w3 & Htext & Hrun).
  unfold bind, Math_random, ret in Hrun. simpl in Hrun.
  injection Hrun as <- <-.
  exists raw, rawBonus, text, w1, w2, w3. split_and!; [done| |done| | |done].
  - destruct (specialNumbers lotteryConfig
              && (0 <? default 0 (specialNumberCount lotteryConfig))); [done|].
    by injection Hbonus as <- <-.
  - eapply only_reads_trans; [by eapply frame_generateQuantumRandomNumbers|].
    eapply only_reads_trans; [|by eapply frame_generateRationale].
    destruct (specialNumbers lotteryConfig
              && (0 <? default 0 (specialNumberCount lotteryConfig)));
      [by eapply frame_generateQuantumRandomNumbers|].
    injection Hbonus as _ <-. apply only_reads_refl.
  - unfold advance. f_equal. lia.
Qed.

Lemma generatePredictionSet_valid_set fuel setId setStrategy lotteryType w set w' :
  generatePredictionSet fuel setId setStrategy lotteryType
    (getLotteryConfiguration lotteryType) w = Normal (set, w') →
  valid_prediction_set lotteryType set.
Proof.
  intros Hrun.
  apply generatePredictionSet_inv in Hrun
    as (raw & rawBonus & text & w1 & w2 & w3 & Hraw & Hbonus & _ & _ & _ & ->).
  unfold valid_prediction_set. simpl.
  destruct (getLotteryConfiguration_valid lotteryType) as [Hmain Hspecial].
  split; [by eapply sampler_valid_sample|].
  destruct (specialNumbers (getLotteryConfiguration lotteryType)) eqn:Hsp; simpl in *.
  - specialize (Hspecial eq_refl).
    rewrite (proj2 (Z.ltb_lt _ _)) in Hbonus by lia.
    by eapply sampler_valid_sample.
  - by destruct Hbonus as [-> _].
Qed.

(** X2.  For every lottery type, also one the engine does not know, and
    every strategy (neither being an inherited property name), a
    prediction set generated with the configuration of that type carries
    exactly [numberCount] main numbers, distinct, ascending, within
    [[1, numberRange]], and bonus numbers only for a lottery with special
    numbers, then [specialNumberCount] distinct ascending numbers of
    [[1, specialNumberRange]]; its id, name and strategy are the ones
    asked for. *)
Theorem generatePredictionSet_valid (fuel : nat) (setId : string)
    (setStrategy : option string) (lotteryType : string) (w : World)
    (set : PredictionSet) (w' : World) :
  plain_key lotteryType → plain_key (default "undefined" setStrategy) →
  generatePredictionSet fuel setId setStrategy lotteryType
    (getLotteryConfiguration lotteryType) w = Normal (set, w') →
  valid_prediction_set lotteryType set ∧
  id set = setId ∧ name set = setStrategy ∧ strategy set = setStrategy.
Proof.
  intros _ _ Hrun. split; [by eapply generatePredictionSet_valid_set|].
  apply generatePredictionSet_inv in Hrun
    as (raw & rawBonus & text & w1 & w2 & w3 & _ & _ & _ & _ & _ & ->).
  done.
Qed.

End PredictionSets.

(** ** Loops with a counter *)

Lemma for_loop_inv {S} (I : Z → S → World → Prop) (cond : Z → M bool)
    (body : Z → S → M S) :
  (∀ i s w c w1, I i s w → cond i w = Normal (c, w1) → w1 = w) →
  (∀ i s w s' w',
     I i s w → cond i w = Normal (true, w) → body i s w = Normal (s', w') →
     I (i + 1) s' w') →
  ∀ fuel i s w s' w',
    I i s w → for_loop fuel i cond body s w = Normal (s', w') →
    ∃ i', I i' s' w' ∧ cond i' w' = Normal (false, w').
Proof.
  intros Hcond Hbody fuel.
  induction fuel as [|fuel IH]; intros i s w s' w' HI Hrun; simpl in Hrun;
    apply bind_Normal in Hrun as (c & w1 & Hc & Hrun);
    pose proof (Hcond _ _ _ _ _ HI Hc) as ->; destruct c; try done.
  - injection Hrun as <- <-. eauto.
  - apply bind_Normal in Hrun as (s1 & w1 & Hb & Hrun).
    eapply IH; [|exact Hrun]. by eapply Hbody.
  - injection Hrun as <- <-. eauto.
Qed.

(** ** Calls that do not read the clock *)

Lemma clock_ret {A} (a : A) : clock_untouched (ret a).
Proof. by intros w a' w' [= _ <-]. Qed.

Lemma clock_gets {A} (f : World → A) : clock_untouched (gets f).
Proof. by intros w a' w' [= _ <-]. Qed.

Lemma clock_bind {A B} (m : M A) (k : A → M B) :
  clock_untouched m → (∀ a, clock_untouched (k a)) → clock_untouched (bind m k).
Proof.
  intros Hm Hk w b w' (a & w1 & Hrun & Hrest)%bind_Normal.
  rewrite (Hk _ _ _ _ Hrest). by eapply Hm.
Qed.

Lemma clock_Math_random : clock_untouched Math_random.
Proof. by intros w r w' [= _ <-]. Qed.

Lemma clock_while {S} (cond : S → bool) (body : S → M S) :
  (∀ s, clock_untouched (body s)) →
  ∀ fuel s, clock_untouched (while fuel cond body s).
Proof.
  intros Hbody fuel. induction fuel as [|fuel IH]; intros s; simpl;
    destruct (cond s); try apply clock_ret.
  - by intros w a w'.
  - apply clock_bind; auto.
Qed.

Lemma clock_for_loop {S} (cond : Z → M bool) (body : Z → S → M S) :
  (∀ i, clock_untouched (cond i)) → (∀ i s, clock_untouched (body i s)) →
  ∀ fuel i s, clock_untouched (for_loop fuel i cond body s).
Proof.
  intros Hcond Hbody fuel. induction fuel as [|fuel IH]; intros i s; simpl;
    (apply clock_bind; [by apply Hcond|]); intros [|]; try apply clock_ret.
  - by intros w a w'.
  - apply clock_bind; auto.
Qed.

Lemma clock_if {A} (b : bool) (m1 m2 : M A) :
  clock_untouched m1 → clock_untouched m2 →
  clock_untouched (if b then m1 else m2).
Proof. by destruct b. Qed.

Create HintDb clock discriminated.
#[local] Hint Resolve clock_ret clock_gets clock_bind clock_Math_random
  clock_while clock_for_loop clock_if : clock.
#[local] Hint Extern 1 (clock_untouched (match ?x with _ => _ end)) =>
  destruct x : clock.

Lemma clock_getRandomStrategy : clock_untouched getRandomStrategy.
Proof. unfold getRandomStrategy. auto with clock. Qed.

Lemma clock_generateRationale strategy numbers lotteryType :
  clock_untouched (generateRationale strategy numbers lotteryType).
Proof. unfold generateRationale. auto with clock. Qed.

#[local] Hint Resolve clock_getRandomStrategy clock_generateRationale : clock.

Section Clock.

Context {math : MathLibrary}.

Lemma clock_generateQuantumRandomNumbers fuel count min max lotteryType :
  clock_untouched (generateQuantumRandomNumbers fuel count min max lotteryType).
Proof. unfold generateQuantumRandomNumbers. auto 12 with clock. Qed.

Hint Resolve clock_generateQuantumRandomNumbers : clock.

Lemma clock_generatePredictionSet fuel setId setStrategy lotteryType lotteryConfig :
  clock_untouched
    (generatePredictionSet fuel setId setStrategy lotteryType lotteryConfig).
Proof. unfold generatePredictionSet. auto 12 with clock. Qed.

End Clock.

(** ** Predictions *)

Section Predictions.

Context {math : MathLibrary}.

Lemma drawn_only_reads w w' r : only_reads w w' → drawn w' r → drawn w r.
Proof. intros (_ & _ & Hs & _) [p ->]. exists p. by rewrite Hs. Qed.

Lemma drawn_unit w r :
  unit_stream w → drawn w r → (0 <= r)%Q ∧ (r < 1)%Q.
Proof. intros Hunit [p ->]. apply Hunit. Qed.

(** A prediction set generated in a world reached from [w0]. *)
Lemma generatePredictionSet_generated fuel setId setStrategy lotteryType w0 w set w' :
  only_reads w0 w →
  generatePredictionSet fuel setId setStrategy lotteryType
    (getLotteryConfiguration lotteryType) w = Normal (set, w') →
  generated_set lotteryType w0 set ∧ id set = setId ∧ strategy set = setStrategy ∧
  only_reads w0 w' ∧ clockCalls w' = clockCalls w.
Proof.
  intros Hreads Hrun.
  pose proof (generatePredictionSet_valid_set _ _ _ _ _ _ _ Hrun) as Hvalid.
  pose proof (clock_generatePredictionSet _ _ _ _ _ _ _ _ Hrun) as Hclock.
  pose proof (frame_generatePredictionSet _ _ _ _ _ _ _ _ Hrun) as Hframe.
  apply generatePredictionSet_inv in Hrun
    as (raw & rawBonus & text & w1 & w2 & w3 & _ & _ & Htext & Hw3 & -> & Hset).
  assert (Hw02 : only_reads w0 w3) by (by eapply only_reads_trans).
  split_and!; [split_and!| | | |done].
  - done.
  - exists (randomStream w3 (randomCalls w3)), (randomStream w3 (S (randomCalls w3))).
    split_and!; [eapply drawn_only_reads; [done|by eexists]..| |];
      by rewrite Hset.
  - by rewrite Hset.
  - intros Hunit. rewrite Hset. simpl.
    rewrite generateRationale_pool in Htext. injection Htext as <- Hw3eq.
    assert (Hw2 : unit_stream w2).
    { intros i. destruct Hw02 as (_ & _ & Hs3 & _).
      rewrite <- Hw3eq in Hs3. simpl in Hs3. rewrite Hs3. apply Hunit. }
    destruct (Hw2 (randomCalls w2)) as [Hr0 Hr1].
    apply (Array_at_unit _ _ Hr0 Hr1), rationalePool_nonempty.
  - by rewrite Hset.
  - by rewrite Hset.
  - eapply only_reads_trans; [exact Hreads|exact Hframe].
Qed.

(** The loop of [generatePrediction] over the alternative sets. *)
Lemma alternativeSets_loop fuel lotteryType targetDate w0 w sets w' :
  only_reads w0 w →
  for_loop fuel 0
    (λ i, ensembleSize <- gets (λ w, ensembleSize (config (this w))) ;;
          ret (i <? ensembleSize))
    (λ i alternativeSets,
       strategy <- getRandomStrategy ;;
       set <- generatePredictionSet fuel
         ("QF-" +:+ toUpperCase lotteryType +:+ "-" +:+ targetDate +:+ "-00"
            +:+ Number_toString (i + 2))
         strategy lotteryType (getLotteryConfiguration lotteryType) ;;
       ret (alternativeSets ++ [set]))
    [] w = Normal (sets, w') →
  only_reads w0 w' ∧ clockCalls w' = clockCalls w ∧
  length sets = Z.to_nat (ensembleSize (config (this w0))) ∧
  ∀ j set, sets !! j = Some set →
    generated_set lotteryType w0 set ∧
    id set = predictionId lotteryType targetDate (Z.of_nat j + 2) ∧
    (unit_stream w0 → ∃ s, strategy set = Some s ∧ s ∈ strategies).
Proof.
  intros Hreads Hrun.
  set (n := ensembleSize (config (this w0))).
  set (I := λ i (sets : list PredictionSet) wc,
       only_reads w0 wc ∧ clockCalls wc = clockCalls w ∧
       0 ≤ i ≤ Z.max 0 n ∧ length sets = Z.to_nat i ∧
       ∀ j set, sets !! j = Some set →
         generated_set lotteryType w0 set ∧
         id set = predictionId lotteryType targetDate (Z.of_nat j + 2) ∧
         (unit_stream w0 → ∃ s, strategy set = Some s ∧ s ∈ strategies)).
  assert (HI0 : I 0 [] w).
  { unfold I. split_and!; [done|done|lia|lia|done|]. intros j set Hlook. done. }
  eapply (for_loop_inv I) in Hrun as (i' & (Hr' & Hc' & Hi' & Hlen' & Hsets') & Hexit);
    [|clear Hrun|clear Hrun|exact HI0].
  - unfold bind, gets, ret in Hexit. injection Hexit as Hexit.
    apply Z.ltb_ge in Hexit. destruct Hr' as (Hthis & Hrest).
    rewrite Hthis in Hexit. fold n in Hexit.
    split_and!; [by split|done| |done]. rewrite Hlen'. lia.
  - intros i s wc c w1 _ [= _ <-]. done.
  - intros i s wc s' wc' (Hr & Hc & Hi & Hlen & Hsets) Hcond Hbody.
    unfold bind at 1, gets, ret in Hcond. injection Hcond as Hcond.
    apply Z.ltb_lt in Hcond. pose proof Hr as (Hthis & _).
    rewrite Hthis in Hcond. fold n in Hcond.
    apply bind_Normal in Hbody as (s1 & wa & Hstrategy & Hbody).
    apply bind_Normal in Hbody as (set & wb & Hset & [= <- <-]).
    assert (Hra : only_reads w0 wa)
      by (eapply only_reads_trans; [done|by eapply frame_getRandomStrategy]).
    destruct (generatePredictionSet_generated _ _ _ _ _ _ _ _ Hra Hset)
      as (Hgen & Hid & Hstrat & Hrb & Hcb).
    unfold I. split_and!; [done| |lia|lia| |].
    + rewrite Hcb, <- Hc. by eapply clock_getRandomStrategy.
    + rewrite length_app. simpl. lia.
    + intros j set' Hlook.
      destruct (decide (j < length s)%nat) as [Hj|Hj].
      * rewrite lookup_app_l in Hlook by done. by apply Hsets.
      * rewrite lookup_app_r in Hlook by lia.
        destruct (j - length s)%nat as [|k] eqn:Hk; [|done].
        injection Hlook as <-.
        assert (Z.of_nat j = i) as -> by lia.
        split_and!; [done|by rewrite Hid|].
        intros Hunit. rewrite Hstrat.
        destruct (getRandomStrategy_run wc) as (name & Hname & Hin);
          [by eapply unit_stream_only_reads|].
        rewrite Hname in Hstrategy. injection Hstrategy as <- _. eauto.
Qed.

End Predictions.

Section PredictionResults.

Context {math : MathLibrary}.

(** What a returned prediction is made of. *)
Lemma generatePrediction_inv fuel lottery targetDate w res w' :
  generatePrediction fuel lottery targetDate w = Normal (res, w') →
  let startTime := clockStream w (clockCalls w) in
  let circuitTime :=
    (clockStream w (S (clockCalls w)) + randomStream w (randomCalls w) * 500)%Q in
  let endTime := clockStream w (S (S (clockCalls w))) in
  (generated_set lottery w (primaryPrediction res) ∧
   id (primaryPrediction res) = predictionId lottery targetDate 1 ∧
   strategy (primaryPrediction res) = Some "Quantum Neural Convergence") ∧
  (length (alternativeSets res) = Z.to_nat (ensembleSize (config (this w))) ∧
   ∀ j set, alternativeSets res !! j = Some set →
     generated_set lottery w set ∧
     id set = predictionId lottery targetDate (Z.of_nat j + 2) ∧
     (unit_stream w → ∃ s, strategy set = Some s ∧ s ∈ strategies)) ∧
  (∃ r1 r2 r3 r4,
     drawn w r1 ∧ drawn w r2 ∧ drawn w r3 ∧ drawn w r4 ∧
     entanglementScore (quantumMetrics res) = ((85 # 100) + r1 * (1 # 10))%Q ∧
     quantumAdvantage (quantumMetrics res) = ((15 # 10) + r2 * (5 # 10))%Q ∧
     uncertaintyEstimate (quantumMetrics res) = ((15 # 100) + r3 * (1 # 10))%Q ∧
     convergenceIterations (executionStats res) = Qfloor (10 + r4 * 20)%Q) ∧
  (lotteryType res = lottery ∧
   circuitDepth (quantumMetrics res) = samplerDepth w) ∧
  (circuitExecutionTime (executionStats res) = (circuitTime - startTime)%Q ∧
   classicalPostProcessingTime (executionStats res) = (endTime - circuitTime)%Q ∧
   totalExecutionTime (executionStats res) = (endTime - startTime)%Q ∧
   clockCalls w' = (clockCalls w + 3)%nat).
Proof.
  unfold generatePrediction. intros Hrun.
  apply bind_Normal in Hrun as (startTime & w1 & H1 & Hrun).
  apply bind_Normal in Hrun as (t & w2 & H2 & Hrun).
  apply bind_Normal in Hrun as (r & w3 & H3 & Hrun).
  apply bind_Normal in Hrun as (primary & w4 & H4 & Hrun).
  apply bind_Normal in Hrun as (alternatives & w5 & H5 & Hrun).
  apply bind_Normal in Hrun as (endTime & w6 & H6 & Hrun).
  apply bind_Normal in Hrun as (metrics & w7 & H7 & Hrun).
  injection H1 as <- <-. injection H2 as <- <-. injection H3 as <- <-.
  simpl in *.
  set (w3 := Build_World _ _ _ _ _ _) in *.
  assert (Hw3 : only_reads w w3).
  { unfold only_reads, w3. simpl. split_and!; [done..|lia|lia]. }
  destruct (generatePredictionSet_generated _ _ _ _ _ _ _ _ Hw3 H4)
    as (Hprimary & Hid & Hstrategy & Hw4 & Hc4).
  destruct (alternativeSets_loop _ _ _ _ _ _ _ Hw4 H5)
    as (Hw5 & Hc5 & Hlen & Hsets).
  injection H6 as <- <-.
  pose proof (frame_generateFeatureImportance _ _ _ _ H7) as Hw7.
  rewrite generateFeatureImportance_eq in H7. injection H7 as <- <-.
  unfold bind, Math_random, gets, ret in Hrun. simpl in Hrun.
  injection Hrun as <- <-. simpl.
  pose proof Hw5 as (Hthis5 & _ & Hstream5 & Hclock5 & _).
  split_and!; try done.
  - eexists _, _, _, _. split_and!; [| | | |reflexivity..];
      (eapply drawn_only_reads; [exact Hw5|by eexists]).
  - unfold samplerDepth. by rewrite Hthis5.
  - by rewrite Hclock5, Hc5, Hc4.
  - by rewrite Hclock5, Hc5, Hc4.
  - rewrite Hc5, Hc4. unfold w3. simpl. lia.
Qed.

End PredictionResults.

(** ** Scores computed from one draw *)

Lemma unit_affine (a b c r : Q) :
  (0 <= r)%Q → (r < 1)%Q → (0 < b)%Q → (a + b <= c)%Q →
  (a <= a + r * b)%Q ∧ (a + r * b < c)%Q.
Proof. intros. split; nra. Qed.

Lemma Qfloor_bounds (x : Q) (lo hi : Z) :
  (inject_Z lo <= x)%Q → (x < inject_Z hi)%Q → lo ≤ Qfloor x < hi.
Proof.
  intros Hlo Hhi. split.
  - rewrite <- (Qfloor_Z lo). by apply Qfloor_resp_le.
  - rewrite Zlt_Qlt. eapply Qle_lt_trans; [apply Qfloor_le|done].
Qed.

Lemma predictionId_inj lottery targetDate :
  Inj (=) (=) (predictionId lottery targetDate).
Proof.
  intros k1 k2 Heq. unfold predictionId, Number_toString in Heq.
  do 5 apply String.app_inj in Heq. by apply pretty_Z_inj in Heq.
Qed.

Section PredictionProperties.

Context {math : MathLibrary}.

(** X3.  A prediction for a lottery type that is no inherited property
    name carries exactly [ensembleSize] alternative sets (none when
    [ensembleSize] is zero or negative), and every set, the primary one and
    each alternative, holds valid numbers for the requested lottery. *)
Theorem generatePrediction_sets (fuel : nat) (lottery targetDate : string)
    (w : World) (res : QuantumPredictionResult) (w' : World) :
  plain_key lottery →
  generatePrediction fuel lottery targetDate w = Normal (res, w') →
  length (alternativeSets res) = Z.to_nat (ensembleSize (config (this w))) ∧
  Forall (valid_prediction_set lottery)
    (primaryPrediction res :: alternativeSets res) ∧
  lotteryType res = lottery.
Proof.
  intros _.
  intros (((Hprimary & _) & _) & [Hlen Hsets] & _ & [Hlt _] & _)%generatePrediction_inv.
  split_and!; [done| |done]. constructor; [done|].
  apply Forall_lookup. intros j set Hlook.
  by destruct (Hsets j set Hlook) as ((Hvalid & _) & _).
Qed.

(** X4.  The prediction sets of a prediction (for a lottery type that is
    no inherited property name) have the ids
    [QF-<LOTTERY>-<date>-00<k>], [k] being 1 for the primary set and 2, 3,
    ... for the alternatives in their order; no two sets of a prediction
    share an id. *)
Theorem generatePrediction_ids (fuel : nat) (lottery targetDate : string)
    (w : World) (res : QuantumPredictionResult) (w' : World) :
  plain_key lottery →
  generatePrediction fuel lottery targetDate w = Normal (res, w') →
  id <$> (primaryPrediction res :: alternativeSets res)
  = predictionId lottery targetDate
      <$> seqZ 1 (Z.of_nat (S (length (alternativeSets res)))) ∧
  NoDup (id <$> (primaryPrediction res :: alternativeSets res)).
Proof.
  intros _ ((_ & Hid & _) & [_ Hsets] & _)%generatePrediction_inv.
  assert (Hids : id <$> (primaryPrediction res :: alternativeSets res)
    = predictionId lottery targetDate
        <$> seqZ 1 (Z.of_nat (S (length (alternativeSets res))))).
  { apply list_eq. intros [|j].
    - rewrite seqZ_cons by lia. simpl. by rewrite Hid.
    - rewrite seqZ_cons by lia. simpl. rewrite !list_lookup_fmap.
      destruct (alternativeSets res !! j) as [set|] eqn:Hlook; simpl.
      + destruct (Hsets j set Hlook) as (_ & -> & _).
        apply lookup_lt_Some in Hlook as Hj.
        rewrite lookup_seqZ_lt by lia. simpl. do 2 f_equal. lia.
      + apply lookup_ge_None in Hlook.
        by rewrite lookup_seqZ_ge by lia. }
  split; [done|]. rewrite Hids.
  apply (@NoDup_fmap_2 _ _ _ (predictionId_inj lottery targetDate)), NoDup_seqZ.
Qed.

(** X5.  With [Math.random()] in [[0, 1)] the scores of a prediction (for
    a lottery type that is no inherited property name) are confined
    whatever numbers were drawn: every set has a confidence in
    [[90, 99]], an expected value in [[7, 9]] and a defined name and
    rationale; the entanglement score lies in [[0.85, 0.95]], the quantum
    advantage in [[1.5, 2]], the uncertainty estimate in [[0.15, 0.25]]
    and the convergence iterations in [[10, 29]]. *)
Theorem generatePrediction_scores (fuel : nat) (lottery targetDate : string)
    (w : World) (res : QuantumPredictionResult) (w' : World) :
  unit_stream w → plain_key lottery →
  generatePrediction fuel lottery targetDate w = Normal (res, w') →
  Forall (λ set,
            (90 <= confidence set)%Q ∧ (confidence set <= 99)%Q ∧
            (7 <= expectedValue set)%Q ∧ (expectedValue set <= 9)%Q ∧
            is_Some (name set) ∧ is_Some (rationale set))
    (primaryPrediction res :: alternativeSets res) ∧
  ((85 # 100 <= entanglementScore (quantumMetrics res))%Q ∧
   (entanglementScore (quantumMetrics res) <= 95 # 100)%Q) ∧
  ((15 # 10 <= quantumAdvantage (quantumMetrics res))%Q ∧
   (quantumAdvantage (quantumMetrics res) <= 2)%Q) ∧
  ((15 # 100 <= uncertaintyEstimate (quantumMetrics res))%Q ∧
   (uncertaintyEstimate (quantumMetrics res) <= 25 # 100)%Q) ∧
  10 ≤ convergenceIterations (executionStats res) ≤ 29.
Proof.
  intros Hunit _ ((Hprimary & _ & Hstrategy) & [_ Hsets]
                & (r1 & r2 & r3 & r4 & Hr1 & Hr2 & Hr3 & Hr4 & -> & -> & -> & ->)
                & _)%generatePrediction_inv.
  assert (Hset : ∀ set,
    generated_set lottery w set → is_Some (strategy set) →
    (90 <= confidence set)%Q ∧ (confidence set <= 99)%Q ∧
    (7 <= expectedValue set)%Q ∧ (expectedValue set <= 9)%Q ∧
    is_Some (name set) ∧ is_Some (rationale set)).
  { intros set (_ & (c & e & Hc & He & -> & ->) & -> & Htext) Hname.
    destruct (drawn_unit _ _ Hunit Hc) as [Hc0 Hc1].
    destruct (drawn_unit _ _ Hunit He) as [He0 He1].
    destruct (Htext Hunit) as (text & -> & _).
    split_and!; [nra..|done|by eexists]. }
  apply (drawn_unit _ _ Hunit) in Hr1 as [? ?].
  apply (drawn_unit _ _ Hunit) in Hr2 as [? ?].
  apply (drawn_unit _ _ Hunit) in Hr3 as [? ?].
  apply (drawn_unit _ _ Hunit) in Hr4 as [? ?].
  split_and!; try nra.
  - constructor; [apply Hset; [done|by rewrite Hstrategy]|].
    apply Forall_lookup. intros j set Hlook.
    destruct (Hsets j set Hlook) as (Hgen & _ & Hs).
    apply Hset; [done|]. destruct (Hs Hunit) as (s & -> & _). by eexists.
  - apply (Qfloor_bounds _ 10 30); unfold inject_Z; lra.
  - assert (Qfloor (10 + r4 * 20) < 30); [|lia].
    apply (Qfloor_bounds _ 10 30); unfold inject_Z; lra.
Qed.


End PredictionProperties.

(** *** Predictions on concrete requests *)

Lemma returns_Normal {A} (c : Completion (A * World)) :
  returns c = true → ∃ a w', c = Normal (a, w').
Proof. destruct c as [[a w']| |]; [eauto|done..]. Qed.

Lemma generatePredictionSet_valid_witness :
  ∃ set w',
    generatePredictionSet (math := taylorMath) 12 "QF-1" (Some "Hybrid Ensemble")
      "euro_millions" (getLotteryConfiguration "euro_millions") demoWorld
    = Normal (set, w') ∧
    valid_prediction_set "euro_millions" set ∧
    id set = "QF-1" ∧ name set = Some "Hybrid Ensemble" ∧
    strategy set = Some "Hybrid Ensemble".
Proof.
  destruct (returns_Normal
    (generatePredictionSet (math := taylorMath) 12 "QF-1" (Some "Hybrid Ensemble")
       "euro_millions" (getLotteryConfiguration "euro_millions") demoWorld))
    as (set & w' & Hrun); [vm_compute; reflexivity|].
  exists set, w'. split; [exact Hrun|].
  refine (generatePredictionSet_valid 12 "QF-1" (Some "Hybrid Ensemble")
            "euro_millions" demoWorld set w' _ _ Hrun);
    plain_key_holds.
Defined.

Lemma generatePrediction_sets_witness :
  ∃ res w',
    generatePrediction (math := taylorMath) 12 "us_powerball" "2025-01-01" demoWorld
    = Normal (res, w') ∧
    length (alternativeSets res) = 5%nat ∧
    Forall (valid_prediction_set "us_powerball")
      (primaryPrediction res :: alternativeSets res) ∧
    lotteryType res = "us_powerball".
Proof.
  destruct (returns_Normal
    (generatePrediction (math := taylorMath) 12 "us_powerball" "2025-01-01"
       demoWorld)) as (res & w' & Hrun); [vm_compute; reflexivity|].
  exists res, w'. split; [exact Hrun|].
  refine (generatePrediction_sets 12 "us_powerball" "2025-01-01" demoWorld res w'
            _ Hrun).
  plain_key_holds.
Defined.

Lemma generatePrediction_ids_witness :
  ∃ res w',
    generatePrediction (math := taylorMath) 12 "us_powerball" "2025-01-01" demoWorld
    = Normal (res, w') ∧
    id <$> (primaryPrediction res :: alternativeSets res)
    = predictionId "us_powerball" "2025-01-01"
        <$> seqZ 1 (Z.of_nat (S (length (alternativeSets res)))) ∧
    NoDup (id <$> (primaryPrediction res :: alternativeSets res)).
Proof.
  destruct (returns_Normal
    (generatePrediction (math := taylorMath) 12 "us_powerball" "2025-01-01"
       demoWorld)) as (res & w' & Hrun); [vm_compute; reflexivity|].
  exists res, w'. split; [exact Hrun|].
  refine (generatePrediction_ids 12 "us_powerball" "2025-01-01" demoWorld res w'
            _ Hrun).
  plain_key_holds.
Defined.

Lemma generatePrediction_scores_witness :
  ∃ res w',
    generatePrediction (math := taylorMath) 12 "us_powerball" "2025-01-01" demoWorld
    = Normal (res, w') ∧
    Forall (λ set,
              (90 <= confidence set)%Q ∧ (confidence set <= 99)%Q ∧
              (7 <= expectedValue set)%Q ∧ (expectedValue set <= 9)%Q ∧
              is_Some (name set) ∧ is_Some (rationale set))
      (primaryPrediction res :: alternativeSets res) ∧
    10 ≤ convergenceIterations (executionStats res) ≤ 29.
Proof.
  destruct (returns_Normal
    (generatePrediction (math := taylorMath) 12 "us_powerball" "2025-01-01"
       demoWorld)) as (res & w' & Hrun); [vm_compute; reflexivity|].
  exists res, w'. split; [exact Hrun|].
  destruct (generatePrediction_scores (math := taylorMath) 12 "us_powerball"
              "2025-01-01" demoWorld res w' demoWorld_unit_stream) as (Hsets & _ & _ & _ & Hiter);
    [plain_key_holds|exact Hrun|].
  exact (conj Hsets Hiter).
Defined.


(** ** Configuring and constructing the engine *)

Lemma spread_spread c p q :
  spread (spread c p) q = spread c (spread_partial p q).
Proof.
  destruct p as [p1 p2 p3 p4 p5 p6 p7], q as [q1 q2 q3 q4 q5 q6 q7].
  unfold spread, spread_partial. simpl.
  by destruct q1, q2, q3, q4, q5, q6, q7.
Qed.

Lemma spread_no_config c : spread c no_config = c.
Proof. by destruct c. Qed.

Lemma setParameters_run params w :
  setParameters params w
  = Normal ((), {| this := {| config := spread (config (this w)) params;
                              historicalData := historicalData (this w);
                              featureMatrix := featureMatrix (this w);
                              supportedLotteries := supportedLotteries (this w);
                              lotteryConfigurations := lotteryConfigurations (this w) |};
                   heap := heap w;
                   randomStream := randomStream w; randomCalls := randomCalls w;
                   clockStream := clockStream w; clockCalls := clockCalls w |}).
Proof. reflexivity. Qed.

(** X7.  [setParameters] changes the configuration and nothing else, and
    keeps every field of the configuration the caller does not supply: a
    call with no field leaves the world as it is, two calls in a row are
    the single call with the second object spread over the first, and a
    repeated call changes nothing more. *)
Theorem setParameters_spreads (p q : PartialConfig) (w : World) :
  (∃ w', setParameters p w = Normal ((), w') ∧
         config (this w') = spread (config (this w)) p ∧
         historicalData (this w') = historicalData (this w) ∧
         featureMatrix (this w') = featureMatrix (this w) ∧
         supportedLotteries (this w') = supportedLotteries (this w) ∧
         lotteryConfigurations (this w') = lotteryConfigurations (this w) ∧
         heap w' = heap w ∧ randomCalls w' = randomCalls w ∧
         clockCalls w' = clockCalls w) ∧
  setParameters no_config w = Normal ((), w) ∧
  (_ <- setParameters p ;; setParameters q) w
  = setParameters (spread_partial p q) w ∧
  (_ <- setParameters p ;; setParameters p) w = setParameters p w.
Proof.
  split_and!.
  - eexists. rewrite setParameters_run. by split_and!.
  - rewrite setParameters_run, spread_no_config.
    by destruct w as [[] ? ? ? ? ?].
  - unfold bind. rewrite !setParameters_run. simpl. by rewrite spread_spread.
  - unfold bind. rewrite !setParameters_run. simpl. do 4 f_equal.
    destruct p as [p1 p2 p3 p4 p5 p6 p7]. unfold spread. simpl.
    by destruct p1, p2, p3, p4, p5, p6, p7.
Qed.

Section Configured.

Context {math : MathLibrary}.

(** X8.  A prediction made after [setParameters] (for a lottery type that
    is no inherited property name) follows the new configuration: it carries as many alternative sets as the ensemble size
    supplied (the previous size when none is supplied), and its circuit
    depth is the product of the layers and the entanglement depth of the
    kernel parameters then in force. *)
Theorem setParameters_then_generatePrediction (params : PartialConfig)
    (fuel : nat) (lottery targetDate : string) (w : World)
    (res : QuantumPredictionResult) (w' : World) :
  plain_key lottery →
  (_ <- setParameters params ;; generatePrediction fuel lottery targetDate) w
  = Normal (res, w') →
  length (alternativeSets res)
  = Z.to_nat (default (ensembleSize (config (this w))) (p_ensembleSize params)) ∧
  circuitDepth (quantumMetrics res)
  = quantumCircuitLayers
      (default (kernelParams (config (this w))) (p_kernelParams params))
    * entanglementDepth
        (default (kernelParams (config (this w))) (p_kernelParams params)).
Proof.
  intros _. unfold bind at 1. rewrite setParameters_run.
  intros (_ & [Hlen _] & _ & [_ Hdepth] & _)%generatePrediction_inv.
  split; [exact Hlen|exact Hdepth].
Qed.

End Configured.

Lemma setParameters_then_generatePrediction_witness :
  ∃ res w',
    (_ <- setParameters {| p_kernelParams := None; p_ensembleSize := Some 2;
                           p_confidenceThreshold := None;
                           p_historicalDataWeight := None;
                           p_quantumNoiseModel := None;
                           p_adaptiveLearningRate := None;
                           p_featureEngineeringDepth := None |} ;;
     generatePrediction (math := taylorMath) 12 "india_lotto" "2025-03-03")
      demoWorld = Normal (res, w') ∧
    length (alternativeSets res) = 2%nat ∧
    circuitDepth (quantumMetrics res) = 6.
Proof.
  destruct (returns_Normal
    ((_ <- setParameters {| p_kernelParams := None; p_ensembleSize := Some 2;
                            p_confidenceThreshold := None;
                            p_historicalDataWeight := None;
                            p_quantumNoiseModel := None;
                            p_adaptiveLearningRate := None;
                            p_featureEngineeringDepth := None |} ;;
      generatePrediction (math := taylorMath) 12 "india_lotto" "2025-03-03")
       demoWorld)) as (res & w' & Hrun); [vm_compute; reflexivity|].
  exists res, w'. split; [exact Hrun|].
  refine (setParameters_then_generatePrediction _ 12 "india_lotto" "2025-03-03"
            demoWorld res w' _ Hrun).
  plain_key_holds.
Defined.

Lemma foldl_insert_configuration (lotteries : list string) :
  ∀ (configurations : gmap string LotteryConfiguration) (t : string),
  foldl (λ configurations lotteryType,
           <[lotteryType := getLotteryConfiguration lotteryType]> configurations)
        configurations lotteries !! t
  = if bool_decide (t ∈ lotteries) then Some (getLotteryConfiguration t)
    else configurations !! t.
Proof.
  induction lotteries as [|x lotteries IH]; intros configurations t; simpl.
  - done.
  - rewrite IH. destruct (decide (t ∈ lotteries)) as [Hin|Hin].
    + rewrite !bool_decide_eq_true_2; [done| |done]. by right.
    + rewrite (bool_decide_eq_false_2 _ Hin).
      destruct (decide (t = x)) as [->|Hne].
      * rewrite lookup_insert_eq, bool_decide_eq_true_2; [done|]. left.
      * rewrite lookup_insert_ne by done.
        rewrite bool_decide_eq_false_2; [done|].
        by intros [?|?]%elem_of_cons.
Qed.

Lemma constructor_run params w :
  constructor params w
  = Normal ((), {| this := {|
                     config := spread defaultQuantumConfig params;
                     historicalData := ∅;
                     featureMatrix := [];
                     supportedLotteries := fresh (dom (heap w));
                     lotteryConfigurations :=
                       foldl (λ configurations lotteryType,
                                <[lotteryType := getLotteryConfiguration lotteryType]>
                                  configurations)
                             ∅ initialLotteries |};
                   heap := <[fresh (dom (heap w)) := initialLotteries]> (heap w);
                   randomStream := randomStream w; randomCalls := randomCalls w;
                   clockStream := clockStream w; clockCalls := clockCalls w |}).
Proof.
  unfold constructor, initializeLotteryConfigurations, bind, Array_new,
    set_this, gets, Array_elements.
  cbn [this heap supportedLotteries lotteryConfigurations config historicalData
       featureMatrix randomStream randomCalls clockStream clockCalls fst snd].
  rewrite lookup_insert_eq. reflexivity.
Qed.

(** X9.  Constructing an engine always succeeds.  The new engine has the
    default configuration overridden by the fields supplied, no historical
    data, a configuration for each of its five supported lotteries, equal
    to [getLotteryConfiguration] of that lottery, and for no other; its
    list of supported lotteries is a new array, so the arrays that existed
    keep their elements, and [getSupportedLotteries] then returns the five
    names. *)
Theorem constructor_initializes (params : PartialConfig) (w : World) :
  ∃ w',
    constructor params w = Normal ((), w') ∧
    config (this w') = spread defaultQuantumConfig params ∧
    historicalData (this w') = ∅ ∧ featureMatrix (this w') = [] ∧
    (∀ t, lotteryConfigurations (this w') !! t
          = if bool_decide (t ∈ initialLotteries)
            then Some (getLotteryConfiguration t) else None) ∧
    (supportedLotteries (this w') ∉ dom (heap w)) ∧
    heap w' = <[supportedLotteries (this w') := initialLotteries]> (heap w) ∧
    randomCalls w' = randomCalls w ∧ clockCalls w' = clockCalls w ∧
    run (a <- getSupportedLotteries ;; Array_elements a) w'
    = Normal initialLotteries.
Proof.
  eexists. split; [apply constructor_run|].
  cbn [this heap supportedLotteries lotteryConfigurations config historicalData
       featureMatrix randomStream randomCalls clockStream clockCalls].
  split_and!; try reflexivity.
  - intros t.
    by rewrite (foldl_insert_configuration initialLotteries ∅ t), lookup_empty.
  - apply is_fresh.
  - unfold run, getSupportedLotteries, bind, gets, Array_elements, Array_new.
    cbn [this heap supportedLotteries fst snd].
    rewrite lookup_insert_eq.
    cbn [this heap supportedLotteries fst snd].
    by rewrite lookup_insert_eq.
Qed.

(** ** The number generator of the component *)

(** What [generateNumbers] returns when it returns: the first distinct
    candidates of the stream, sorted, and nothing but draws happened. *)
Lemma generateNumbers_result fuel count max w numbers w' :
  0 < max → unit_stream w →
  generateNumbers fuel count max w = Normal (numbers, w') →
  valid_sample (Z.max 0 count) 1 max numbers ∧
  ∃ j, (j ≤ fuel)%nat ∧ w' = advance j w ∧
       numbers = sort_ascending (keptUniform 1 max w j).
Proof.
  intros Hmax Hunit. unfold generateNumbers.
  replace (inject_Z max) with (inject_Z (max - 1 + 1)) by (f_equal; lia).
  intros (kept & w1 & Hrun & [= <- <-])%bind_Normal.
  apply (loop_result (λ numbers : list Z, numbers) (λ _, True) count
           (λ _, true) (uniformCandidate 1 max) 1) in Hrun
    as (j & Hj & Hw & _ & Hitems & Hge & Hle);
    [|intros; eexists; split_and!; [apply includes_step|done..]|done].
  change (kept = keptUniform 1 max w j) in Hitems.
  cbv beta in Hge, Hle. simpl in Hle. subst kept. split.
  - split_and!.
    + rewrite sort_ascending_length. lia.
    + apply sort_ascending_NoDup, keptUniform_NoDup.
    + apply sort_ascending_Forall, keptUniform_in_range; [done|lia].
    + apply sort_ascending_Sorted.
  - exists j. split_and!; [done| |done]. rewrite Hw. f_equal. lia.
Qed.

Lemma generateNumbers_no_throw fuel count max w e :
  generateNumbers fuel count max w ≠ Throw e.
Proof.
  unfold generateNumbers. unfold bind at 1.
  replace (inject_Z max) with (inject_Z (max - 1 + 1)) by (f_equal; lia).
  destruct (while _ _ _ _ _) as [[kept w1]|e'|] eqn:Hrun; [done| |done].
  exfalso. revert Hrun.
  apply (loop_no_throw (λ numbers : list Z, numbers) (λ _, True) count
           (λ _, true) (uniformCandidate 1 max) 1); [|done].
  intros; eexists; split_and!; [apply includes_step|done..].
Qed.

Lemma unit_stream_advance j w : unit_stream w → unit_stream (advance j w).
Proof. intros Hunit i. apply Hunit. Qed.

(** The two loops of the component are the loop of [generateNumbers], run
    once for the main numbers and once more for the bonus numbers. *)
Lemma generateQuantumNumbers_generateNumbers fuel format w :
  generateQuantumNumbers fuel format w
  = (main <- generateNumbers fuel (mainNumbers format) (mainRange format) ;;
     bonus <-
       (if truthy_number (bonusNumbers format) && truthy_number (bonusRange format)
        then bonus <- generateNumbers fuel (default 0 (bonusNumbers format))
                        (default 0 (bonusRange format)) ;;
             ret (Some bonus)
        else ret None) ;;
     ret (main, bonus)) w.
Proof.
  unfold generateQuantumNumbers, generateNumbers, bind, ret.
  destruct (while _ _ _ _ _) as [[main w1]| |]; [|done..].
  destruct (truthy_number _ && truthy_number _); [|done].
  by destruct (while _ _ _ _ _) as [[bonus w2]| |].
Qed.

Lemma generateQuantumNumbers_fits fuel format w main bonus w' :
  0 ≤ mainNumbers format → 0 < mainRange format →
  (∀ count range,
     bonusNumbers format = Some count → bonusRange format = Some range →
     0 < count ∧ 0 < range) →
  unit_stream w →
  generateQuantumNumbers fuel format w = Normal ((main, bonus), w') →
  fits_format format main bonus ∧ ∃ j, w' = advance j w.
Proof.
  intros Hcount Hrange Hbonus Hunit. rewrite generateQuantumNumbers_generateNumbers.
  intros (main' & w1 & Hmain & Hrest)%bind_Normal.
  apply bind_Normal in Hrest as (bonus' & w2 & Hrest & [= <- <- <-]).
  apply generateNumbers_result in Hmain as (Hvalid & j & _ & -> & _); [|done..].
  rewrite Z.max_r in Hvalid by done. unfold fits_format.
  destruct (bonusNumbers format) as [count|] eqn:Hbn,
           (bonusRange format) as [range|] eqn:Hbr; simpl in Hrest.
  - destruct (Hbonus count range eq_refl eq_refl) as [Hc Hr].
    rewrite !(proj2 (Z.eqb_neq _ 0)) in Hrest by lia. simpl in Hrest.
    apply bind_Normal in Hrest as (numbers & w3 & Hrun & [= <- <-]).
    apply generateNumbers_result in Hrun as (Hvalid' & j' & _ & -> & _);
      [|done|by apply unit_stream_advance].
    rewrite Z.max_r in Hvalid' by lia. split; [by eauto|].
    exists (j + j')%nat. by rewrite advance_advance.
  - rewrite andb_false_r in Hrest. injection Hrest as <- <-. by eauto.
  - injection Hrest as <- <-. by eauto.
  - injection Hrest as <- <-. by eauto.
Qed.

Lemma getCurrentFormat_cases selectedFormat :
  ∃ format,
    getCurrentFormat selectedFormat = Some format ∧ format ∈ lotteryFormats ∧
    (format_id format = selectedFormat ∨
     (selectedFormat ∉ format_id <$> lotteryFormats) ∧
     lotteryFormats !! 0%nat = Some format).
Proof.
  unfold getCurrentFormat.
  destruct (find _ lotteryFormats) as [format|] eqn:Hfind.
  - exists format. apply find_some in Hfind as [Hin Heq].
    apply String.eqb_eq in Heq. split_and!; [done| |by left].
    by apply list_elem_of_In.
  - eexists. split_and!; [reflexivity|by left|right]. split; [|done].
    intros (format & Heq & Hin)%list_elem_of_fmap.
    apply list_elem_of_In in Hin.
    apply (find_none _ _ Hfind) in Hin. apply String.eqb_neq in Hin. done.
Qed.

(** X10.  Whatever format is selected when the timer fires, the callback
    of the component never throws; the numbers it hands over fit one of the
    five formats of the table, the one whose id is selected or, for a
    selection that is no id of the table, the first one (Powerball): the
    main numbers are [mainNumbers] distinct ascending numbers of
    [[1, mainRange]], the bonus numbers are absent for a format without
    bonus numbers and [bonusNumbers] distinct ascending numbers of
    [[1, bonusRange]] otherwise; nothing but random draws happens. *)
Theorem timerCallback_fits (fuel : nat) (selectedFormat : string) (w : World) :
  unit_stream w →
  (∀ e, timerCallback fuel selectedFormat w ≠ Throw e) ∧
  ∀ main bonus w',
    timerCallback fuel selectedFormat w = Normal ((main, bonus), w') →
    ∃ format,
      format ∈ lotteryFormats ∧
      (format_id format = selectedFormat ∨
       (selectedFormat ∉ format_id <$> lotteryFormats) ∧
       format_id format = "powerball") ∧
      fits_format format main bonus ∧
      ∃ j, w' = advance j w.
Proof.
  intros Hunit. unfold timerCallback.
  destruct (getCurrentFormat_cases selectedFormat) as (format & -> & Hin & Hid).
  split.
  - intros e. rewrite generateQuantumNumbers_generateNumbers. unfold bind at 1.
    destruct (generateNumbers _ _ _ _) as [[main w1]|e'|] eqn:Hmain;
      [|by apply generateNumbers_no_throw in Hmain|done].
    unfold bind at 1.
    destruct (truthy_number _ && truthy_number _); [|done].
    unfold bind at 1.
    destruct (generateNumbers _ _ _ w1) as [[numbers w2]|e'|] eqn:Hbonus;
      [done|by apply generateNumbers_no_throw in Hbonus|done].
  - intros main bonus w' Hrun. exists format. split; [done|]. split.
    + destruct Hid as [Hid|[Hnot Hfirst]]; [by left|right].
      split; [done|]. by injection Hfirst as <-.
    + assert (0 ≤ mainNumbers format ∧ 0 < mainRange format ∧
              ∀ count range,
                bonusNumbers format = Some count →
                bonusRange format = Some range → 0 < count ∧ 0 < range)
        as (Hcount & Hrange & Hbonus).
      { clear -Hin. unfold lotteryFormats in Hin.
        repeat (apply elem_of_cons in Hin as [->|Hin]);
          [..|by apply elem_of_nil in Hin]; simpl;
          (split_and!; [lia|lia|intros ? ?; try done; intros [= <-] [= <-]; lia]). }
      by apply (generateQuantumNumbers_fits fuel format w main bonus w').
Qed.

Lemma timerCallback_fits_witness :
  unit_stream demoWorld ∧
  (∀ e, timerCallback 20 "lotto_max" demoWorld ≠ Throw e) ∧
  run (timerCallback 20 "lotto_max") demoWorld
  = Normal ([12; 15; 24; 38; 57], Some [4]).
Proof.
  split; [apply demoWorld_unit_stream|]. split.
  - apply (timerCallback_fits 20 "lotto_max" demoWorld), demoWorld_unit_stream.
  - vm_compute. reflexivity.
Defined.

(** ** The mock responses of the API service *)

Lemma Math_random_Normal w r w' :
  Math_random w = Normal (r, w') ↔
  r = randomStream w (randomCalls w) ∧ w' = advance 1 w.
Proof.
  unfold Math_random.
  replace (Build_World _ _ _ (S (randomCalls w)) _ _) with (advance 1 w)
    by (unfold advance; f_equal; lia).
  split; [by intros [= <- <-]|by intros [-> ->]].
Qed.

Lemma foldl_accept_length_le P cs : ∀ acc,
  (length (foldl (accept P) acc cs) ≤ length acc + length cs)%nat.
Proof.
  induction cs as [|c cs IH]; intros acc; simpl; [lia|].
  etrans; [apply IH|]. pose proof (accept_length P acc c). lia.
Qed.

(** A loop keeps at most one number per iteration. *)
Lemma accepted_length P cand k w j : (length (accepted P cand k w j) ≤ j)%nat.
Proof.
  unfold accepted. etrans; [apply foldl_accept_length_le|].
  unfold candidates. rewrite length_fmap, length_seq. simpl. lia.
Qed.

Section MockPrediction.

Import ApiService.

(** The count and the range [mockPredictionResponse] draws with. *)
Lemma mockPredictionResponse_inv fuel now lottery params w resp w' :
  unit_stream w →
  mockPredictionResponse fuel now lottery params w = Normal (resp, w') →
  ∃ mainCount mainMax j r1 r2 r3 r4 r5,
    (mainCount, mainMax)
    = (if String.eqb lottery "emirates_mega7" then (7, 35)
       else if String.eqb lottery "emirates_easy6" then (6, 42)
       else if String.eqb lottery "powerball" then (5, 69)
       else (6, 49)) ∧
    valid_sample mainCount 1 mainMax (numbers (data resp)) ∧
    valid_sample mainCount 1 mainMax (alternativeNumbers (data resp)) ∧
    w' = advance (j + 5) w ∧ (2 * Z.to_nat mainCount ≤ j)%nat ∧
    drawn w r1 ∧ drawn w r2 ∧ drawn w r3 ∧ drawn w r4 ∧ drawn w r5 ∧
    resp = {|
      success := true;
      data := {|
        lotteryType := lottery;
        numbers := numbers (data resp);
        alternativeNumbers := alternativeNumbers (data resp);
        generatedAt := now;
        modelVersion :=
          match params with Some _ => "custom-v1.0" | None => "quantum-v2.1" end;
        benchmarkScore := ((68 # 100) + r2 * (2 # 10))%Q;
        riskProfile := {|
          overallRisk := Array_at riskLevels (Qfloor (r1 * 4));
          popularityFactor := ((3 # 10) + r3 * (4 # 10))%Q;
          entropyScore := ((35 # 10) + r4 * 2)%Q
        |};
        rationale := Array_at rationales (Qfloor (r5 * 4));
        kernelParams :=
          default {| entanglementDepth := 3; shotCount := 1024;
                     noiseModel := None; optimizationLevel := 2;
                     featureMap := "ZZFeatureMap" |} params
      |};
      error := None
    |}.
Proof.
  intros Hunit. unfold mockPredictionResponse.
  destruct (if String.eqb lottery "emirates_mega7" then (7, 35)
            else if String.eqb lottery "emirates_easy6" then (6, 42)
            else if String.eqb lottery "powerball" then (5, 69)
            else (6, 49)) as [mainCount mainMax] eqn:Hparams.
  assert (0 < mainCount ∧ 0 < mainMax) as [Hcount Hmax].
  { repeat (destruct (String.eqb lottery _); [injection Hparams as <- <-; lia|]).
    injection Hparams as <- <-. lia. }
  intros (main & w1 & Hmain & Hrest)%bind_Normal.
  apply bind_Normal in Hrest as (alt & w2 & Halt & Hrest).
  apply generateNumbers_result in Hmain as (Hvalid1 & j1 & _ & -> & Hkept1);
    [|done..].
  apply generateNumbers_result in Halt as (Hvalid2 & j2 & _ & -> & Hkept2);
    [|done|by apply unit_stream_advance].
  rewrite Z.max_r in Hvalid1, Hvalid2 by lia.
  apply bind_Normal in Hrest as (r1 & w3 & [-> ->]%Math_random_Normal & Hrest).
  apply bind_Normal in Hrest as (r2 & w4 & [-> ->]%Math_random_Normal & Hrest).
  apply bind_Normal in Hrest as (r3 & w5 & [-> ->]%Math_random_Normal & Hrest).
  apply bind_Normal in Hrest as (r4 & w6 & [-> ->]%Math_random_Normal & Hrest).
  apply bind_Normal in Hrest as (r5 & w7 & [-> ->]%Math_random_Normal & Hrest).
  injection Hrest as <- <-.
  rewrite !advance_advance.
  eexists mainCount, mainMax, (j1 + j2)%nat, _, _, _, _, _.
  split_and!; [done|done|done|f_equal; lia|idtac..|reflexivity];
    [|by eexists..].
  destruct Hvalid1 as [Hlen1 _], Hvalid2 as [Hlen2 _].
  rewrite Hkept1, sort_ascending_length in Hlen1.
  rewrite Hkept2, sort_ascending_length in Hlen2.
  pose proof (accepted_length (λ _, true) (uniformCandidate 1 mainMax) 1 w j1).
  pose proof (accepted_length (λ _, true) (uniformCandidate 1 mainMax) 1
                (advance j1 w) j2).
  unfold keptUniform in Hlen1, Hlen2. lia.
Qed.

End MockPrediction.

Section MockPredictionProperties.

Import ApiService.

Lemma mockPredictionResponse_no_throw fuel now lottery params w e :
  mockPredictionResponse fuel now lottery params w ≠ Throw e.
Proof.
  unfold mockPredictionResponse.
  destruct (if String.eqb lottery "emirates_mega7" then (7, 35)
            else if String.eqb lottery "emirates_easy6" then (6, 42)
            else if String.eqb lottery "powerball" then (5, 69)
            else (6, 49)) as [mainCount mainMax].
  unfold bind at 1.
  destruct (generateNumbers _ _ _ _) as [[main w1]|e'|] eqn:Hmain;
    [|by apply generateNumbers_no_throw in Hmain|done].
  unfold bind at 1.
  destruct (generateNumbers _ _ _ w1) as [[alt w2]|e'|] eqn:Halt;
    [by unfold bind, Math_random, ret|by apply generateNumbers_no_throw in Halt|done].
Qed.

(** X11.  The mock prediction never throws, and a response it returns is a
    success without error message that names the lottery asked for; its
    numbers and its alternative numbers are each a valid sample: 7 numbers
    of [[1, 35]] for [emirates_mega7], 6 of [[1, 42]] for [emirates_easy6],
    5 of [[1, 69]] for [powerball], and 6 of [[1, 49]] for every other
    string, also for the [us_powerball], [euro_millions] and [india_lotto]
    of the engine.  The call makes at least five draws more than twice the
    count and changes nothing else. *)
Theorem mockPredictionResponse_numbers (fuel : nat) (now lottery : string)
    (params : option QuantumKernelParams) (w : World)
    (resp : ApiResponse PredictionResult) (w' : World) :
  unit_stream w →
  mockPredictionResponse fuel now lottery params w = Normal (resp, w') →
  let samples count max :=
    valid_sample count 1 max (numbers (data resp)) ∧
    valid_sample count 1 max (alternativeNumbers (data resp)) in
  (∀ e, mockPredictionResponse fuel now lottery params w ≠ Throw e) ∧
  success resp = true ∧ error resp = None ∧ lotteryType (data resp) = lottery ∧
  (lottery = "emirates_mega7" → samples 7 35) ∧
  (lottery = "emirates_easy6" → samples 6 42) ∧
  (lottery = "powerball" → samples 5 69) ∧
  (lottery ∉ ["emirates_mega7"; "emirates_easy6"; "powerball"] → samples 6 49) ∧
  ∃ j, w' = advance j w ∧
       (2 * length (numbers (data resp)) + 5 ≤ j)%nat.
Proof.
  intros Hunit Hrun samples.
  destruct (mockPredictionResponse_inv _ _ _ _ _ _ _ Hunit Hrun)
    as (mainCount & mainMax & j & r1 & r2 & r3 & r4 & r5 & Hparams & Hmain & Halt
        & -> & Hj & _ & _ & _ & _ & _ & Hresp).
  split; [intros e; apply mockPredictionResponse_no_throw|].
  split_and!; [by rewrite Hresp..| | | | |].
  - intros ->. injection Hparams as -> ->. done.
  - intros ->. injection Hparams as -> ->. done.
  - intros ->. injection Hparams as -> ->. done.
  - intros Hother.
    destruct (String.eqb_spec lottery "emirates_mega7") as [->|_];
      [by destruct Hother; left|].
    destruct (String.eqb_spec lottery "emirates_easy6") as [->|_];
      [by destruct Hother; right; left|].
    destruct (String.eqb_spec lottery "powerball") as [->|_];
      [by destruct Hother; do 2 right; left|].
    injection Hparams as -> ->. done.
  - exists (j + 5)%nat. split; [done|]. destruct Hmain as [Hlen _]. lia.
Qed.

(** X12.  Every field of the risk profile of a mock prediction is defined
    and confined when [Math.random()] stays in [[0, 1)]: the overall risk
    is one of the four levels, the rationale one of the four texts, the
    benchmark score lies in [[0.68, 0.88]], the popularity factor in
    [[0.3, 0.7]] and the entropy score in [[3.5, 5.5]], hence never in the
    interval from 0 to 1.  Without parameters the response is marked
    [quantum-v2.1] and carries the default kernel parameters; with
    parameters it is marked [custom-v1.0] and returns them unchanged. *)
Theorem mockPredictionResponse_profile (fuel : nat) (now lottery : string)
    (params : option QuantumKernelParams) (w : World)
    (resp : ApiResponse PredictionResult) (w' : World) :
  unit_stream w →
  mockPredictionResponse fuel now lottery params w = Normal (resp, w') →
  (∃ level, overallRisk (riskProfile (data resp)) = Some level ∧
            level ∈ riskLevels) ∧
  (∃ text, rationale (data resp) = Some text ∧ text ∈ rationales) ∧
  ((68 # 100 <= benchmarkScore (data resp))%Q ∧
   (benchmarkScore (data resp) <= 88 # 100)%Q) ∧
  ((3 # 10 <= popularityFactor (riskProfile (data resp)))%Q ∧
   (popularityFactor (riskProfile (data resp)) <= 7 # 10)%Q) ∧
  ((35 # 10 <= entropyScore (riskProfile (data resp)))%Q ∧
   (entropyScore (riskProfile (data resp)) <= 55 # 10)%Q ∧
   (1 < entropyScore (riskProfile (data resp)))%Q) ∧
  match params with
  | None =>
      modelVersion (data resp) = "quantum-v2.1" ∧
      kernelParams (data resp)
      = {| entanglementDepth := 3; shotCount := 1024; noiseModel := None;
           optimizationLevel := 2; featureMap := "ZZFeatureMap" |}
  | Some given =>
      modelVersion (data resp) = "custom-v1.0" ∧ kernelParams (data resp) = given
  end.
Proof.
  intros Hunit Hrun.
  destruct (mockPredictionResponse_inv _ _ _ _ _ _ _ Hunit Hrun)
    as (mainCount & mainMax & j & r1 & r2 & r3 & r4 & r5 & _ & _ & _
        & _ & _ & Hr1 & Hr2 & Hr3 & Hr4 & Hr5 & Hresp).
  apply (drawn_unit _ _ Hunit) in Hr1 as [? ?].
  apply (drawn_unit _ _ Hunit) in Hr2 as [? ?].
  apply (drawn_unit _ _ Hunit) in Hr3 as [? ?].
  apply (drawn_unit _ _ Hunit) in Hr4 as [? ?].
  apply (drawn_unit _ _ Hunit) in Hr5 as [? ?].
  rewrite Hresp. simpl. split_and!; try lra.
  - by apply (Array_at_unit riskLevels r1).
  - by apply (Array_at_unit rationales r5).
  - by destruct params.
Qed.

End MockPredictionProperties.

Lemma mockPredictionResponse_numbers_witness :
  ∃ resp w',
    ApiService.mockPredictionResponse 40 "2025-01-01T00:00:00.000Z"
      "us_powerball" None demoWorld = Normal (resp, w') ∧
    valid_sample 6 1 49 (ApiService.numbers (ApiService.data resp)) ∧
    valid_sample 6 1 49 (ApiService.alternativeNumbers (ApiService.data resp)).
Proof.
  destruct (returns_Normal
    (ApiService.mockPredictionResponse 40 "2025-01-01T00:00:00.000Z"
       "us_powerball" None demoWorld)) as (resp & w' & Hrun);
    [vm_compute; reflexivity|].
  exists resp, w'. split; [exact Hrun|].
  destruct (mockPredictionResponse_numbers 40 "2025-01-01T00:00:00.000Z"
              "us_powerball" None demoWorld resp w' demoWorld_unit_stream Hrun)
    as (_ & _ & _ & _ & _ & _ & _ & Hother & _).
  apply Hother. apply (bool_decide_unpack _). vm_compute. exact I.
Defined.

Lemma mockPredictionResponse_profile_witness :
  ∃ resp w',
    ApiService.mockPredictionResponse 40 "2025-01-01T00:00:00.000Z"
      "emirates_mega7" None demoWorld = Normal (resp, w') ∧
    (1 < ApiService.entropyScore (ApiService.riskProfile (ApiService.data resp)))%Q ∧
    ApiService.modelVersion (ApiService.data resp) = "quantum-v2.1".
Proof.
  destruct (returns_Normal
    (ApiService.mockPredictionResponse 40 "2025-01-01T00:00:00.000Z"
       "emirates_mega7" None demoWorld)) as (resp & w' & Hrun);
    [vm_compute; reflexivity|].
  exists resp, w'. split; [exact Hrun|].
  destruct (mockPredictionResponse_profile 40 "2025-01-01T00:00:00.000Z"
              "emirates_mega7" None demoWorld resp w' demoWorld_unit_stream Hrun)
    as (_ & _ & _ & _ & (_ & _ & Hentropy) & Hversion & _).
  exact (conj Hentropy Hversion).
Defined.

(** *** Stable sorting *)

Lemma Array_sort_insert_Permutation {A} (before : A → A → bool) x l :
  Array_sort_insert before x l ≡ₚ x :: l.
Proof.
  induction l as [|y l IH]; simpl; [done|].
  destruct (before x y); [done|]. rewrite IH. apply Permutation_swap.
Qed.

Lemma Array_sort_Permutation {A} (before : A → A → bool) l :
  Array_sort before l ≡ₚ l.
Proof.
  induction l as [|x l IH]; simpl; [done|].
  by rewrite Array_sort_insert_Permutation, IH.
Qed.

Lemma Array_sort_insert_Sorted {A} (before : A → A → bool) x l :
  (∀ x y, before x y = false → before y x = true) →
  Sorted (λ x y, before x y = true) l →
  Sorted (λ x y, before x y = true) (Array_sort_insert before x l).
Proof.
  intros Htotal. induction l as [|y l IH]; intros Hsorted; simpl.
  - by repeat constructor.
  - destruct (before x y) eqn:Hxy.
    + constructor; [done|]. by constructor.
    + apply Sorted_inv in Hsorted as [Hl Hhd].
      constructor; [by apply IH|].
      destruct l as [|z l]; simpl.
      * constructor. by apply Htotal.
      * destruct (before x z); constructor; [by apply Htotal|].
        by apply HdRel_inv in Hhd.
Qed.

Lemma Array_sort_Sorted {A} (before : A → A → bool) l :
  (∀ x y, before x y = false → before y x = true) →
  Sorted (λ x y, before x y = true) (Array_sort before l).
Proof.
  intros Htotal. induction l as [|x l IH]; simpl; [constructor|].
  by apply Array_sort_insert_Sorted.
Qed.

(** The sort is stable: what is in order already stays as it is. *)
Lemma Array_sort_sorted {A} (before : A → A → bool) l :
  Sorted (λ x y, before x y = true) l → Array_sort before l = l.
Proof.
  induction l as [|x l IH]; intros Hsorted; simpl; [done|].
  apply Sorted_inv in Hsorted as [Hl Hhd]. rewrite IH by done.
  destruct l as [|y l]; simpl; [done|].
  apply HdRel_inv in Hhd. by rewrite Hhd.
Qed.

(** *** Maps with draws *)

(** A callback that makes [k] draws and nothing else, mapped over an
    array: the element at index [i] is computed [k * i] draws later. *)
Lemma mapM_draws {A B} (k : nat) (f : A → M B) (g : A → World → B) :
  (∀ x w, f x w = Normal (g x w, advance k w)) →
  ∀ l w, mapM f l w
         = Normal (imap (λ i x, g x (advance (k * i) w)) l,
                   advance (k * length l) w).
Proof.
  intros Hf. induction l as [|x l IH]; intros w; simpl.
  - unfold ret. by rewrite Nat.mul_0_r, advance_0.
  - unfold bind. rewrite Hf, IH. unfold ret.
    rewrite Nat.mul_0_r, advance_0, advance_advance.
    apply (f_equal Normal), f_equal2.
    + f_equal. apply imap_ext. intros i y _. simpl.
      rewrite advance_advance. do 2 f_equal. lia.
    + f_equal. lia.
Qed.

Section MockExplainability.

Import ApiService.

(** The [n]-th draw after the world [w]. *)
Let draw (w : World) (n : nat) : Q := randomStream w (randomCalls w + n).

Lemma Math_random_run w :
  Math_random w = Normal (randomStream w (randomCalls w), advance 1 w).
Proof. by apply Math_random_Normal. Qed.

Lemma draw_advance j w n : draw (advance j w) n = draw w (j + n).
Proof. unfold draw. simpl. f_equal. lia. Qed.

Lemma mockExplainabilityResponse_run now lottery w :
  mockExplainabilityResponse now lottery w
  = Normal ({|
      success := true;
      data := {|
        explainability_lotteryType := lottery;
        explainability_timestamp := now;
        featureImportance :=
          Array_sort byImportance
            (imap (λ i feature,
                     {| feature := feature;
                        importance := ((2 # 10) + draw w (2 * i) * (8 # 10))%Q;
                        confidence := ((5 # 10) + draw w (2 * i + 1) * (5 # 10))%Q |})
                  features);
        shapValues := {|
          baseValue := 14 # 100;
          values :=
            imap (λ i feature,
                    {| shap_feature := feature;
                       shapValue := (-(5 # 100) + draw w (20 + i) * (1 # 10))%Q |})
                 features
        |};
        interactionEffects := [
          {| feature1 := "Historical Frequency"; feature2 := "Entropy Score";
             strength := ((6 # 10) + draw w 30 * (4 # 10))%Q |};
          {| feature1 := "Quantum Interference"; feature2 := "Co-occurrence Rate";
             strength := ((5 # 10) + draw w 31 * (4 # 10))%Q |};
          {| feature1 := "Last Draw Gap"; feature2 := "Positional Patterns";
             strength := ((4 # 10) + draw w 32 * (4 # 10))%Q |}
        ]
      |};
      error := None
    |}, advance 33 w).
Proof.
  unfold mockExplainabilityResponse. unfold bind at 1.
  rewrite (mapM_draws 2 _
    (λ feature w,
       {| feature := feature;
          importance := ((2 # 10) + draw w 0 * (8 # 10))%Q;
          confidence := ((5 # 10) + draw w 1 * (5 # 10))%Q |})).
  2:{ intros x w0. unfold bind, Math_random, ret, draw, advance. simpl.
      by rewrite ?Nat.add_succ_r, ?Nat.add_0_r. }
  unfold bind at 1.
  rewrite (mapM_draws 1 _
    (λ feature w,
       {| shap_feature := feature;
          shapValue := (-(5 # 100) + draw w 0 * (1 # 10))%Q |})).
  2:{ intros x w0. unfold bind, Math_random, ret, draw, advance. simpl.
      by rewrite ?Nat.add_succ_r, ?Nat.add_0_r. }
  change (length features) with 10%nat.
  unfold bind at 1. rewrite Math_random_run.
  unfold bind at 1. rewrite Math_random_run.
  unfold bind at 1. rewrite Math_random_run.
  unfold ret. rewrite !advance_advance.
  apply (f_equal Normal), f_equal2; [|reflexivity].
  f_equal. f_equal.
  - f_equal. apply imap_ext. intros i x _. rewrite !draw_advance.
    by rewrite Nat.add_0_r.
  - f_equal. apply imap_ext. intros i x _. rewrite !draw_advance.
    do 3 f_equal. unfold draw. f_equal. lia.
Qed.

End MockExplainability.

Lemma Sorted_weaken {A} (R R' : A → A → Prop) l :
  (∀ x y, R x y → R' x y) → Sorted R l → Sorted R' l.
Proof.
  intros HR. induction 1 as [|x l _ IH Hhd]; constructor; [done|].
  destruct Hhd; constructor. by apply HR.
Qed.

Section MockExplainabilityProperties.

Import ApiService.

Lemma byImportance_total a b : byImportance a b = false → byImportance b a = true.
Proof.
  unfold byImportance. intros Hab. apply Qle_bool_iff.
  destruct (Qlt_le_dec (importance a) (importance b)) as [Hlt|Hle];
    [by apply Qlt_le_weak|].
  apply Qle_bool_iff in Hle. congruence.
Qed.

(** Where the entries of an explainability response come from. *)
Lemma mockExplainabilityResponse_entries now lottery w :
  ∃ resp,
    mockExplainabilityResponse now lottery w = Normal (resp, advance 33 w) ∧
    success resp = true ∧ error resp = None ∧
    explainability_lotteryType (data resp) = lottery ∧
    Sorted (λ a b, (importance b <= importance a)%Q)
      (featureImportance (data resp)) ∧
    feature <$> featureImportance (data resp) ≡ₚ features ∧
    shap_feature <$> values (shapValues (data resp)) = features ∧
    (∀ entry, entry ∈ featureImportance (data resp) →
       ∃ k, features !! k = Some (feature entry) ∧
            importance entry
            = ((2 # 10) + randomStream w (randomCalls w + 2 * k) * (8 # 10))%Q ∧
            confidence entry
            = ((5 # 10) + randomStream w (randomCalls w + (2 * k + 1)) * (5 # 10))%Q) ∧
    (∀ k value, values (shapValues (data resp)) !! k = Some value →
       shapValue value
       = (-(5 # 100) + randomStream w (randomCalls w + (20 + k)) * (1 # 10))%Q) ∧
    strength <$> interactionEffects (data resp)
    = [ ((6 # 10) + randomStream w (randomCalls w + 30) * (4 # 10))%Q;
        ((5 # 10) + randomStream w (randomCalls w + 31) * (4 # 10))%Q;
        ((4 # 10) + randomStream w (randomCalls w + 32) * (4 # 10))%Q ].
Proof.
  eexists. split; [apply mockExplainabilityResponse_run|].
  cbn [success error data explainability_lotteryType featureImportance
       shapValues values interactionEffects].
  set (entries := imap _ features).
  split; [reflexivity|]. split; [reflexivity|]. split; [reflexivity|].
  split.
  { eapply Sorted_weaken; [|apply Array_sort_Sorted, byImportance_total].
    intros a b Hab. by apply Qle_bool_iff. }
  split.
  { rewrite (Array_sort_Permutation byImportance entries). reflexivity. }
  split; [reflexivity|].
  split.
  { intros entry Hin. rewrite (Array_sort_Permutation byImportance entries) in Hin.
    apply elem_of_lookup_imap_1 in Hin as (k & name & -> & Hk).
    exists k. split; [exact Hk|]. split; reflexivity. }
  split; [|reflexivity].
  intros k value Hk. rewrite list_lookup_imap in Hk.
  destruct (features !! k); simpl in Hk; [|discriminate Hk].
  injection Hk as <-; reflexivity.
Qed.

(** X13.  The explainability mock always returns, after exactly thirty-three
    draws.  Its feature importances come sorted by descending importance,
    they name each of the ten features exactly once, and the entry of the
    [k]-th feature holds the importance and the confidence computed from
    the draws [2k] and [2k + 1], wherever the sort has put it; the SHAP
    values stay in the order of the features. *)
Theorem mockExplainabilityResponse_ranking (now lottery : string) (w : World) :
  ∃ resp,
    mockExplainabilityResponse now lottery w = Normal (resp, advance 33 w) ∧
    success resp = true ∧
    Sorted (λ a b, (importance b <= importance a)%Q)
      (featureImportance (data resp)) ∧
    feature <$> featureImportance (data resp) ≡ₚ features ∧
    shap_feature <$> values (shapValues (data resp)) = features ∧
    ∀ entry, entry ∈ featureImportance (data resp) →
      ∃ k, features !! k = Some (feature entry) ∧
           importance entry
           = ((2 # 10) + randomStream w (randomCalls w + 2 * k) * (8 # 10))%Q ∧
           confidence entry
           = ((5 # 10) + randomStream w (randomCalls w + (2 * k + 1)) * (5 # 10))%Q.
Proof.
  destruct (mockExplainabilityResponse_entries now lottery w)
    as (resp & Hrun & Hsuccess & _ & _ & Hsorted & Hperm & Hshap & Hentries & _).
  exists resp.
  exact (conj Hrun (conj Hsuccess (conj Hsorted (conj Hperm (conj Hshap Hentries))))).
Qed.

(** X14.  With [Math.random()] in [[0, 1)] every number of an
    explainability response is confined: importances to [[0.2, 1]],
    confidences to [[0.5, 1]], SHAP values to [[-0.05, 0.05]] and the three
    interaction strengths to [[0.6, 1]], [[0.5, 0.9]] and [[0.4, 0.8]]. *)
Theorem mockExplainabilityResponse_bounds (now lottery : string) (w : World)
    (resp : ApiResponse ExplainabilityData) (w' : World) :
  unit_stream w →
  mockExplainabilityResponse now lottery w = Normal (resp, w') →
  Forall (λ entry,
            ((2 # 10 <= importance entry)%Q ∧ (importance entry <= 1)%Q) ∧
            ((5 # 10 <= confidence entry)%Q ∧ (confidence entry <= 1)%Q))
    (featureImportance (data resp)) ∧
  Forall (λ value,
            (-(5 # 100) <= shapValue value)%Q ∧ (shapValue value <= 5 # 100)%Q)
    (values (shapValues (data resp))) ∧
  Forall2 (λ effect bounds,
             (bounds.1 <= strength effect)%Q ∧ (strength effect <= bounds.2)%Q)
    (interactionEffects (data resp))
    [ (6 # 10, 1%Q); (5 # 10, 9 # 10); (4 # 10, 8 # 10) ].
Proof.
  intros Hunit Hrun.
  destruct (mockExplainabilityResponse_entries now lottery w)
    as (resp' & Hrun' & _ & _ & _ & _ & _ & _ & Hentries & Hvalues & Hstrengths).
  rewrite Hrun in Hrun'. injection Hrun' as <- _.
  split_and!.
  - apply Forall_forall. intros entry (k & _ & -> & ->)%Hentries.
    destruct (Hunit (randomCalls w + 2 * k)%nat),
             (Hunit (randomCalls w + (2 * k + 1))%nat). split; split; lra.
  - apply Forall_lookup. intros k value ->%Hvalues.
    destruct (Hunit (randomCalls w + (20 + k))%nat). split; lra.
  - destruct (interactionEffects (data resp)) as [|e1 [|e2 [|e3 [|]]]];
      try discriminate Hstrengths.
    injection Hstrengths as H1 H2 H3.
    destruct (Hunit (randomCalls w + 30)%nat), (Hunit (randomCalls w + 31)%nat),
             (Hunit (randomCalls w + 32)%nat).
    constructor; [simpl; rewrite H1; split; lra|].
    constructor; [simpl; rewrite H2; split; lra|].
    constructor; [simpl; rewrite H3; split; lra|].
    constructor.
Qed.

End MockExplainabilityProperties.

Lemma mockExplainabilityResponse_bounds_witness :
  ∃ resp w',
    ApiService.mockExplainabilityResponse "2025-01-01T00:00:00.000Z"
      "india_lotto" demoWorld = Normal (resp, w') ∧
    Forall (λ entry,
              ((2 # 10 <= ApiService.importance entry)%Q ∧
               (ApiService.importance entry <= 1)%Q) ∧
              ((5 # 10 <= ApiService.confidence entry)%Q ∧
               (ApiService.confidence entry <= 1)%Q))
      (ApiService.featureImportance (ApiService.data resp)).
Proof.
  destruct (returns_Normal
    (ApiService.mockExplainabilityResponse "2025-01-01T00:00:00.000Z"
       "india_lotto" demoWorld)) as (resp & w' & Hrun);
    [vm_compute; reflexivity|].
  exists resp, w'. split; [exact Hrun|].
  destruct (mockExplainabilityResponse_bounds "2025-01-01T00:00:00.000Z"
              "india_lotto" demoWorld resp w' demoWorld_unit_stream Hrun)
    as (Hentries & _).
  exact Hentries.
Defined.

Section MockBenchmark.

Import ApiService.

Let draw (w : World) (n : nat) : Q := randomStream w (randomCalls w + n).

Lemma modelScore_run name accuracy0 accuracy1 hitRate0 hitRate1
    processingTime0 processingTime1 w :
  modelScore name accuracy0 accuracy1 hitRate0 hitRate1
    processingTime0 processingTime1 w
  = Normal ({| model_name := name;
               accuracy := (accuracy0 + draw w 0 * accuracy1)%Q;
               hitRate := (hitRate0 + draw w 1 * hitRate1)%Q;
               processingTime := (processingTime0 + draw w 2 * processingTime1)%Q |},
            advance 3 w).
Proof.
  unfold modelScore, bind, Math_random, ret, draw, advance. simpl.
  by rewrite ?Nat.add_succ_r, ?Nat.add_0_r.
Qed.

Lemma dataset_run label base spread w :
  dataset label base spread w
  = Normal ({| dataset_label := label;
               dataset_data :=
                 imap (λ i _, (base + draw w i * spread)%Q) (seqZ 0 10) |},
            advance 10 w).
Proof.
  unfold dataset, Array_from_length. unfold bind at 1.
  rewrite (mapM_draws 1 _ (λ _ w, (base + draw w 0 * spread)%Q)).
  2:{ intros x w0. unfold bind, draw. by rewrite Math_random_run, Nat.add_0_r. }
  unfold ret. apply (f_equal Normal), f_equal2; [|reflexivity].
  f_equal. apply imap_ext. intros i x _. simpl.
  unfold draw. simpl. do 3 f_equal. lia.
Qed.

Lemma mockBenchmarkResponse_run now lottery w :
  mockBenchmarkResponse now lottery w
  = Normal ({|
      success := true;
      data := {|
        benchmark_lotteryType := lottery;
        benchmark_timestamp := now;
        models := [
          {| model_name := "Quantum-Inspired";
             accuracy := ((21 # 100) + draw w 0 * (5 # 100))%Q;
             hitRate := ((18 # 100) + draw w 1 * (4 # 100))%Q;
             processingTime := (120 + draw w 2 * 30)%Q |};
          {| model_name := "Classical LSTM";
             accuracy := ((17 # 100) + draw w 3 * (4 # 100))%Q;
             hitRate := ((15 # 100) + draw w 4 * (3 # 100))%Q;
             processingTime := (85 + draw w 5 * 20)%Q |};
          {| model_name := "Random Forest";
             accuracy := ((16 # 100) + draw w 6 * (3 # 100))%Q;
             hitRate := ((14 # 100) + draw w 7 * (3 # 100))%Q;
             processingTime := (65 + draw w 8 * 15)%Q |};
          {| model_name := "Random Selection";
             accuracy := ((14 # 100) + draw w 9 * (2 # 100))%Q;
             hitRate := ((14 # 100) + draw w 10 * (2 # 100))%Q;
             processingTime := (5 + draw w 11 * 2)%Q |}
        ];
        timeSeriesData := {|
          labels := (λ i, "Week " +:+ Number_toString (i + 1)) <$> seqZ 0 10;
          datasets := [
            {| dataset_label := "Quantum-Inspired";
               dataset_data :=
                 imap (λ i _, ((15 # 100) + draw w (12 + i) * (10 # 100))%Q)
                      (seqZ 0 10) |};
            {| dataset_label := "Classical LSTM";
               dataset_data :=
                 imap (λ i _, ((12 # 100) + draw w (22 + i) * (8 # 100))%Q)
                      (seqZ 0 10) |};
            {| dataset_label := "Random Forest";
               dataset_data :=
                 imap (λ i _, ((11 # 100) + draw w (32 + i) * (7 # 100))%Q)
                      (seqZ 0 10) |};
            {| dataset_label := "Random Selection";
               dataset_data :=
                 imap (λ i _, ((10 # 100) + draw w (42 + i) * (5 # 100))%Q)
                      (seqZ 0 10) |}
          ]
        |}
      |};
      error := None
    |}, advance 52 w).
Proof.
  assert (Hdraw : ∀ j n, draw (advance j w) n = draw w (j + n)).
  { intros j n. unfold draw. simpl. f_equal. lia. }
  unfold mockBenchmarkResponse.
  do 4 (unfold bind at 1; rewrite modelScore_run).
  unfold bind at 1, Array_from_length.
  rewrite (mapM_draws 0 _ (λ i _, "Week " +:+ Number_toString (i + 1)));
    [|intros x w0; by rewrite advance_0].
  do 4 (unfold bind at 1; rewrite dataset_run).
  unfold ret. rewrite !advance_advance, !Hdraw.
  apply (f_equal Normal), f_equal2; [|reflexivity].
  do 3 f_equal.
  f_equal; [|f_equal; [|f_equal; [|f_equal]]];
    f_equal; apply imap_ext; intros i x _; by rewrite Hdraw.
Qed.

End MockBenchmark.

Section MockBenchmarkProperties.

Import ApiService.

(** X15.  With [Math.random()] in [[0, 1)] the benchmark mock always
    returns, after exactly fifty-two draws, and its ranking does not depend
    on them: the quantum-inspired model is reported more accurate and with
    a higher hit rate than the random forest and the random selection, and
    the processing times fall strictly from the quantum-inspired model over
    the LSTM and the random forest to the random selection.  The time
    series has the labels [Week 1] to [Week 10] and four datasets of ten
    points. *)
Theorem mockBenchmarkResponse_ranking (now lottery : string) (w : World) :
  unit_stream w →
  ∃ resp quantum lstm forest selection,
    mockBenchmarkResponse now lottery w = Normal (resp, advance 52 w) ∧
    models (data resp) = [quantum; lstm; forest; selection] ∧
    model_name <$> models (data resp)
    = ["Quantum-Inspired"; "Classical LSTM"; "Random Forest"; "Random Selection"] ∧
    ((accuracy forest < accuracy quantum)%Q ∧
     (accuracy selection < accuracy quantum)%Q) ∧
    ((hitRate forest < hitRate quantum)%Q ∧
     (hitRate selection < hitRate quantum)%Q) ∧
    ((processingTime selection < processingTime forest)%Q ∧
     (processingTime forest < processingTime lstm)%Q ∧
     (processingTime lstm < processingTime quantum)%Q) ∧
    labels (timeSeriesData (data resp))
    = ["Week 1"; "Week 2"; "Week 3"; "Week 4"; "Week 5"; "Week 6"; "Week 7";
       "Week 8"; "Week 9"; "Week 10"] ∧
    length (datasets (timeSeriesData (data resp))) = 4%nat ∧
    Forall (λ series, length (dataset_data series) = 10%nat)
      (datasets (timeSeriesData (data resp))).
Proof.
  intros Hunit. eexists _, _, _, _, _.
  split; [apply mockBenchmarkResponse_run|].
  cbn [data models timeSeriesData labels datasets].
  split; [reflexivity|]. split; [reflexivity|].
  cbn [accuracy hitRate processingTime].
  destruct (Hunit (randomCalls w + 0)%nat), (Hunit (randomCalls w + 1)%nat),
    (Hunit (randomCalls w + 2)%nat), (Hunit (randomCalls w + 5)%nat),
    (Hunit (randomCalls w + 6)%nat), (Hunit (randomCalls w + 7)%nat),
    (Hunit (randomCalls w + 8)%nat), (Hunit (randomCalls w + 9)%nat),
    (Hunit (randomCalls w + 10)%nat), (Hunit (randomCalls w + 11)%nat).
  split; [split; lra|]. split; [split; lra|]. split; [split_and!; lra|].
  split; [reflexivity|]. split; [reflexivity|].
  repeat constructor.
Qed.

End MockBenchmarkProperties.

Lemma mockBenchmarkResponse_ranking_witness :
  ∃ resp quantum lstm forest selection,
    ApiService.mockBenchmarkResponse "2025-01-01T00:00:00.000Z" "euro_millions"
      demoWorld = Normal (resp, advance 52 demoWorld) ∧
    ApiService.models (ApiService.data resp) = [quantum; lstm; forest; selection] ∧
    (ApiService.accuracy forest < ApiService.accuracy quantum)%Q ∧
    (ApiService.processingTime lstm < ApiService.processingTime quantum)%Q.
Proof.
  destruct (mockBenchmarkResponse_ranking "2025-01-01T00:00:00.000Z"
              "euro_millions" demoWorld demoWorld_unit_stream)
    as (resp & quantum & lstm & forest & selection & Hrun & Hmodels & _
        & [Haccuracy _] & _ & (_ & _ & Htime) & _).
  exists resp, quantum, lstm, forest, selection.
  exact (conj Hrun (conj Hmodels (conj Haccuracy Htime))).
Defined.

(** ** Feature engineering *)

Lemma foldl_Number_add_Finite {A} (f : A → Q) (l : list A) : ∀ a,
  foldl (λ sum num, Number_add sum (Finite (f num))) (Finite a) l
  = Finite (foldl (λ sum num, (sum + f num)%Q) a l).
Proof. induction l as [|x l IH]; intros a; simpl; [done|apply IH]. Qed.

Lemma foldl_Qplus_bounds {A} (f : A → Q) (lo hi : Q) (l : list A) : ∀ a,
  Forall (λ x, (lo <= f x)%Q ∧ (f x <= hi)%Q) l →
  (a + lo * inject_Z (Z.of_nat (length l))
   <= foldl (λ sum num, sum + f num) a l)%Q ∧
  (foldl (λ sum num, sum + f num) a l
   <= a + hi * inject_Z (Z.of_nat (length l)))%Q.
Proof.
  induction l as [|x l IH]; intros a Hall.
  - cbn [foldl length]. change (inject_Z (Z.of_nat 0)) with 0%Q. split; lra.
  - apply Forall_cons in Hall as [[Hlo Hhi] Hall].
    destruct (IH (a + f x)%Q Hall) as [IHlo IHhi].
    cbn [foldl length]. rewrite Nat2Z.inj_succ, <- Z.add_1_r, inject_Z_plus.
    change (inject_Z 1) with 1%Q. split; lra.
Qed.

Lemma foldl_Qplus_nonneg {A} (f : A → Q) (l : list A) : ∀ a,
  (∀ x, (0 <= f x)%Q) → (a <= foldl (λ sum num, sum + f num) a l)%Q.
Proof.
  induction l as [|x l IH]; intros a Hf; cbn [foldl]; [lra|].
  specialize (IH (a + f x)%Q Hf). specialize (Hf x). lra.
Qed.

Lemma foldl_Zmin_spec (l : list Z) : ∀ x,
  foldl Z.min x l ∈ x :: l ∧ Forall (λ y, foldl Z.min x l ≤ y) (x :: l).
Proof.
  induction l as [|y l IH]; intros x; simpl.
  - split; [left|]. by repeat constructor.
  - destruct (IH (Z.min x y)) as [Hin Hall].
    apply Forall_cons in Hall as [Hxy Hall]. split.
    + apply elem_of_cons in Hin as [->|Hin]; [|by do 2 right].
      destruct (Z.min_spec x y) as [[_ ->]|[_ ->]]; [left|right; left].
    + repeat constructor; [lia|lia|done].
Qed.

Lemma foldl_Zmax_spec (l : list Z) : ∀ x,
  foldl Z.max x l ∈ x :: l ∧ Forall (λ y, y ≤ foldl Z.max x l) (x :: l).
Proof.
  induction l as [|y l IH]; intros x; simpl.
  - split; [left|]. by repeat constructor.
  - destruct (IH (Z.max x y)) as [Hin Hall].
    apply Forall_cons in Hall as [Hxy Hall]. split.
    + apply elem_of_cons in Hin as [->|Hin]; [|by do 2 right].
      destruct (Z.max_spec x y) as [[_ ->]|[_ ->]]; [right; left|left].
    + repeat constructor; [lia|lia|done].
Qed.

(** The features of a draw that is not split into main and special
    numbers. *)
Lemma draw_features_basic lotteryConfig draw :
  match lotteryConfig with
  | Some lotteryConfig =>
      specialNumbers lotteryConfig = false ∨
      specialNumberCount lotteryConfig = None ∨
      ∃ count, specialNumberCount lotteryConfig = Some count ∧ count ≤ 0
  | None => True
  end →
  basic_features draw (draw_features lotteryConfig draw).
Proof.
  intros Hconfig. unfold draw_features.
  replace (match lotteryConfig with
           | Some lotteryConfig0 =>
               if specialNumbers lotteryConfig0
               then match specialNumberCount lotteryConfig0 with
                    | Some count => if 0 <? count then Some count else None
                    | None => None
                    end
               else None
           | None => None
           end) with (@None Z).
  2:{ destruct lotteryConfig as [c|]; [|done].
      destruct Hconfig as [->|[->|(count & -> & Hcount)]]; [done| |].
      - by destruct (specialNumbers c).
      - rewrite (proj2 (Z.ltb_ge 0 count)) by lia. by destruct (specialNumbers c). }
  cbv zeta. cbn [length Nat.ltb Nat.leb].
  unfold basic_features, mean_of.
  destruct (draw_numbers draw) as [|x numbers] eqn:Hnumbers; [done|].
  set (l := x :: numbers).
  assert (Hlen : 0 < Z.of_nat (length l)) by (simpl; lia).
  assert (HlenQ : (0 < inject_Z (Z.of_nat (length l)))%Q).
  { change 0%Q with (inject_Z 0). by rewrite <- Zlt_Qlt. }
  destruct (foldl_Zmin_spec numbers x) as [Hlo_in Hlo].
  destruct (foldl_Zmax_spec numbers x) as [Hhi_in Hhi].
  set (lo := foldl Z.min x numbers) in *. set (hi := foldl Z.max x numbers) in *.
  assert (Hbounds : Forall (λ y, (inject_Z lo <= inject_Z y)%Q ∧
                                 (inject_Z y <= inject_Z hi)%Q) l).
  { apply Forall_forall. intros y Hy.
    rewrite Forall_forall in Hlo, Hhi. rewrite <- !Zle_Qle. auto. }
  destruct (foldl_Qplus_bounds inject_Z _ _ l 0 Hbounds) as [Hsum_lo Hsum_hi].
  rewrite !foldl_Number_add_Finite.
  unfold Number_div. rewrite (proj2 (Z.eqb_neq _ 0)) by lia.
  set (mean := (foldl (λ sum num, sum + inject_Z num) 0 l
                / inject_Z (Z.of_nat (length l)))%Q).
  cbn [Number_sub Math_pow2].
  rewrite (foldl_Number_add_Finite
             (λ num, let d := (inject_Z num - _)%Q in (d * d)%Q)).
  cbn [Math_min Math_max l Number_sub]. fold lo hi.
  eexists _, _, lo, hi. split; [reflexivity|].
  split_and!; [done|done| | | |].
  - apply Forall_forall. intros y Hy.
    rewrite Forall_forall in Hlo, Hhi. split; auto.
  - apply Qle_shift_div_l; [done|]. lra.
  - apply Qle_shift_div_r; [done|]. lra.
  - apply Qle_shift_div_l; [done|]. rewrite Qmult_0_l.
    apply (foldl_Qplus_nonneg
             (λ num, let d := (inject_Z num - _)%Q in (d * d)%Q)).
    intros y. cbv zeta. generalize (inject_Z y - mean)%Q. intros d.
    clear. nra.
Qed.

(** X16.  Called without a lottery type, as [loadHistoricalData] calls it,
    [engineerFeatures] returns one row of exactly six features per draw
    and does not touch the engine: for a draw with numbers the mean lies
    between the least and the greatest number, which are the third and the
    fourth feature, the variance is not negative and the range is their
    difference; for a draw without numbers the five statistics are [NaN],
    [NaN], [Infinity], [-Infinity] and [-Infinity]. *)
Theorem engineerFeatures_basic (data : list HistoricalDraw) (w : World) :
  ∃ rows,
    engineerFeatures data None w = Normal (rows, w) ∧
    Forall2 basic_features data rows ∧
    Forall (λ row, length row = 6%nat) rows.
Proof.
  exists (draw_features None <$> data). split; [reflexivity|].
  assert (Hrows : Forall2 basic_features data (draw_features None <$> data)).
  { apply Forall2_fmap_r, Forall_Forall2_diag, Forall_forall.
    intros draw _. by apply draw_features_basic. }
  split; [exact Hrows|].
  apply Forall_forall. intros row Hrow.
  apply list_elem_of_lookup in Hrow as [i Hi].
  destruct (Forall2_lookup_r _ _ _ _ _ Hrows Hi) as (draw & _ & Hbasic).
  unfold basic_features in Hbasic.
  destruct (draw_numbers draw); [by rewrite Hbasic|].
  by destruct Hbasic as (? & ? & ? & ? & -> & _).
Qed.

Lemma Array_slice_main {A} (count : Z) (array : list A) :
  0 < count →
  Array_slice 0 (Some (Z.of_nat (length array) - count)) array
  = take (splitIndex (Z.of_nat (length array)) count) array.
Proof.
  intros Hcount.
  unfold Array_slice, splitIndex. cbn [default]. unfold Datatypes.id. cbv zeta.
  rewrite (proj2 (Z.ltb_ge 0 0)) by lia.
  rewrite (Z.min_l 0), drop_0, Z.sub_0_r by lia.
  destruct (Z.leb_spec count (Z.of_nat (length array))) as [Hle|Hgt].
  - rewrite (proj2 (Z.ltb_ge _ 0)) by lia. f_equal. lia.
  - rewrite (proj2 (Z.ltb_lt _ 0)) by lia. f_equal. lia.
Qed.

Lemma Array_slice_special {A} (count : Z) (array : list A) :
  0 < count →
  Array_slice (Z.of_nat (length array) - count) None array
  = drop (splitIndex (Z.of_nat (length array)) count) array.
Proof.
  intros Hcount. unfold Array_slice, splitIndex. cbn [default].
  unfold Datatypes.id. cbv zeta.
  rewrite (proj2 (Z.ltb_ge (Z.of_nat (length array)) 0)) by lia.
  rewrite (Z.min_l (Z.of_nat (length array))) by lia.
  destruct (Z.leb_spec count (Z.of_nat (length array))) as [Hle|Hgt].
  - rewrite (proj2 (Z.ltb_ge _ 0)) by lia. rewrite Z.min_l by lia.
    apply take_ge. rewrite length_drop. lia.
  - rewrite (proj2 (Z.ltb_lt _ 0)) by lia.
    replace (Z.of_nat (length array) + (Z.of_nat (length array) - count))
      with (2 * Z.of_nat (length array) - count) by lia.
    apply take_ge. rewrite length_drop. lia.
Qed.

(** X17.  For a lottery with special numbers, [engineerFeatures] splits
    the numbers of every draw at one index: the six statistics are those of
    the numbers before it, and the mean of the numbers from it on is added
    as a seventh feature when there are any.  The index leaves the last
    [specialNumberCount] numbers as special numbers when the draw has that
    many; for a shorter draw of [n] numbers it is [2n - specialNumberCount]
    (or zero), so that some special numbers are taken for main numbers. *)
Theorem engineerFeatures_special (data : list HistoricalDraw)
    (lottery : string) (lotteryConfig : LotteryConfiguration) (count : Z)
    (w : World) :
  plain_key lottery → lottery ≠ "" →
  lotteryConfigurations (this w) !! lottery = Some lotteryConfig →
  specialNumbers lotteryConfig = true →
  specialNumberCount lotteryConfig = Some count → 0 < count →
  ∃ rows,
    engineerFeatures data (Some lottery) w = Normal (rows, w) ∧
    Forall2 (λ draw row,
               let k := splitIndex (Z.of_nat (length (draw_numbers draw))) count in
               ∃ basic,
                 basic_features
                   {| draw_numbers := take k (draw_numbers draw);
                      drawNumber := drawNumber draw |} basic ∧
                 row = basic ++
                       match drop k (draw_numbers draw) with
                       | [] => []
                       | special => [mean_of special]
                       end)
      data rows.
Proof.
  intros _ Hlottery Hconfig Hspecial Hcount Hpos.
  exists (draw_features (Some lotteryConfig) <$> data). split.
  - unfold engineerFeatures, bind, gets, ret, truthy_string.
    rewrite (proj2 (String.eqb_neq _ _) Hlottery). simpl. by rewrite Hconfig.
  - apply Forall2_fmap_r, Forall_Forall2_diag, Forall_forall.
    intros draw _. cbv zeta.
    set (k := splitIndex (Z.of_nat (length (draw_numbers draw))) count).
    exists (draw_features None
              {| draw_numbers := take k (draw_numbers draw);
                 drawNumber := drawNumber draw |}).
    split; [by apply draw_features_basic|].
    unfold draw_features. rewrite Hspecial, Hcount.
    rewrite (proj2 (Z.ltb_lt 0 count)) by done. cbv zeta.
    rewrite Array_slice_main, Array_slice_special by done. fold k.
    cbn [draw_numbers drawNumber length Nat.ltb Nat.leb].
    by destruct (drop k (draw_numbers draw)).
Qed.

Lemma engineerFeatures_special_witness :
  run (engineerFeatures
         [ {| draw_numbers := [2; 4; 6; 9]; drawNumber := 12 |};
           {| draw_numbers := []; drawNumber := 13 |} ]
         (Some "us_powerball")) demoWorld
  = Normal [ [Finite (12 # 3); Finite (5832 # 2187); Finite 2; Finite 6;
              Finite 4; Finite 12; Finite 9];
             [NaN; NaN; Infinity; NegInfinity; NegInfinity; Finite 13] ] ∧
  ∃ rows,
    engineerFeatures
      [ {| draw_numbers := [2; 4; 6; 9]; drawNumber := 12 |};
        {| draw_numbers := []; drawNumber := 13 |} ]
      (Some "us_powerball") demoWorld = Normal (rows, demoWorld) ∧
    length rows = 2%nat.
Proof.
  split; [vm_compute; reflexivity|].
  destruct (engineerFeatures_special
              [ {| draw_numbers := [2; 4; 6; 9]; drawNumber := 12 |};
                {| draw_numbers := []; drawNumber := 13 |} ]
              "us_powerball" (getLotteryConfiguration "us_powerball") 1 demoWorld)
    as (rows & Hrun & Hrows);
    [plain_key_holds|discriminate|vm_compute; reflexivity|reflexivity
    |reflexivity|lia|].
  exists rows. split; [exact Hrun|].
  apply Forall2_length in Hrows. by rewrite <- Hrows.
Defined.

(** ** The full lottery prediction *)

Lemma generateConsortiumAnalysis_run lotteryType result w :
  ∃ analysis,
    generateConsortiumAnalysis lotteryType result w
    = Normal (analysis, advance 4 w).
Proof.
  unfold generateConsortiumAnalysis.
  do 4 (unfold bind at 1; rewrite Math_random_run).
  unfold ret. rewrite !advance_advance. by eexists.
Qed.

Lemma determineRiskProfile_confidence result :
  riskOfConfidence (confidence (primaryPrediction result))
    (determineRiskProfile result).
Proof.
  unfold determineRiskProfile, riskOfConfidence. cbv zeta.
  destruct (Qlt_le_dec 98 _) as [H98|H98]; [by left|].
  destruct (Qlt_le_dec 95 _) as [H95|H95]; [by right; left|].
  by right; right.
Qed.

Lemma confidenceFollows_draw r : confidenceFollows r (90 + r * 9).
Proof. unfold confidenceFollows. split_and!; intros; lra. Qed.

Lemma getLotteryName_cases lotteryType :
  ((lotteryType ∉ names.*1) ∧ getLotteryName lotteryType = lotteryType) ∨
  (lotteryType, getLotteryName lotteryType) ∈ names.
Proof.
  unfold getLotteryName, Object_get.
  destruct (list_find _ names) as [[i [key name]]|] eqn:Hfind; simpl.
  - right. apply list_find_Some in Hfind as (Hi & Hkey & _). simpl in Hkey.
    subst key. apply list_elem_of_lookup_2 in Hi as Hin.
    replace (if truthy_string name then name else lotteryType) with name;
      [done|].
    clear -Hin. unfold names in Hin.
    repeat (apply elem_of_cons in Hin as [[= _ ->]|Hin]; [done|]).
    by apply elem_of_nil in Hin.
  - left. split; [|done]. apply list_find_None in Hfind.
    intros Hin.
    apply (proj1 (list_elem_of_fmap fst names lotteryType)) in Hin
      as ([key name] & -> & Hin).
    rewrite Forall_forall in Hfind. by apply (Hfind _ Hin).
Qed.

Section LotteryPredictionProperties.

Context {math : MathLibrary}.

Lemma generateLotteryPrediction_inv fuel lotteryType date w prediction w' :
  generateLotteryPrediction fuel lotteryType date w = Normal (prediction, w') ↔
  ∃ result w1 analysis,
    generatePrediction fuel lotteryType date w = Normal (result, w1) ∧
    generateConsortiumAnalysis lotteryType result w1
    = Normal (analysis, advance 4 w1) ∧
    w' = advance 5 w1 ∧
    prediction
    = {| lottery := getLotteryName lotteryType;
         targetDate := date;
         prediction_primaryPrediction := primaryPrediction result;
         prediction_alternativeSets := alternativeSets result;
         consortiumAnalysis := analysis;
         riskProfile := determineRiskProfile result;
         estimatedPopularity :=
           (10 + randomStream w1 (randomCalls w1 + 4) * 15)%Q |}.
Proof.
  unfold generateLotteryPrediction. rewrite bind_Normal. split.
  - intros (result & w1 & Hresult & Hrest).
    destruct (generateConsortiumAnalysis_run lotteryType result w1)
      as (analysis & Hanalysis).
    unfold bind at 1 in Hrest. rewrite Hanalysis in Hrest.
    unfold bind in Hrest. rewrite Math_random_run in Hrest.
    injection Hrest as <- <-. rewrite advance_advance.
    by exists result, w1, analysis.
  - intros (result & w1 & analysis & Hresult & Hanalysis & -> & ->).
    exists result, w1. split; [done|].
    unfold bind at 1. rewrite Hanalysis.
    unfold bind. rewrite Math_random_run. unfold ret.
    by rewrite advance_advance.
Qed.

(** X18.  [generateLotteryPrediction] returns exactly when
    [generatePrediction] does, makes five draws more and changes nothing
    else.  Its primary prediction and alternative sets are those of
    [generatePrediction], the target date is the one asked for, the
    estimated popularity lies in [[10, 25]] with [Math.random()] in
    [[0, 1)], and the lottery is named by its display name when the table
    of names has the lottery type and by the lottery type itself
    otherwise. *)
Theorem generateLotteryPrediction_wraps (fuel : nat) (lotteryType date : string)
    (w : World) :
  unit_stream w → plain_key lotteryType →
  (returns (generateLotteryPrediction fuel lotteryType date w)
   = returns (generatePrediction fuel lotteryType date w)) ∧
  ∀ prediction w',
    generateLotteryPrediction fuel lotteryType date w = Normal (prediction, w') →
    ∃ result w1,
      generatePrediction fuel lotteryType date w = Normal (result, w1) ∧
      w' = advance 5 w1 ∧
      prediction_primaryPrediction prediction = primaryPrediction result ∧
      prediction_alternativeSets prediction = alternativeSets result ∧
      targetDate prediction = date ∧
      ((10 <= estimatedPopularity prediction)%Q ∧
       (estimatedPopularity prediction <= 25)%Q) ∧
      (((lotteryType ∉ names.*1) ∧ lottery prediction = lotteryType) ∨
       (lotteryType, lottery prediction) ∈ names).
Proof.
  intros Hunit _. split.
  - destruct (generatePrediction fuel lotteryType date w)
      as [[result w1]|e|] eqn:Hresult.
    + destruct (generateConsortiumAnalysis_run lotteryType result w1)
        as (analysis & Hanalysis).
      erewrite (proj2 (generateLotteryPrediction_inv _ _ _ _ _ _)); [done|].
      by exists result, w1, analysis.
    + unfold generateLotteryPrediction, bind. by rewrite Hresult.
    + unfold generateLotteryPrediction, bind. by rewrite Hresult.
  - intros prediction w'
      (result & w1 & analysis & Hresult & _ & -> & ->)%generateLotteryPrediction_inv.
    exists result, w1.
    cbn [prediction_primaryPrediction prediction_alternativeSets targetDate
         estimatedPopularity lottery].
    split_and!; [done..| | |apply getLotteryName_cases].
    + apply frame_generatePrediction in Hresult as (_ & _ & Hstream & _).
      rewrite Hstream. destruct (Hunit (randomCalls w1 + 4)%nat). lra.
    + apply frame_generatePrediction in Hresult as (_ & _ & Hstream & _).
      rewrite Hstream. destruct (Hunit (randomCalls w1 + 4)%nat). lra.
Qed.

(** X19.  The risk profile of a full prediction is decided by the
    confidence of its primary prediction alone: [conservative] above 98,
    [balanced] above 95 and up to 98, [aggressive] up to 95.  That
    confidence follows one random draw [r]: it is at most 95 for
    [r <= 5/9] and above 95 for [r >= 0.556], at most 98 for [r <= 8/9]
    and above 98 for [r >= 0.889]. *)
Theorem generateLotteryPrediction_risk (fuel : nat) (lotteryType date : string)
    (w : World) (prediction : LotteryPrediction) (w' : World) :
  plain_key lotteryType →
  generateLotteryPrediction fuel lotteryType date w = Normal (prediction, w') →
  riskOfConfidence (confidence (prediction_primaryPrediction prediction))
    (riskProfile prediction) ∧
  ∃ r, drawn w r ∧
       confidenceFollows r (confidence (prediction_primaryPrediction prediction)).
Proof.
  intros _ (result & w1 & analysis & Hresult & _ & -> & ->)%generateLotteryPrediction_inv.
  apply generatePrediction_inv in Hresult
    as (((_ & (r1 & r2 & Hr1 & _ & Hconfidence & _) & _) & _) & _).
  cbn [prediction_primaryPrediction riskProfile].
  split; [apply determineRiskProfile_confidence|].
  exists r1. split; [done|]. rewrite Hconfidence. apply confidenceFollows_draw.
Qed.

End LotteryPredictionProperties.

Lemma generateLotteryPrediction_wraps_witness :
  returns (generateLotteryPrediction (math := taylorMath) 12 "us_powerball"
             "2025-02-02" demoWorld) = true ∧
  returns (generatePrediction (math := taylorMath) 12 "us_powerball"
             "2025-02-02" demoWorld) = true.
Proof.
  destruct (generateLotteryPrediction_wraps (math := taylorMath) 12
              "us_powerball" "2025-02-02" demoWorld demoWorld_unit_stream)
    as [Hreturns _]; [plain_key_holds|].
  split; [vm_compute; reflexivity|].
  rewrite <- Hreturns. vm_compute. reflexivity.
Defined.

Lemma generateLotteryPrediction_risk_witness :
  ∃ prediction w',
    generateLotteryPrediction (math := taylorMath) 12 "emirates_easy6"
      "2025-02-02" demoWorld = Normal (prediction, w') ∧
    riskOfConfidence (confidence (prediction_primaryPrediction prediction))
      (riskProfile prediction) ∧
    ∃ r, drawn demoWorld r ∧
         confidenceFollows r
           (confidence (prediction_primaryPrediction prediction)).
Proof.
  destruct (returns_Normal
    (generateLotteryPrediction (math := taylorMath) 12 "emirates_easy6"
       "2025-02-02" demoWorld)) as (prediction & w' & Hrun);
    [vm_compute; reflexivity|].
  exists prediction, w'. split; [exact Hrun|].
  refine (generateLotteryPrediction_risk (math := taylorMath) 12 "emirates_easy6"
            "2025-02-02" demoWorld prediction w' _ Hrun).
  plain_key_holds.
Defined.

(** ** The two tables of lottery parameters *)

(** X20.  [getLotteryParameters] always describes a request that can be
    served: numbers from 1 on, and a count that is positive and not above
    the greatest number.  It agrees with [getLotteryConfiguration] on the
    count and the range of a lottery type exactly when the lowered type is
    none of the five names only it knows with their own numbers
    ([emirates_mega7], for which it says 50 where the configuration says
    49, [emirates_fast5], [powerball_usa], [euromillions], [omillionaire]),
    the type is not [us_powerball] or [euro_millions], which only the
    configuration knows, and the type is not [emirates_easy6] in another
    case. *)
Theorem getLotteryParameters_agreement (lotteryType : string) :
  let parameters := getLotteryParameters lotteryType in
  let configuration := getLotteryConfiguration lotteryType in
  minNumber parameters = 1 ∧
  0 < count parameters ≤ maxNumber parameters ∧
  (count parameters = numberCount configuration ∧
   maxNumber parameters = numberRange configuration ↔
   (toLowerCase lotteryType ∉ ["emirates_mega7"; "emirates_fast5";
                               "powerball_usa"; "euromillions"; "omillionaire"]) ∧
   (lotteryType ∉ ["us_powerball"; "euro_millions"]) ∧
   (toLowerCase lotteryType = "emirates_easy6" → lotteryType = "emirates_easy6")).
Proof.
  unfold getLotteryParameters, getLotteryConfiguration. cbv zeta.
  rewrite !elem_of_cons, !elem_of_nil.
  repeat match goal with
         | |- context [String.eqb ?a ?b] => destruct (String.eqb_spec a b)
         end;
    cbn [minNumber maxNumber count numberCount numberRange];
    try subst lotteryType;
    try match goal with
        | H : toLowerCase (String _ _) = _ |- _ => vm_compute in H; discriminate H
        end;
    (split; [reflexivity|]); (split; [lia|]);
    (split;
     [ intros [Hcount Hmax]; try lia;
       (split_and!; [intros Hin|intros Hin|intros Heq]);
       repeat match goal with
              | H : _ ∨ _ |- _ => destruct H as [H|H]
              end;
       first [ done | congruence | vm_compute in *; congruence ]
     | intros (H1 & H2 & H3);
       first [ split; reflexivity
             | exfalso; apply H1; auto 10; fail
             | exfalso; apply H2; auto 10; fail
             | exfalso; vm_compute in H3; specialize (H3 eq_refl); congruence
             | exfalso; specialize (H3 ltac:(assumption)); congruence ] ]).
Qed.

(** ** The second version of the class *)

Section SecondVersion.

Context {math : MathLibrary}.

Lemma V2_generateQuantumRandomNumbers_eq fuel count min max w :
  V2.generateQuantumRandomNumbers fuel count min max w
  = generateQuantumRandomNumbers fuel count min max None w.
Proof. reflexivity. Qed.

Lemma V2_generateRationale_eq strategy numbers w :
  V2.generateRationale strategy numbers w
  = generateRationale strategy numbers None w.
Proof. reflexivity. Qed.

(** X21.  The sampler and the rationales of the second version of the
    class are those of the first version called without a lottery type:
    the two give the same outcome in every world, so that what holds of
    the first version's sampler without a lottery type holds of the second
    version's. *)
Theorem secondVersion_sampler_same (fuel : nat) (count min max : Z)
    (strategy : option string) (numbers : list Z) (w : World) :
  V2.generateQuantumRandomNumbers fuel count min max w
  = generateQuantumRandomNumbers fuel count min max None w ∧
  V2.generateRationale strategy numbers w
  = generateRationale strategy numbers None w.
Proof.
  split; [apply V2_generateQuantumRandomNumbers_eq|apply V2_generateRationale_eq].
Qed.

Lemma V2_sampler_valid_sample fuel count max w numbers w' :
  0 < count ≤ max →
  V2.generateQuantumRandomNumbers fuel count 1 max w = Normal (numbers, w') →
  valid_sample count 1 max (sort_ascending numbers) ∧
  ∃ j, w' = advance (3 * j) w ∧ (Z.to_nat count ≤ j)%nat.
Proof.
  rewrite V2_generateQuantumRandomNumbers_eq. intros Hcount Hrun. split.
  - eapply sampler_valid_sample; [|exact Hrun]. lia.
  - apply sampler_result in Hrun as (j & _ & -> & Hkept & Hlen).
    exists j. split; [done|].
    pose proof (accepted_length (in_range 1 max)
                  (quantumCandidate (samplerConfig None w) (samplerDepth w) 1 max)
                  3 w j) as Hj.
    change (accepted _ _ _ _ _) with (kept None 1 max w j) in Hj.
    rewrite <- Hkept in Hj. lia.
Qed.

(** The main and the bonus numbers the second version draws for a lottery
    type: the count and the range of the main numbers, and the count of
    all numbers drawn. *)
Let drawnFor (lotteryType : string) : Z * Z * Z :=
  if String.eqb lotteryType "emirates_mega7" then (7, 35, 7)
  else if String.eqb lotteryType "emirates_fast5" then (5, 36, 5)
  else if String.eqb lotteryType "emirates_easy6" then (6, 42, 6)
  else if String.eqb lotteryType "euromillions" then (5, 50, 7)
  else if String.eqb lotteryType "powerball" then (5, 69, 6)
  else (6, 49, 6).

Lemma V2_generatePredictionSet_inv fuel setId setStrategy lotteryType w set w' :
  V2.generatePredictionSet fuel setId setStrategy lotteryType w
  = Normal (set, w') →
  valid_sample (drawnFor lotteryType).1.1 1 (drawnFor lotteryType).1.2
    (V2.numbers set) ∧
  (∃ j, w' = advance j w ∧
        (3 * Z.to_nat (drawnFor lotteryType).2 + 3 ≤ j)%nat) ∧
  V2.id set = setId ∧ V2.name set = setStrategy ∧ V2.strategy set = setStrategy.
Proof.
  unfold V2.generatePredictionSet.
  intros ([raw bonus] & w2 & Hdrawn & Hrest)%bind_Normal.
  assert (Hmain : valid_sample (drawnFor lotteryType).1.1 1
                    (drawnFor lotteryType).1.2 (sort_ascending raw) ∧
                  ∃ j, w2 = advance (3 * j) w ∧
                       (Z.to_nat (drawnFor lotteryType).2 ≤ j)%nat).
  { unfold drawnFor.
    repeat (destruct (String.eqb lotteryType _));
      apply bind_Normal in Hdrawn as (numbers & w1 & Hnumbers & Hdrawn);
      apply V2_sampler_valid_sample in Hnumbers as (Hvalid & j & -> & Hj);
      try lia;
      try (injection Hdrawn as <- _ <-; split; [exact Hvalid|by exists j]);
      apply bind_Normal in Hdrawn as (extra & w3 & Hextra & [= <- _ <-]);
      apply V2_sampler_valid_sample in Hextra as (_ & j' & -> & Hj'); try lia;
      (split; [exact Hvalid|]); exists (j + j')%nat;
      (split; [rewrite advance_advance; f_equal; lia|simpl in *; lia]). }
  destruct Hmain as (Hvalid & j & -> & Hj).
  cbn [fst snd] in Hrest.
  rewrite bind_Normal in Hrest. destruct Hrest as (text & w3 & Htext & Hrest).
  rewrite V2_generateRationale_eq in Htext.
  unfold generateRationale in Htext.
  apply bind_Normal in Htext as (r & w4 & [-> ->]%Math_random_Normal & [= _ <-]).
  unfold bind in Hrest. rewrite !Math_random_run in Hrest.
  injection Hrest as <- <-. cbn [V2.numbers V2.id V2.name V2.strategy].
  split_and!; [done| |done..].
  rewrite !advance_advance. eexists. split; [reflexivity|lia].
Qed.

(** X22.  A prediction set of the second version, when it is returned,
    carries the id, name and strategy asked for and valid main numbers by
    a table of its own: 7 of [[1, 35]] for [emirates_mega7] (where the
    first version draws from [[1, 49]]), 5 of [[1, 36]] for
    [emirates_fast5], 6 of [[1, 42]] for [emirates_easy6], 5 of [[1, 50]]
    for [euromillions], 5 of [[1, 69]] for [powerball] and 6 of [[1, 49]]
    for every other type, also the [us_powerball] and [euro_millions] of
    the first version.  For [euromillions] and [powerball] two and one
    bonus numbers are drawn as well, three draws a number, and they are
    not part of the set. *)
Theorem secondVersion_generatePredictionSet_valid (fuel : nat) (setId : string)
    (setStrategy : option string) (lotteryType : string) (w : World)
    (set : V2.PredictionSet) (w' : World) :
  plain_key (default "undefined" setStrategy) →
  V2.generatePredictionSet fuel setId setStrategy lotteryType w
  = Normal (set, w') →
  let holds (count max allDrawn : Z) :=
    valid_sample count 1 max (V2.numbers set) ∧
    ∃ j, w' = advance j w ∧ (3 * Z.to_nat allDrawn + 3 ≤ j)%nat in
  (lotteryType = "emirates_mega7" → holds 7 35 7) ∧
  (lotteryType = "emirates_fast5" → holds 5 36 5) ∧
  (lotteryType = "emirates_easy6" → holds 6 42 6) ∧
  (lotteryType = "euromillions" → holds 5 50 7) ∧
  (lotteryType = "powerball" → holds 5 69 6) ∧
  (lotteryType ∉ ["emirates_mega7"; "emirates_fast5"; "emirates_easy6";
                  "euromillions"; "powerball"] → holds 6 49 6) ∧
  V2.id set = setId ∧ V2.name set = setStrategy ∧ V2.strategy set = setStrategy.
Proof.
  intros _ (Hvalid & Hdraws & Hid)%V2_generatePredictionSet_inv holds.
  subst holds. cbv beta.
  split_and!; try (intros ->; by split); [|apply Hid..].
  intros Hother. unfold drawnFor in Hvalid, Hdraws.
  repeat match type of Hvalid with
         | context [String.eqb lotteryType ?key] =>
             destruct (String.eqb_spec lotteryType key) as [->|?];
               [exfalso; apply Hother; rewrite !elem_of_cons; auto 10|]
         end.
  by split.
Qed.

End SecondVersion.

Lemma secondVersion_generatePredictionSet_valid_witness :
  ∃ set w',
    V2.generatePredictionSet (math := taylorMath) 12 "QF-1"
      (Some "Hybrid Ensemble") "euromillions" demoWorld = Normal (set, w') ∧
    valid_sample 5 1 50 (V2.numbers set) ∧
    ∃ j, w' = advance j demoWorld ∧ (24 ≤ j)%nat.
Proof.
  destruct (returns_Normal
    (V2.generatePredictionSet (math := taylorMath) 12 "QF-1"
       (Some "Hybrid Ensemble") "euromillions" demoWorld))
    as (set & w' & Hrun); [vm_compute; reflexivity|].
  exists set, w'. split; [exact Hrun|].
  destruct (secondVersion_generatePredictionSet_valid (math := taylorMath) 12
              "QF-1" (Some "Hybrid Ensemble") "euromillions" demoWorld set w')
    as (_ & _ & _ & Heuro & _); [plain_key_holds|exact Hrun|].
  exact (Heuro eq_refl).
Defined.
